(** * Persistence layer of sora2api: [src/core/database.py]

    A shallow embedding of the [Database] class.  The PostgreSQL server is
    modelled by a record of tables, the asyncpg connection by a state and
    error monad in which every statement sent to the server may fail, and
    each method of the class by a monadic program that issues the same
    statements in the same order as the Python source.  The pool is taken as
    acquired: a method starts from a connection, and the clocks do not move
    while it runs. *)

From stdpp Require Import base option list sorting gmap strings.
From Stdlib Require Import ZArith Lia.

Local Open Scope Z_scope.

(** ** Values

    One type serves for the Python scalars handed to asyncpg and for the SQL
    values stored in a column: [None] is [NULL].  Timestamps are counted in
    clock ticks and dates in days. *)

Inductive val :=
  | VNull
  | VBool (b : bool)
  | VInt (n : Z)
  | VText (s : string)
  | VTime (t : Z).

Global Instance val_eq_dec : EqDecision val.
Proof. solve_decision. Defined.

(** ** Rows *)

(** A row of [tokens], and a [Token] object: column name to value.  A column
    that is not in the map reads as [NULL]. *)
Abbreviation Row := (gmap string val).

Definition col (r : Row) (c : string) : val := default VNull (r !! c).

(** A row of [token_stats].  The only [INSERT] into that table names
    [token_id] alone, so the counters start from their [DEFAULT 0] and every
    [UPDATE] of the class writes an integer again; [last_error_at] and
    [today_date] have no default and start as [NULL].  The counters are
    integers without bound: the 32-bit range of an [INTEGER] column is not
    part of the model. *)
Record TokenStats := {
  stat_id : Z;
  token_id : Z;
  image_count : Z;
  video_count : Z;
  error_count : Z;
  last_error_at : option Z;
  today_image_count : Z;
  today_video_count : Z;
  today_error_count : Z;
  today_date : option Z;
  consecutive_error_count : Z
}.

Global Instance TokenStats_eq_dec : EqDecision TokenStats.
Proof. solve_decision. Defined.

(** ** Singleton configuration rows (the [id = 1] row of each table) *)

Record AdminConfig := {
  admin_username : string;
  admin_password : string;
  api_key : string;
  error_ban_threshold : Z;
  task_retry_enabled : bool;
  task_max_retries : Z;
  auto_disable_on_401 : bool;
  admin_updated_at : Z
}.

Record ProxyConfig := {
  proxy_enabled : bool;
  proxy_url : option string;
  proxy_updated_at : Z
}.

Record WatermarkFreeConfig := {
  watermark_free_enabled : bool;
  parse_method : string;
  custom_parse_url : option string;
  custom_parse_token : option string;
  fallback_on_failure : bool;
  watermark_updated_at : Z
}.

Record CacheConfig := {
  cache_enabled : bool;
  cache_timeout : Z;
  cache_base_url : option string;
  cache_updated_at : Z
}.

Record GenerationConfig := {
  image_timeout : Z;
  video_timeout : Z;
  generation_updated_at : Z
}.

Record TokenRefreshConfig := {
  at_auto_refresh_enabled : bool;
  token_refresh_updated_at : Z
}.

Record CallLogicConfig := {
  call_mode : string;
  polling_mode_enabled : bool;
  call_logic_updated_at : Z
}.

Record PowProxyConfig := {
  pow_proxy_enabled : bool;
  pow_proxy_url : option string;
  pow_proxy_updated_at : Z
}.

Record Config := {
  admin_config : option AdminConfig;
  proxy_config : option ProxyConfig;
  watermark_free_config : option WatermarkFreeConfig;
  cache_config : option CacheConfig;
  generation_config : option GenerationConfig;
  token_refresh_config : option TokenRefreshConfig;
  call_logic_config : option CallLogicConfig;
  pow_proxy_config : option PowProxyConfig
}.

(** ** The database

    [tokens] and [token_stats] keep their rows in insertion order, each with
    the next value of its [SERIAL] sequence.  [catalog] is what
    [information_schema] shows: the tables and their columns. *)

Record Db := {
  tokens : list Row;
  tokens_id_seq : Z;
  token_stats : list TokenStats;
  token_stats_id_seq : Z;
  config : Config;
  catalog : list (string * list string)
}.

Definition set_tokens (rows : list Row) (seq : Z) (d : Db) : Db :=
  {| tokens := rows; tokens_id_seq := seq;
     token_stats := token_stats d; token_stats_id_seq := token_stats_id_seq d;
     config := config d; catalog := catalog d |}.

Definition set_token_stats (rows : list TokenStats) (seq : Z) (d : Db) : Db :=
  {| tokens := tokens d; tokens_id_seq := tokens_id_seq d;
     token_stats := rows; token_stats_id_seq := seq;
     config := config d; catalog := catalog d |}.

Definition set_config (cf : Config) (d : Db) : Db :=
  {| tokens := tokens d; tokens_id_seq := tokens_id_seq d;
     token_stats := token_stats d; token_stats_id_seq := token_stats_id_seq d;
     config := cf; catalog := catalog d |}.

(** ** The connection

    [faults] is the fate of the statements still to be sent: the statement
    that meets [true] fails on the server or on the wire and changes
    nothing; past the end of the list every statement is served.  [issued]
    counts the statements sent.  [clock_now] is the server's
    [CURRENT_TIMESTAMP], [clock_today] the client's [date.today()]. *)

Record Conn := {
  db : Db;
  faults : list bool;
  issued : nat;
  clock_now : Z;
  clock_today : Z
}.

(** The exceptions a statement can end in: [PostgresError] stands for a
    failure that is not decided by the tables (a lost connection, a timeout,
    a missing privilege), the others for the constraint or argument that was
    violated. *)
Inductive exn :=
  | PostgresError
  | UniqueViolationError
  | NotNullViolationError
  | ForeignKeyViolationError
  | DuplicateColumnError
  | UndefinedTableError
  | DataError.

Inductive Res (A : Type) :=
  | Ok (a : A)
  | Raise (e : exn).
Arguments Ok {A} a.
Arguments Raise {A} e.

Definition M (A : Type) : Type := Conn → Res A * Conn.

Global Instance M_ret : MRet M := λ A a c, (Ok a, c).

Global Instance M_bind : MBind M := λ A B f m c,
  match m c with
  | (Ok a, c') => f a c'
  | (Raise e, c') => (Raise e, c')
  end.

Global Instance Res_ret : MRet Res := λ A a, Ok a.

Global Instance Res_bind : MBind Res := λ A B f r,
  match r with
  | Ok a => f a
  | Raise e => Raise e
  end.

(** [try: m except: h] *)
Definition try_except {A} (m : M A) (h : exn → M A) : M A := λ c,
  match m c with
  | (Ok a, c') => (Ok a, c')
  | (Raise e, c') => h e c'
  end.

(** One statement sent to the server; [f] is its meaning on the tables,
    given the server's clock. *)
Definition sent (c : Conn) (d : Db) : Conn :=
  {| db := d; faults := tail (faults c); issued := S (issued c);
     clock_now := clock_now c; clock_today := clock_today c |}.

Definition statement {A} (f : Z → Db → Res (A * Db)) : M A := λ c,
  match faults c with
  | true :: _ => (Raise PostgresError, sent c (db c))
  | _ =>
      match f (clock_now c) (db c) with
      | Ok (a, d) => (Ok a, sent c d)
      | Raise e => (Raise e, sent c (db c))
      end
  end.

(** [conn.fetch], [conn.fetchrow], [conn.fetchval] of a [SELECT]. *)
Definition fetch {A} (q : Z → Db → A) : M A :=
  statement (λ now d, Ok (q now d, d)).

(** [conn.execute] of an [INSERT], [UPDATE] or [DELETE]. *)
Definition execute (u : Z → Db → Res Db) : M unit :=
  statement (λ now d,
    match u now d with
    | Ok d' => Ok (tt, d')
    | Raise e => Raise e
    end).

(** [date.today()] *)
Definition date_today : M Z := λ c, (Ok (clock_today c), c).

(** ** Usage counters *)

(** [... FROM token_stats WHERE token_id = $1], first row. *)
Definition stats_where (tid : Z) (d : Db) : option TokenStats :=
  head (filter (λ r, token_id r = tid) (token_stats d)).

(** [UPDATE token_stats SET ... WHERE token_id = $n] *)
Definition update_stats (tid : Z) (set : TokenStats → TokenStats) (d : Db) : Db :=
  set_token_stats
    ((λ r, if bool_decide (token_id r = tid) then set r else r) <$> token_stats d)
    (token_stats_id_seq d) d.

(** [SET image_count = image_count + 1, today_image_count = <today>,
    today_date = $1] *)
Definition set_image (today_count : Z → Z) (today : Z) (r : TokenStats) : TokenStats :=
  {| stat_id := stat_id r; token_id := token_id r;
     image_count := image_count r + 1;
     video_count := video_count r;
     error_count := error_count r;
     last_error_at := last_error_at r;
     today_image_count := today_count (today_image_count r);
     today_video_count := today_video_count r;
     today_error_count := today_error_count r;
     today_date := Some today;
     consecutive_error_count := consecutive_error_count r |}.

(** [SET video_count = video_count + 1, today_video_count = <today>,
    today_date = $1] *)
Definition set_video (today_count : Z → Z) (today : Z) (r : TokenStats) : TokenStats :=
  {| stat_id := stat_id r; token_id := token_id r;
     image_count := image_count r;
     video_count := video_count r + 1;
     error_count := error_count r;
     last_error_at := last_error_at r;
     today_image_count := today_image_count r;
     today_video_count := today_count (today_video_count r);
     today_error_count := today_error_count r;
     today_date := Some today;
     consecutive_error_count := consecutive_error_count r |}.

(** [SET error_count = error_count + 1,
    (consecutive_error_count = consecutive_error_count + 1,)
    today_error_count = <today>, today_date = $1,
    last_error_at = CURRENT_TIMESTAMP] *)
Definition set_error (consecutive : Z → Z) (today_count : Z → Z)
    (today now : Z) (r : TokenStats) : TokenStats :=
  {| stat_id := stat_id r; token_id := token_id r;
     image_count := image_count r;
     video_count := video_count r;
     error_count := error_count r + 1;
     last_error_at := Some now;
     today_image_count := today_image_count r;
     today_video_count := today_video_count r;
     today_error_count := today_count (today_error_count r);
     today_date := Some today;
     consecutive_error_count := consecutive (consecutive_error_count r) |}.

(** [row and row['today_date'] != date.today()]: a fetched row is truthy. *)
Definition stale (row : option (option Z)) (today : Z) : bool :=
  match row with
  | Some d => negb (bool_decide (d = Some today))
  | None => false
  end.

Definition get_token_stats (tid : Z) : M (option TokenStats) :=
  fetch (λ _ d, stats_where tid d).

Definition increment_image_count (tid : Z) : M unit :=
  row ← fetch (λ _ d, today_date <$> stats_where tid d);
  today ← date_today;
  if stale row today then
    today ← date_today;
    execute (λ _ d, Ok (update_stats tid (set_image (λ _, 1) today) d))
  else
    today ← date_today;
    execute (λ _ d, Ok (update_stats tid (set_image (λ n, n + 1) today) d)).

Definition increment_video_count (tid : Z) : M unit :=
  row ← fetch (λ _ d, today_date <$> stats_where tid d);
  today ← date_today;
  if stale row today then
    today ← date_today;
    execute (λ _ d, Ok (update_stats tid (set_video (λ _, 1) today) d))
  else
    today ← date_today;
    execute (λ _ d, Ok (update_stats tid (set_video (λ n, n + 1) today) d)).

Definition increment_error_count (tid : Z) (increment_consecutive : bool) : M unit :=
  row ← fetch (λ _ d, today_date <$> stats_where tid d);
  today ← date_today;
  if stale row today then
    if increment_consecutive then
      today ← date_today;
      execute (λ now d,
        Ok (update_stats tid (set_error (λ n, n + 1) (λ _, 1) today now) d))
    else
      today ← date_today;
      execute (λ now d,
        Ok (update_stats tid (set_error (λ n, n) (λ _, 1) today now) d))
  else
    if increment_consecutive then
      today ← date_today;
      execute (λ now d,
        Ok (update_stats tid (set_error (λ n, n + 1) (λ n, n + 1) today now) d))
    else
      today ← date_today;
      execute (λ now d,
        Ok (update_stats tid (set_error (λ n, n) (λ n, n + 1) today now) d)).

(** ** Credentials *)

(** SQL comparison and connectives: [None] is the unknown of three-valued
    logic; a [WHERE] clause keeps a row when the condition is [Some true]. *)
Definition sql_eq (a b : val) : option bool :=
  match a, b with
  | VNull, _ | _, VNull => None
  | _, _ => Some (bool_decide (a = b))
  end.

Definition sql_lt (a b : val) : option bool :=
  match a, b with
  | VInt x, VInt y => Some (bool_decide (x < y))
  | VTime x, VTime y => Some (bool_decide (x < y))
  | _, _ => None
  end.

Definition sql_gt (a b : val) : option bool := sql_lt b a.

Definition sql_is_null (a : val) : option bool :=
  Some (bool_decide (a = VNull)).

Definition sql_and (p q : option bool) : option bool :=
  match p, q with
  | Some false, _ | _, Some false => Some false
  | Some true, Some true => Some true
  | _, _ => None
  end.

Definition sql_or (p q : option bool) : option bool :=
  match p, q with
  | Some true, _ | _, Some true => Some true
  | Some false, Some false => Some false
  | _, _ => None
  end.

Definition sql_where (cond : Row → option bool) (rows : list Row) : list Row :=
  filter (λ r, cond r = Some true) rows.

(** Column defaults of [CREATE TABLE tokens]; the columns without a default
    are [NULL]. *)
Definition tokens_defaults (id now : Z) : Row :=
  {[ "id" := VInt id; "is_active" := VBool true; "created_at" := VTime now;
     "use_count" := VInt 0; "sora2_redeemed_count" := VInt 0;
     "sora2_total_count" := VInt 0; "sora2_remaining_count" := VInt 0;
     "image_enabled" := VBool true; "video_enabled" := VBool true;
     "image_concurrency" := VInt (-1); "video_concurrency" := VInt (-1);
     "is_expired" := VBool false ]}.

(** [token TEXT UNIQUE NOT NULL, email TEXT NOT NULL, username TEXT NOT NULL,
    name TEXT NOT NULL] *)
Definition tokens_not_null : list string := ["token"; "email"; "username"; "name"].

Definition token_taken (v : val) (rows : list Row) : bool :=
  bool_decide (Exists (λ r, col r "token" = v) rows).

(** [INSERT INTO tokens (columns) VALUES (values) RETURNING id] *)
Definition insert_tokens (columns : list string) (values : list val)
    (now : Z) (d : Db) : Res (Z * Db) :=
  let id := tokens_id_seq d in
  let r : Row := list_to_map (zip columns values) ∪ tokens_defaults id now in
  if bool_decide (Exists (λ c, col r c = VNull) tokens_not_null) then
    Raise NotNullViolationError
  else if token_taken (col r "token") (tokens d) then
    Raise UniqueViolationError
  else Ok (id, set_tokens (tokens d ++ [r]) (id + 1) d).

(** [INSERT INTO token_stats (token_id) VALUES ($1)], with
    [FOREIGN KEY (token_id) REFERENCES tokens(id)]. *)
Definition zero_stats (id tid : Z) : TokenStats :=
  {| stat_id := id; token_id := tid;
     image_count := 0; video_count := 0; error_count := 0;
     last_error_at := None;
     today_image_count := 0; today_video_count := 0; today_error_count := 0;
     today_date := None;
     consecutive_error_count := 0 |}.

Definition insert_token_stats (tid : Z) (d : Db) : Res Db :=
  if bool_decide (Exists (λ r, col r "id" = VInt tid) (tokens d)) then
    let id := token_stats_id_seq d in
    Ok (set_token_stats (token_stats d ++ [zero_stats id tid]) (id + 1) d)
  else Raise ForeignKeyViolationError.

(** The column list and the argument list of the [INSERT INTO tokens] of
    [add_token]: the third argument is the literal [""]. *)
Definition add_token_columns : list string :=
  ["token"; "email"; "username"; "name"; "st"; "rt"; "client_id";
   "proxy_url"; "remark"; "expiry_time"; "is_active"; "plan_type";
   "plan_title"; "subscription_end"; "sora2_supported";
   "sora2_invite_code"; "sora2_redeemed_count"; "sora2_total_count";
   "sora2_remaining_count"; "sora2_cooldown_until"; "image_enabled";
   "video_enabled"; "image_concurrency"; "video_concurrency"].

Definition add_token_values (token : Row) : list val :=
  [col token "token"; col token "email"; VText ""; col token "name";
   col token "st"; col token "rt"; col token "client_id";
   col token "proxy_url"; col token "remark"; col token "expiry_time";
   col token "is_active"; col token "plan_type"; col token "plan_title";
   col token "subscription_end"; col token "sora2_supported";
   col token "sora2_invite_code"; col token "sora2_redeemed_count";
   col token "sora2_total_count"; col token "sora2_remaining_count";
   col token "sora2_cooldown_until"; col token "image_enabled";
   col token "video_enabled"; col token "image_concurrency";
   col token "video_concurrency"].

Definition add_token (token : Row) : M Z :=
  token_id ← statement
    (insert_tokens add_token_columns (add_token_values token));
  execute (λ _ d, insert_token_stats token_id d);;
  mret token_id.

(** [WHERE is_active = TRUE
     AND (cooled_until IS NULL OR cooled_until < CURRENT_TIMESTAMP)
     AND expiry_time > CURRENT_TIMESTAMP] *)
Definition active_where (now : Z) (r : Row) : option bool :=
  sql_and
    (sql_and
       (sql_eq (col r "is_active") (VBool true))
       (sql_or (sql_is_null (col r "cooled_until"))
               (sql_lt (col r "cooled_until") (VTime now))))
    (sql_gt (col r "expiry_time") (VTime now)).

(** [ORDER BY last_used_at ASC NULLS FIRST] *)
Definition last_used (r : Row) : option Z :=
  match col r "last_used_at" with
  | VTime t => Some t
  | _ => None
  end.

Definition nulls_first (a b : option Z) : Prop :=
  match a, b with
  | None, _ => True
  | Some _, None => False
  | Some x, Some y => x ≤ y
  end.

Definition last_used_asc (r1 r2 : Row) : Prop :=
  nulls_first (last_used r1) (last_used r2).

Global Instance nulls_first_dec a b : Decision (nulls_first a b).
Proof. destruct a, b; simpl; apply _. Defined.

Global Instance last_used_asc_dec r1 r2 : Decision (last_used_asc r1 r2).
Proof. unfold last_used_asc. apply _. Defined.

Definition get_active_tokens : M (list Row) :=
  rows ← fetch (λ now d,
    merge_sort last_used_asc (sql_where (active_where now) (tokens d)));
  mret rows.

(** [if x is not None: updates.append("column = $n"); params.append(x)] *)
Definition is_not_None (column : string) (x : val) : list (string * val) :=
  if bool_decide (x = VNull) then [] else [(column, x)].

(** [SET column = value, ...] on one row, left to right. *)
Definition assign (updates : list (string * val)) (r : Row) : Row :=
  foldl (λ r cv, <[cv.1 := cv.2]> r) r updates.

(** [UPDATE tokens SET updates WHERE id = $n]; the [UNIQUE] index on [token]
    is checked when that column is written. *)
Definition update_tokens (updates : list (string * val)) (token_id : Z)
    (d : Db) : Res Db :=
  let rows :=
    (λ r, if bool_decide (col r "id" = VInt token_id) then assign updates r else r)
      <$> tokens d in
  if bool_decide ("token" ∈ updates.*1 ∧ ¬ NoDup ((λ r, col r "token") <$> rows))
  then Raise UniqueViolationError
  else Ok (set_tokens rows (tokens_id_seq d) d).

Definition update_token (token_id : Z)
    (token st rt client_id proxy_url remark expiry_time plan_type plan_title
     subscription_end image_enabled video_enabled image_concurrency
     video_concurrency : val) : M unit :=
  let updates :=
    is_not_None "token" token ++ is_not_None "st" st ++ is_not_None "rt" rt ++
    is_not_None "client_id" client_id ++ is_not_None "proxy_url" proxy_url ++
    is_not_None "remark" remark ++ is_not_None "expiry_time" expiry_time ++
    is_not_None "plan_type" plan_type ++ is_not_None "plan_title" plan_title ++
    is_not_None "subscription_end" subscription_end ++
    is_not_None "image_enabled" image_enabled ++
    is_not_None "video_enabled" video_enabled ++
    is_not_None "image_concurrency" image_concurrency ++
    is_not_None "video_concurrency" video_concurrency in
  if bool_decide (updates = []) then mret tt
  else execute (λ _ d, update_tokens updates token_id d).

(** ** Schema probes *)

(** [SELECT EXISTS(SELECT 1 FROM information_schema.tables
    WHERE table_name = $1)] *)
Definition _table_exists (table_name : string) : M bool :=
  result ← fetch (λ _ d, bool_decide (table_name ∈ (catalog d).*1));
  mret result.

(** [SELECT EXISTS(SELECT 1 FROM information_schema.columns
    WHERE table_name = $1 AND column_name = $2)] inside [try: ... except:
    return False] *)
Definition _column_exists (table_name column_name : string) : M bool :=
  try_except
    (result ← fetch (λ _ d,
       bool_decide (Exists (λ t, t.1 = table_name ∧ column_name ∈ t.2) (catalog d)));
     mret result)
    (λ _, mret false).

(** [ALTER TABLE table ADD COLUMN column type]: the catalog gains the
    column; the rows are not touched by the model. *)
Definition alter_table_add_column (table column : string) (d : Db) : Res Db :=
  match list_find (λ t, t.1 = table) (catalog d) with
  | None => Raise UndefinedTableError
  | Some (i, t) =>
      if bool_decide (column ∈ t.2) then Raise DuplicateColumnError
      else Ok {| tokens := tokens d; tokens_id_seq := tokens_id_seq d;
                 token_stats := token_stats d;
                 token_stats_id_seq := token_stats_id_seq d;
                 config := config d;
                 catalog := <[i := (table, t.2 ++ [column])]> (catalog d) |}
  end.

Fixpoint for_each {A} (l : list A) (body : A → M unit) : M unit :=
  match l with
  | [] => mret tt
  | x :: l => body x;; for_each l body
  end.

(** [if await self._table_exists(conn, table):
       for col_name, col_type in columns_to_add:
         if not await self._column_exists(conn, table, col_name):
           try: ALTER TABLE ... except Exception: print(...)] *)
Definition add_missing_columns (table : string)
    (columns_to_add : list (string * string)) : M unit :=
  present ← _table_exists table;
  if present : bool then
    for_each columns_to_add (λ column,
      found ← _column_exists table column.1;
      if found : bool then mret tt
      else try_except
             (execute (λ _ d, alter_table_add_column table column.1 d))
             (λ _, mret tt))
  else mret tt.

(** ** Configuration *)

(** [config_dict] is read from [setting.toml]: sections of scalar values. *)
Inductive toml :=
  | TStr (s : string)
  | TBool (b : bool)
  | TInt (n : Z).

Global Instance toml_eq_dec : EqDecision toml.
Proof. solve_decision. Defined.

Abbreviation ConfigSection := (gmap string toml).
Abbreviation ConfigDict := (gmap string (gmap string toml)).

Definition toml_truthy (v : toml) : bool :=
  match v with
  | TStr s => negb (String.eqb s "")
  | TBool b => b
  | TInt n => negb (n =? 0)
  end.

(** [if config_dict:] *)
Definition dict_truthy (config_dict : option ConfigDict) : bool :=
  match config_dict with
  | Some m => negb (bool_decide (m = ∅))
  | None => false
  end.

(** [config_dict.get(name, {})] *)
Definition get_section (config_dict : option ConfigDict) (name : string) : ConfigSection :=
  default ∅ (config_dict ≫= (.!! name)).

(** [section.get(key, fallback)] *)
Definition get (section : ConfigSection) (key : string) (fallback : toml) : toml :=
  default fallback (section !! key).

(** [x if x else None] *)
Definition or_None (x : toml) : option toml :=
  if toml_truthy x then Some x else None.

(** What asyncpg accepts as the argument of a [TEXT], [BOOLEAN] and [INTEGER]
    parameter; [None] is sent as [NULL], and a Python [bool] is an [int]. *)
Definition text_arg (v : toml) : Res string :=
  match v with
  | TStr s => Ok s
  | _ => Raise DataError
  end.

Definition opt_text_arg (v : option toml) : Res (option string) :=
  match v with
  | None => Ok None
  | Some v => s ← text_arg v; Ok (Some s)
  end.

Definition bool_arg (v : toml) : Res bool :=
  match v with
  | TBool b => Ok b
  | _ => Raise DataError
  end.

Definition int4 (n : Z) : Res Z :=
  if bool_decide (-2147483648 ≤ n ≤ 2147483647) then Ok n else Raise DataError.

Definition int_arg (v : toml) : Res Z :=
  match v with
  | TInt n => int4 n
  | TBool b => Ok (if b then 1 else 0)
  | TStr _ => Raise DataError
  end.

Definition set_admin_config (r : option AdminConfig) (cf : Config) : Config :=
  {| admin_config := r; proxy_config := proxy_config cf;
     watermark_free_config := watermark_free_config cf;
     cache_config := cache_config cf; generation_config := generation_config cf;
     token_refresh_config := token_refresh_config cf;
     call_logic_config := call_logic_config cf;
     pow_proxy_config := pow_proxy_config cf |}.

Definition set_proxy_config (r : option ProxyConfig) (cf : Config) : Config :=
  {| admin_config := admin_config cf; proxy_config := r;
     watermark_free_config := watermark_free_config cf;
     cache_config := cache_config cf; generation_config := generation_config cf;
     token_refresh_config := token_refresh_config cf;
     call_logic_config := call_logic_config cf;
     pow_proxy_config := pow_proxy_config cf |}.

Definition set_watermark_free_config (r : option WatermarkFreeConfig) (cf : Config) : Config :=
  {| admin_config := admin_config cf; proxy_config := proxy_config cf;
     watermark_free_config := r;
     cache_config := cache_config cf; generation_config := generation_config cf;
     token_refresh_config := token_refresh_config cf;
     call_logic_config := call_logic_config cf;
     pow_proxy_config := pow_proxy_config cf |}.

Definition set_cache_config (r : option CacheConfig) (cf : Config) : Config :=
  {| admin_config := admin_config cf; proxy_config := proxy_config cf;
     watermark_free_config := watermark_free_config cf;
     cache_config := r; generation_config := generation_config cf;
     token_refresh_config := token_refresh_config cf;
     call_logic_config := call_logic_config cf;
     pow_proxy_config := pow_proxy_config cf |}.

Definition set_generation_config (r : option GenerationConfig) (cf : Config) : Config :=
  {| admin_config := admin_config cf; proxy_config := proxy_config cf;
     watermark_free_config := watermark_free_config cf;
     cache_config := cache_config cf; generation_config := r;
     token_refresh_config := token_refresh_config cf;
     call_logic_config := call_logic_config cf;
     pow_proxy_config := pow_proxy_config cf |}.

Definition set_token_refresh_config (r : option TokenRefreshConfig) (cf : Config) : Config :=
  {| admin_config := admin_config cf; proxy_config := proxy_config cf;
     watermark_free_config := watermark_free_config cf;
     cache_config := cache_config cf; generation_config := generation_config cf;
     token_refresh_config := r;
     call_logic_config := call_logic_config cf;
     pow_proxy_config := pow_proxy_config cf |}.

Definition set_call_logic_config (r : option CallLogicConfig) (cf : Config) : Config :=
  {| admin_config := admin_config cf; proxy_config := proxy_config cf;
     watermark_free_config := watermark_free_config cf;
     cache_config := cache_config cf; generation_config := generation_config cf;
     token_refresh_config := token_refresh_config cf;
     call_logic_config := r;
     pow_proxy_config := pow_proxy_config cf |}.

Definition set_pow_proxy_config (r : option PowProxyConfig) (cf : Config) : Config :=
  {| admin_config := admin_config cf; proxy_config := proxy_config cf;
     watermark_free_config := watermark_free_config cf;
     cache_config := cache_config cf; generation_config := generation_config cf;
     token_refresh_config := token_refresh_config cf;
     call_logic_config := call_logic_config cf;
     pow_proxy_config := r |}.

(** [SELECT COUNT] of all the rows of a singleton table. *)
Definition count {A} (table : option A) : Z :=
  match table with
  | Some _ => 1
  | None => 0
  end.

(** [INSERT INTO table (id, ...) VALUES (1, ...)] under [id INTEGER PRIMARY
    KEY], and [UPDATE table SET ... WHERE id = 1]. *)
Definition insert_row {A} (r : A) (table : option A) : Res (option A) :=
  match table with
  | None => Ok (Some r)
  | Some _ => Raise UniqueViolationError
  end.

Definition update_row {A} (set : A → A) (table : option A) : option A :=
  set <$> table.

(** *** Bootstrap: [_ensure_config_rows], one definition per table, in the
    order of the source. *)

Definition ensure_admin_config (config_dict : option ConfigDict) : M unit :=
  n ← fetch (λ _ d, count (admin_config (config d)));
  if bool_decide (n = 0) then
    let '(username, password, key, threshold, retry, retries, disable) :=
      if dict_truthy config_dict then
        let global_config := get_section config_dict "global" in
        let admin := get_section config_dict "admin" in
        (get global_config "admin_username" (TStr "admin"),
         get global_config "admin_password" (TStr "admin"),
         get global_config "api_key" (TStr "han1234"),
         get admin "error_ban_threshold" (TInt 3),
         get admin "task_retry_enabled" (TBool true),
         get admin "task_max_retries" (TInt 3),
         get admin "auto_disable_on_401" (TBool true))
      else
        (TStr "admin", TStr "admin", TStr "han1234", TInt 3, TBool true,
         TInt 3, TBool true) in
    execute (λ now d,
      a1 ← text_arg username; a2 ← text_arg password; a3 ← text_arg key;
      a4 ← int_arg threshold; a5 ← bool_arg retry; a6 ← int_arg retries;
      a7 ← bool_arg disable;
      t ← insert_row
             {| admin_username := a1; admin_password := a2;
                        api_key := a3; error_ban_threshold := a4;
                        task_retry_enabled := a5; task_max_retries := a6;
                        auto_disable_on_401 := a7; admin_updated_at := now |}
             (admin_config (config d));
      Ok (set_config (set_admin_config t (config d)) d))
  else mret tt.

Definition ensure_proxy_config (config_dict : option ConfigDict) : M unit :=
  n ← fetch (λ _ d, count (proxy_config (config d)));
  if bool_decide (n = 0) then
    let '(enabled, url) :=
      if dict_truthy config_dict then
        let section := get_section config_dict "proxy" in
        let enabled := get section "proxy_enabled" (TBool false) in
        let url := get section "proxy_url" (TStr "") in
        (enabled, or_None url)
      else (TBool false, None) in
    execute (λ now d,
      a1 ← bool_arg enabled; a2 ← opt_text_arg url;
      t ← insert_row
             {| proxy_enabled := a1; proxy_url := a2;
                        proxy_updated_at := now |}
             (proxy_config (config d));
      Ok (set_config (set_proxy_config t (config d)) d))
  else mret tt.

Definition ensure_watermark_free_config (config_dict : option ConfigDict) : M unit :=
  n ← fetch (λ _ d, count (watermark_free_config (config d)));
  if bool_decide (n = 0) then
    let '(enabled, method, url, token, fallback) :=
      if dict_truthy config_dict then
        let section := get_section config_dict "watermark_free" in
        let enabled := get section "watermark_free_enabled" (TBool false) in
        let method := get section "parse_method" (TStr "third_party") in
        let url := get section "custom_parse_url" (TStr "") in
        let token := get section "custom_parse_token" (TStr "") in
        let fallback := get section "fallback_on_failure" (TBool true) in
        (enabled, method, or_None url, or_None token, fallback)
      else (TBool false, TStr "third_party", None, None, TBool true) in
    execute (λ now d,
      a1 ← bool_arg enabled; a2 ← text_arg method; a3 ← opt_text_arg url;
      a4 ← opt_text_arg token; a5 ← bool_arg fallback;
      t ← insert_row
             {| watermark_free_enabled := a1; parse_method := a2;
                        custom_parse_url := a3; custom_parse_token := a4;
                        fallback_on_failure := a5;
                        watermark_updated_at := now |}
             (watermark_free_config (config d));
      Ok (set_config (set_watermark_free_config t (config d)) d))
  else mret tt.

Definition ensure_cache_config (config_dict : option ConfigDict) : M unit :=
  n ← fetch (λ _ d, count (cache_config (config d)));
  if bool_decide (n = 0) then
    let '(enabled, timeout, base_url) :=
      if dict_truthy config_dict then
        let section := get_section config_dict "cache" in
        let enabled := get section "enabled" (TBool false) in
        let timeout := get section "timeout" (TInt 600) in
        let base_url := get section "base_url" (TStr "") in
        (enabled, timeout, or_None base_url)
      else (TBool false, TInt 600, None) in
    execute (λ now d,
      a1 ← bool_arg enabled; a2 ← int_arg timeout; a3 ← opt_text_arg base_url;
      t ← insert_row
             {| cache_enabled := a1; cache_timeout := a2;
                        cache_base_url := a3; cache_updated_at := now |}
             (cache_config (config d));
      Ok (set_config (set_cache_config t (config d)) d))
  else mret tt.

Definition ensure_generation_config (config_dict : option ConfigDict) : M unit :=
  n ← fetch (λ _ d, count (generation_config (config d)));
  if bool_decide (n = 0) then
    let '(image, video) :=
      if dict_truthy config_dict then
        let section := get_section config_dict "generation" in
        (get section "image_timeout" (TInt 300),
         get section "video_timeout" (TInt 3000))
      else (TInt 300, TInt 3000) in
    execute (λ now d,
      a1 ← int_arg image; a2 ← int_arg video;
      t ← insert_row
             {| image_timeout := a1; video_timeout := a2;
                        generation_updated_at := now |}
             (generation_config (config d));
      Ok (set_config (set_generation_config t (config d)) d))
  else mret tt.

Definition ensure_token_refresh_config (config_dict : option ConfigDict) : M unit :=
  n ← fetch (λ _ d, count (token_refresh_config (config d)));
  if bool_decide (n = 0) then
    let enabled :=
      if dict_truthy config_dict then
        get (get_section config_dict "token_refresh")
          "at_auto_refresh_enabled" (TBool false)
      else TBool false in
    execute (λ now d,
      a1 ← bool_arg enabled;
      t ← insert_row
             {| at_auto_refresh_enabled := a1;
                        token_refresh_updated_at := now |}
             (token_refresh_config (config d));
      Ok (set_config (set_token_refresh_config t (config d)) d))
  else mret tt.

(** The pair [(call_mode, polling_mode_enabled)] that the bootstrap hands to
    the [INSERT INTO call_logic_config]. *)
Definition normalize_call_mode (config_dict : option ConfigDict) : toml * toml :=
  if dict_truthy config_dict then
    let section := get_section config_dict "call_logic" in
    let mode := get section "call_mode" (TStr "default") in
    if bool_decide (mode ∉ [TStr "default"; TStr "polling"]) then
      let polling := get section "polling_mode_enabled" (TBool false) in
      (if toml_truthy polling then TStr "polling" else TStr "default", polling)
    else (mode, TBool (bool_decide (mode = TStr "polling")))
  else (TStr "default", TBool false).

Definition ensure_call_logic_config (config_dict : option ConfigDict) : M unit :=
  n ← fetch (λ _ d, count (call_logic_config (config d)));
  if bool_decide (n = 0) then
    let '(mode, polling) := normalize_call_mode config_dict in
    execute (λ now d,
      a1 ← text_arg mode; a2 ← bool_arg polling;
      t ← insert_row
             {| call_mode := a1; polling_mode_enabled := a2;
                        call_logic_updated_at := now |}
             (call_logic_config (config d));
      Ok (set_config (set_call_logic_config t (config d)) d))
  else mret tt.

Definition ensure_pow_proxy_config (config_dict : option ConfigDict) : M unit :=
  n ← fetch (λ _ d, count (pow_proxy_config (config d)));
  if bool_decide (n = 0) then
    let '(enabled, url) :=
      if dict_truthy config_dict then
        let section := get_section config_dict "pow_proxy" in
        let enabled := get section "pow_proxy_enabled" (TBool false) in
        let url := get section "pow_proxy_url" (TStr "") in
        (enabled, or_None url)
      else (TBool false, None) in
    execute (λ now d,
      a1 ← bool_arg enabled; a2 ← opt_text_arg url;
      t ← insert_row
             {| pow_proxy_enabled := a1; pow_proxy_url := a2;
                        pow_proxy_updated_at := now |}
             (pow_proxy_config (config d));
      Ok (set_config (set_pow_proxy_config t (config d)) d))
  else mret tt.

Definition _ensure_config_rows (config_dict : option ConfigDict) : M unit :=
  ensure_admin_config config_dict;;
  ensure_proxy_config config_dict;;
  ensure_watermark_free_config config_dict;;
  ensure_cache_config config_dict;;
  ensure_generation_config config_dict;;
  ensure_token_refresh_config config_dict;;
  ensure_call_logic_config config_dict;;
  ensure_pow_proxy_config config_dict.

Definition init_config_from_toml (config_dict : option ConfigDict)
    (is_first_startup : bool) : M unit :=
  if is_first_startup then _ensure_config_rows config_dict
  else _ensure_config_rows None.

Definition check_and_migrate_db (config_dict : option ConfigDict) : M unit :=
  add_missing_columns "tokens"
    [("sora2_supported", "BOOLEAN"); ("sora2_invite_code", "TEXT");
     ("sora2_redeemed_count", "INTEGER DEFAULT 0");
     ("sora2_total_count", "INTEGER DEFAULT 0");
     ("sora2_remaining_count", "INTEGER DEFAULT 0");
     ("sora2_cooldown_until", "TIMESTAMP");
     ("image_enabled", "BOOLEAN DEFAULT TRUE");
     ("video_enabled", "BOOLEAN DEFAULT TRUE");
     ("image_concurrency", "INTEGER DEFAULT -1");
     ("video_concurrency", "INTEGER DEFAULT -1");
     ("client_id", "TEXT"); ("proxy_url", "TEXT");
     ("is_expired", "BOOLEAN DEFAULT FALSE")];;
  add_missing_columns "token_stats"
    [("consecutive_error_count", "INTEGER DEFAULT 0")];;
  add_missing_columns "admin_config"
    [("admin_username", "TEXT DEFAULT 'admin'");
     ("admin_password", "TEXT DEFAULT 'admin'");
     ("api_key", "TEXT DEFAULT 'han1234'");
     ("task_retry_enabled", "BOOLEAN DEFAULT TRUE");
     ("task_max_retries", "INTEGER DEFAULT 3");
     ("auto_disable_on_401", "BOOLEAN DEFAULT TRUE")];;
  add_missing_columns "watermark_free_config"
    [("parse_method", "TEXT DEFAULT 'third_party'");
     ("custom_parse_url", "TEXT"); ("custom_parse_token", "TEXT");
     ("fallback_on_failure", "BOOLEAN DEFAULT TRUE")];;
  add_missing_columns "request_logs"
    [("task_id", "TEXT"); ("updated_at", "TIMESTAMP")];;
  add_missing_columns "tasks" [("retry_count", "INTEGER DEFAULT 0")];;
  _ensure_config_rows config_dict.

(** *** Updates *)

Definition update_proxy_config (enabled : bool) (url : option string) : M unit :=
  execute (λ now d,
    Ok (set_config
          (set_proxy_config
             (update_row
                (λ _, {| proxy_enabled := enabled; proxy_url := url;
                         proxy_updated_at := now |})
                (proxy_config (config d)))
             (config d)) d)).

(** [x or fallback] on an optional string. *)
Definition str_or (x : option string) (fallback : string) : string :=
  match x with
  | Some s => if String.eqb s "" then fallback else s
  | None => fallback
  end.

Definition update_watermark_free_config (enabled : bool)
    (method url token : option string) (fallback : option bool) : M unit :=
  if bool_decide (method = None ∧ url = None ∧ token = None ∧ fallback = None)
  then
    execute (λ now d,
      Ok (set_config
            (set_watermark_free_config
               (update_row
                  (λ r, {| watermark_free_enabled := enabled;
                           parse_method := parse_method r;
                           custom_parse_url := custom_parse_url r;
                           custom_parse_token := custom_parse_token r;
                           fallback_on_failure := fallback_on_failure r;
                           watermark_updated_at := now |})
                  (watermark_free_config (config d)))
               (config d)) d))
  else
    execute (λ now d,
      Ok (set_config
            (set_watermark_free_config
               (update_row
                  (λ _, {| watermark_free_enabled := enabled;
                           parse_method := str_or method "third_party";
                           custom_parse_url := url;
                           custom_parse_token := token;
                           fallback_on_failure := default true fallback;
                           watermark_updated_at := now |})
                  (watermark_free_config (config d)))
               (config d)) d)).

Definition update_cache_config (enabled : option bool) (timeout : option Z)
    (base_url : option string) : M unit :=
  row ← fetch (λ _ d, cache_config (config d));
  let '(new_enabled, new_timeout, new_base_url) :=
    match row with
    | Some current =>
        (default (cache_enabled current) enabled,
         default (cache_timeout current) timeout,
         match base_url with
         | Some u => Some u
         | None => cache_base_url current
         end)
    | None => (default false enabled, default 600 timeout, base_url)
    end in
  let new_base_url :=
    match new_base_url with
    | Some u => if String.eqb u "" then None else Some u
    | None => None
    end in
  execute (λ now d,
    a2 ← int4 new_timeout;
    Ok (set_config
          (set_cache_config
             (update_row
                (λ _, {| cache_enabled := new_enabled; cache_timeout := a2;
                         cache_base_url := new_base_url;
                         cache_updated_at := now |})
                (cache_config (config d)))
             (config d)) d)).

Definition update_call_logic_config (mode : string) : M unit :=
  let normalized := if String.eqb mode "polling" then "polling" else "default" in
  let polling := String.eqb normalized "polling" in
  n ← fetch (λ _ d, count (call_logic_config (config d)));
  if bool_decide (n = 0) then
    execute (λ now d,
      t ← insert_row
            {| call_mode := normalized; polling_mode_enabled := polling;
               call_logic_updated_at := now |}
            (call_logic_config (config d));
      Ok (set_config (set_call_logic_config t (config d)) d))
  else
    execute (λ now d,
      Ok (set_config
            (set_call_logic_config
               (update_row
                  (λ _, {| call_mode := normalized;
                           polling_mode_enabled := polling;
                           call_logic_updated_at := now |})
                  (call_logic_config (config d)))
               (config d)) d)).

Definition update_pow_proxy_config (enabled : bool) (url : option string) : M unit :=
  n ← fetch (λ _ d, count (pow_proxy_config (config d)));
  if bool_decide (n = 0) then
    execute (λ now d,
      t ← insert_row
            {| pow_proxy_enabled := enabled; pow_proxy_url := url;
               pow_proxy_updated_at := now |}
            (pow_proxy_config (config d));
      Ok (set_config (set_pow_proxy_config t (config d)) d))
  else
    execute (λ now d,
      Ok (set_config
            (set_pow_proxy_config
               (update_row
                  (λ _, {| pow_proxy_enabled := enabled; pow_proxy_url := url;
                           pow_proxy_updated_at := now |})
                  (pow_proxy_config (config d)))
               (config d)) d)).

(** * Vocabulary of the specification *)

(** A timestamp column lies in the past, or in the future, of [now]; a
    [NULL] does neither. *)
Definition in_past (v : val) (now : Z) : Prop :=
  match v with
  | VTime t => t < now
  | _ => False
  end.

Definition in_future (v : val) (now : Z) : Prop :=
  match v with
  | VTime t => now < t
  | _ => False
  end.

Global Instance in_past_dec v now : Decision (in_past v now).
Proof. destruct v; simpl; apply _. Defined.

Global Instance in_future_dec v now : Decision (in_future v now).
Proof. destruct v; simpl; apply _. Defined.

(** A credential is usable: active, cooldown absent or over, expiry ahead. *)
Definition usable (now : Z) (r : Row) : Prop :=
  col r "is_active" = VBool true ∧
  (col r "cooled_until" = VNull ∨ in_past (col r "cooled_until") now) ∧
  in_future (col r "expiry_time") now.

Global Instance usable_dec now r : Decision (usable now r).
Proof. unfold usable. apply _. Defined.

(** [add_token] as a single unit of work: a call that fails leaves no
    credential row behind. *)
Definition add_token_all_or_nothing : Prop :=
  ∀ token c e c',
    add_token token c = (Raise e, c') → tokens (db c') = tokens (db c).

(** The keyword arguments of [update_token] by column name, and those of
    them that were provided, that is, are not [None]. *)
Definition fields
    (token st rt client_id proxy_url remark expiry_time plan_type plan_title
     subscription_end image_enabled video_enabled image_concurrency
     video_concurrency : val) : list (string * val) :=
  [("token", token); ("st", st); ("rt", rt); ("client_id", client_id);
   ("proxy_url", proxy_url); ("remark", remark);
   ("expiry_time", expiry_time); ("plan_type", plan_type);
   ("plan_title", plan_title); ("subscription_end", subscription_end);
   ("image_enabled", image_enabled); ("video_enabled", video_enabled);
   ("image_concurrency", image_concurrency);
   ("video_concurrency", video_concurrency)].

Definition provided (fs : list (string * val)) : list (string * val) :=
  filter (λ cv, cv.2 ≠ VNull) fs.

(** * Sample states *)

Definition no_config : Config :=
  {| admin_config := None; proxy_config := None;
     watermark_free_config := None; cache_config := None;
     generation_config := None; token_refresh_config := None;
     call_logic_config := None; pow_proxy_config := None |}.

Definition empty_db : Db :=
  {| tokens := []; tokens_id_seq := 1; token_stats := [];
     token_stats_id_seq := 1; config := no_config; catalog := [] |}.

(** A connection at time 1000 of day 20 with the given fate of its
    statements. *)
Definition connect (d : Db) (fl : list bool) : Conn :=
  {| db := d; faults := fl; issued := 0; clock_now := 1000; clock_today := 20 |}.

Definition alice : Row :=
  {[ "token" := VText "sk-alice"; "email" := VText "alice@example.org";
     "username" := VText "alice"; "name" := VText "Alice";
     "is_active" := VBool true; "expiry_time" := VTime 5000 ]}.

(** A stats row last written on day 19, and the same row written on day
    20. *)
Definition stats_day19 : TokenStats :=
  {| stat_id := 1; token_id := 1; image_count := 40; video_count := 3;
     error_count := 5; last_error_at := None; today_image_count := 7;
     today_video_count := 2; today_error_count := 2; today_date := Some 19;
     consecutive_error_count := 1 |}.

Definition stats_day20 : TokenStats :=
  {| stat_id := 1; token_id := 1; image_count := 40; video_count := 3;
     error_count := 5; last_error_at := None; today_image_count := 7;
     today_video_count := 2; today_error_count := 2; today_date := Some 20;
     consecutive_error_count := 1 |}.

(** Four credentials: used at 900, never used, cooled down until 2000, and
    without an expiry time. *)
Definition used_token : Row :=
  {[ "id" := VInt 1; "is_active" := VBool true; "expiry_time" := VTime 5000;
     "cooled_until" := VTime 500; "last_used_at" := VTime 900 ]}.

Definition fresh_token : Row :=
  {[ "id" := VInt 2; "is_active" := VBool true; "expiry_time" := VTime 5000 ]}.

Definition cooling_token : Row :=
  {[ "id" := VInt 3; "is_active" := VBool true; "expiry_time" := VTime 5000;
     "cooled_until" := VTime 2000 ]}.

Definition unexpiring_token : Row :=
  {[ "id" := VInt 4; "is_active" := VBool true ]}.

Definition pool_db : Db :=
  set_tokens [used_token; fresh_token; cooling_token; unexpiring_token] 5
    empty_db.

(** A [setting.toml] of the time before [call_mode]: the [call_logic]
    section has the legacy boolean only. *)
Definition legacy_polling : ConfigDict :=
  {[ "call_logic" := {[ "polling_mode_enabled" := TBool true ]} ]}.

(** A database whose proxy tables hold their default rows. *)
Definition proxy_db : Db :=
  set_config
    (set_proxy_config
       (Some {| proxy_enabled := false; proxy_url := None;
                proxy_updated_at := 0 |})
       (set_watermark_free_config
          (Some {| watermark_free_enabled := false;
                   parse_method := "third_party"; custom_parse_url := None;
                   custom_parse_token := None; fallback_on_failure := true;
                   watermark_updated_at := 0 |})
          no_config))
    empty_db.

(** * The rest of the class *)

(** ** Credential lookups *)

(** [SELECT * FROM tokens WHERE column = $1]; [fetchrow] gives the first
    row.  [if row: return Token(...)] else [None]. *)
Definition tokens_where (column : string) (v : val) (d : Db) : option Row :=
  head (sql_where (λ r, sql_eq (col r column) v) (tokens d)).

Definition get_token (token_id : Z) : M (option Row) :=
  row ← fetch (λ _ d, tokens_where "id" (VInt token_id) d);
  mret row.

Definition get_token_by_value (token : string) : M (option Row) :=
  row ← fetch (λ _ d, tokens_where "token" (VText token) d);
  mret row.

Definition get_token_by_email (email : string) : M (option Row) :=
  row ← fetch (λ _ d, tokens_where "email" (VText email) d);
  mret row.

(** [ORDER BY created_at DESC]: PostgreSQL puts [NULL] first when the order
    is descending. *)
Definition created (r : Row) : option Z :=
  match col r "created_at" with
  | VTime t => Some t
  | _ => None
  end.

Definition created_desc (r1 r2 : Row) : Prop :=
  match created r1, created r2 with
  | None, _ => True
  | Some _, None => False
  | Some x, Some y => y ≤ x
  end.

Global Instance created_desc_dec r1 r2 : Decision (created_desc r1 r2).
Proof. unfold created_desc. destruct (created r1), (created r2); apply _. Defined.

Definition get_all_tokens : M (list Row) :=
  rows ← fetch (λ _ d, merge_sort created_desc (tokens d));
  mret rows.

(** ** Narrow credential writes *)

(** [column + 1] in SQL: [NULL + 1] is [NULL]. *)
Definition sql_succ (v : val) : val :=
  match v with
  | VInt n => VInt (n + 1)
  | _ => VNull
  end.

(** [UPDATE tokens SET last_used_at = CURRENT_TIMESTAMP,
    use_count = use_count + 1 WHERE id = $1] *)
Definition update_token_usage (token_id : Z) : M unit :=
  execute (λ now d,
    Ok (set_tokens
          ((λ r, if bool_decide (col r "id" = VInt token_id)
                 then <["use_count" := sql_succ (col r "use_count")]>
                        (<["last_used_at" := VTime now]> r)
                 else r) <$> tokens d)
          (tokens_id_seq d) d)).

Definition update_token_status (token_id : Z) (is_active : bool) : M unit :=
  execute (λ _ d, update_tokens [("is_active", VBool is_active)] token_id d).

Definition mark_token_expired (token_id : Z) : M unit :=
  execute (λ _ d,
    update_tokens [("is_expired", VBool true); ("is_active", VBool false)]
      token_id d).

Definition clear_token_expired (token_id : Z) : M unit :=
  execute (λ _ d, update_tokens [("is_expired", VBool false)] token_id d).

(** [invite_code] defaults to [None] and the three counts to [0]. *)
Definition update_token_sora2 (token_id : Z) (supported : bool)
    (invite_code : val) (redeemed_count total_count remaining_count : Z) : M unit :=
  execute (λ _ d,
    update_tokens
      [("sora2_supported", VBool supported);
       ("sora2_invite_code", invite_code);
       ("sora2_redeemed_count", VInt redeemed_count);
       ("sora2_total_count", VInt total_count);
       ("sora2_remaining_count", VInt remaining_count)] token_id d).

Definition update_token_sora2_remaining (token_id remaining_count : Z) : M unit :=
  execute (λ _ d,
    update_tokens [("sora2_remaining_count", VInt remaining_count)] token_id d).

Definition update_token_sora2_cooldown (token_id : Z) (cooldown_until : val) : M unit :=
  execute (λ _ d,
    update_tokens [("sora2_cooldown_until", cooldown_until)] token_id d).

Definition update_token_cooldown (token_id : Z) (cooled_until : val) : M unit :=
  execute (λ _ d, update_tokens [("cooled_until", cooled_until)] token_id d).

(** [UPDATE token_stats SET consecutive_error_count = 0 WHERE token_id = $1] *)
Definition reset_error_count (tid : Z) : M unit :=
  execute (λ _ d,
    Ok (update_stats tid
          (λ r, {| stat_id := stat_id r; token_id := token_id r;
                   image_count := image_count r;
                   video_count := video_count r;
                   error_count := error_count r;
                   last_error_at := last_error_at r;
                   today_image_count := today_image_count r;
                   today_video_count := today_video_count r;
                   today_error_count := today_error_count r;
                   today_date := today_date r;
                   consecutive_error_count := 0 |}) d)).

(** ** The other configuration methods *)

(** [update_admin_config(config)]: the seven fields of the object are
    written to the row with [id = 1]. *)
Definition update_admin_config (cfg : AdminConfig) : M unit :=
  execute (λ now d,
    a4 ← int4 (error_ban_threshold cfg);
    a6 ← int4 (task_max_retries cfg);
    Ok (set_config
          (set_admin_config
             (update_row
                (λ _, {| admin_username := admin_username cfg;
                         admin_password := admin_password cfg;
                         api_key := api_key cfg;
                         error_ban_threshold := a4;
                         task_retry_enabled := task_retry_enabled cfg;
                         task_max_retries := a6;
                         auto_disable_on_401 := auto_disable_on_401 cfg;
                         admin_updated_at := now |})
                (admin_config (config d)))
             (config d)) d)).

Definition update_generation_config (image video : option Z) : M unit :=
  row ← fetch (λ _ d, generation_config (config d));
  let '(new_image_timeout, new_video_timeout) :=
    match row with
    | Some current =>
        (default (image_timeout current) image,
         default (video_timeout current) video)
    | None => (default 300 image, default 3000 video)
    end in
  execute (λ now d,
    a1 ← int4 new_image_timeout;
    a2 ← int4 new_video_timeout;
    Ok (set_config
          (set_generation_config
             (update_row
                (λ _, {| image_timeout := a1; video_timeout := a2;
                         generation_updated_at := now |})
                (generation_config (config d)))
             (config d)) d)).

Definition update_token_refresh_config (enabled : bool) : M unit :=
  execute (λ now d,
    Ok (set_config
          (set_token_refresh_config
             (update_row
                (λ _, {| at_auto_refresh_enabled := enabled;
                         token_refresh_updated_at := now |})
                (token_refresh_config (config d)))
             (config d)) d)).

(** [get_call_logic_config]: the two fields of the answer.  A stored
    [call_mode] that is empty is derived from the boolean; without a row
    the answer is [("default", False)]. *)
Definition get_call_logic_config : M (string * bool) :=
  row ← fetch (λ _ d, call_logic_config (config d));
  match row with
  | Some r =>
      if String.eqb (call_mode r) ""
      then mret (if polling_mode_enabled r then "polling" else "default",
                 polling_mode_enabled r)
      else mret (call_mode r, polling_mode_enabled r)
  | None => mret ("default", false)
  end.

(** [get_pow_proxy_config]: the two fields of the answer. *)
Definition get_pow_proxy_config : M (bool * option string) :=
  row ← fetch (λ _ d, pow_proxy_config (config d));
  match row with
  | Some r => mret (pow_proxy_enabled r, pow_proxy_url r)
  | None => mret (false, None)
  end.

(** ** Table creation *)

(** [CREATE TABLE IF NOT EXISTS name (columns)] on the catalog. *)
Definition create_table_if_not_exists (name : string) (columns : list string)
    (d : Db) : Res Db :=
  if bool_decide (name ∈ (catalog d).*1) then Ok d
  else Ok {| tokens := tokens d; tokens_id_seq := tokens_id_seq d;
             token_stats := token_stats d;
             token_stats_id_seq := token_stats_id_seq d;
             config := config d;
             catalog := catalog d ++ [(name, columns)] |}.

(** [CREATE INDEX IF NOT EXISTS index ON table(column)]: needs the table and
    the column; the model keeps no indexes. *)
Definition create_index_if_not_exists (table column : string) (d : Db) : Res Db :=
  if bool_decide (Exists (λ t, t.1 = table ∧ column ∈ t.2) (catalog d))
  then Ok d else Raise UndefinedTableError.

(** The baseline column set of every [CREATE TABLE] of [init_db]. *)
Definition baseline_schema : list (string * list string) :=
  [("tokens",
    ["id"; "token"; "email"; "username"; "name"; "st"; "rt"; "client_id";
     "proxy_url"; "remark"; "expiry_time"; "is_active"; "cooled_until";
     "created_at"; "last_used_at"; "use_count"; "plan_type"; "plan_title";
     "subscription_end"; "sora2_supported"; "sora2_invite_code";
     "sora2_redeemed_count"; "sora2_total_count"; "sora2_remaining_count";
     "sora2_cooldown_until"; "image_enabled"; "video_enabled";
     "image_concurrency"; "video_concurrency"; "is_expired"]);
   ("token_stats",
    ["id"; "token_id"; "image_count"; "video_count"; "error_count";
     "last_error_at"; "today_image_count"; "today_video_count";
     "today_error_count"; "today_date"; "consecutive_error_count"]);
   ("tasks",
    ["id"; "task_id"; "token_id"; "model"; "prompt"; "status"; "progress";
     "result_urls"; "error_message"; "retry_count"; "created_at";
     "completed_at"]);
   ("request_logs",
    ["id"; "token_id"; "task_id"; "operation"; "request_body";
     "response_body"; "status_code"; "duration"; "created_at"; "updated_at"]);
   ("admin_config",
    ["id"; "admin_username"; "admin_password"; "api_key";
     "error_ban_threshold"; "task_retry_enabled"; "task_max_retries";
     "auto_disable_on_401"; "updated_at"]);
   ("proxy_config",
    ["id"; "proxy_enabled"; "proxy_url"; "created_at"; "updated_at"]);
   ("watermark_free_config",
    ["id"; "watermark_free_enabled"; "parse_method"; "custom_parse_url";
     "custom_parse_token"; "fallback_on_failure"; "created_at"; "updated_at"]);
   ("cache_config",
    ["id"; "cache_enabled"; "cache_timeout"; "cache_base_url"; "created_at";
     "updated_at"]);
   ("generation_config",
    ["id"; "image_timeout"; "video_timeout"; "created_at"; "updated_at"]);
   ("token_refresh_config",
    ["id"; "at_auto_refresh_enabled"; "created_at"; "updated_at"]);
   ("call_logic_config",
    ["id"; "call_mode"; "polling_mode_enabled"; "created_at"; "updated_at"]);
   ("pow_proxy_config",
    ["id"; "pow_proxy_enabled"; "pow_proxy_url"; "created_at"; "updated_at"])].

Definition init_db : M unit :=
  for_each baseline_schema (λ t,
    execute (λ _ d, create_table_if_not_exists t.1 t.2 d));;
  execute (λ _ d, create_index_if_not_exists "tasks" "task_id" d);;
  execute (λ _ d, create_index_if_not_exists "tasks" "status" d);;
  execute (λ _ d, create_index_if_not_exists "tokens" "is_active" d).

(** ** The connection pool

    [dials] is the fate of the [asyncpg.create_pool] calls still to come:
    the call that meets [true] raises; past the end of the list every call
    connects.  [dialed] counts the calls made, and the pool that the n-th
    call opens is the handle [n].  [slept] lists the [asyncio.sleep] delays
    in the order they were taken. *)

Record Database := {
  db_url : option string;
  _pool : option nat;
  dials : list bool;
  dialed : nat;
  slept : list Z
}.

Inductive pool_result :=
  | Returned (pool : option nat)
  | ConnectFailed.

Definition max_retries : nat := 5.
Definition retry_delay : Z := 2.

(** The body of [for attempt in range(max_retries)], from [attempt] on. *)
Fixpoint connect_loop (attempts : list nat) (self : Database)
    : pool_result * Database :=
  match attempts with
  | [] => (Returned (_pool self), self)
  | attempt :: rest =>
      match dials self with
      | true :: fate =>
          if bool_decide (attempt < max_retries - 1)%nat then
            connect_loop rest
              {| db_url := db_url self; _pool := _pool self; dials := fate;
                 dialed := S (dialed self);
                 slept := slept self ++ [retry_delay * 2 ^ Z.of_nat attempt] |}
          else
            (ConnectFailed,
             {| db_url := db_url self; _pool := _pool self; dials := fate;
                dialed := S (dialed self); slept := slept self |})
      | fate =>
          (Returned (Some (S (dialed self))),
           {| db_url := db_url self; _pool := Some (S (dialed self));
              dials := tail fate; dialed := S (dialed self);
              slept := slept self |})
      end
  end.

Definition get_pool (self : Database) : pool_result * Database :=
  match _pool self with
  | None => connect_loop (seq 0 max_retries) self
  | Some pool => (Returned (Some pool), self)
  end.

Definition close (self : Database) : Database :=
  {| db_url := db_url self; _pool := None; dials := dials self;
     dialed := dialed self; slept := slept self |}.

Definition db_exists (self : Database) : bool :=
  match db_url self with
  | Some url => bool_decide (0 < String.length url)%nat
  | None => false
  end.

(** ** Tasks and request logs

    The two tables that refer to [tokens] without being owned by it, kept
    beside the tables of [Db]. *)

(** A [FLOAT] is stored as it was passed; no method computes with it. *)
Inductive float := Float (mantissa exponent : Z).

Record Task := {
  task_row_id : Z;
  task_id : string;
  task_token_id : Z;
  task_model : string;
  prompt : string;
  status : string;
  progress : float;
  result_urls : option string;
  error_message : option string;
  retry_count : Z;
  task_created_at : Z;
  completed_at : option Z
}.

Record RequestLog := {
  log_row_id : Z;
  log_token_id : option Z;
  log_task_id : option string;
  operation : string;
  request_body : option string;
  response_body : option string;
  status_code : Z;
  duration : float;
  log_created_at : Z;
  log_updated_at : option Z
}.

Record Archive := {
  tasks : list Task;
  tasks_id_seq : Z;
  request_logs : list RequestLog;
  request_logs_id_seq : Z
}.

(** A connection together with the two tables; [client_now] is the
    client's [datetime.now()]. *)
Record Session := {
  conn : Conn;
  archive : Archive;
  client_now : Z
}.

Definition Sess (A : Type) : Type := Session → Res A * Session.

Global Instance Sess_ret : MRet Sess := λ A a s, (Ok a, s).

Global Instance Sess_bind : MBind Sess := λ A B f m s,
  match m s with
  | (Ok a, s') => f a s'
  | (Raise e, s') => (Raise e, s')
  end.

(** One statement over all the tables. *)
Definition statement_all {A} (f : Z → Db → Archive → Res (A * Db * Archive))
    : Sess A := λ s,
  let c := conn s in
  let after d a :=
    {| conn := sent c d; archive := a; client_now := client_now s |} in
  match faults c with
  | true :: _ => (Raise PostgresError, after (db c) (archive s))
  | _ =>
      match f (clock_now c) (db c) (archive s) with
      | Ok (x, d, a) => (Ok x, after d a)
      | Raise e => (Raise e, after (db c) (archive s))
      end
  end.

Definition fetch_all {A} (q : Z → Db → Archive → A) : Sess A :=
  statement_all (λ now d a, Ok (q now d a, d, a)).

Definition execute_all (u : Z → Db → Archive → Res (Db * Archive)) : Sess unit :=
  statement_all (λ now d a,
    match u now d a with
    | Ok (d', a') => Ok (tt, d', a')
    | Raise e => Raise e
    end).

(** A method of the first part, run on the connection of the session. *)
Definition on_conn {A} (m : M A) : Sess A := λ s,
  match m (conn s) with
  | (r, c') =>
      (r, {| conn := c'; archive := archive s; client_now := client_now s |})
  end.

Definition set_tasks (rows : list Task) (seq : Z) (a : Archive) : Archive :=
  {| tasks := rows; tasks_id_seq := seq;
     request_logs := request_logs a;
     request_logs_id_seq := request_logs_id_seq a |}.

Definition set_request_logs (rows : list RequestLog) (seq : Z) (a : Archive)
    : Archive :=
  {| tasks := tasks a; tasks_id_seq := tasks_id_seq a;
     request_logs := rows; request_logs_id_seq := seq |}.

(** [FOREIGN KEY (token_id) REFERENCES tokens(id)] *)
Definition token_exists (id : Z) (d : Db) : Prop :=
  Exists (λ r, col r "id" = VInt id) (tokens d).

(** [INSERT INTO tasks (task_id, token_id, model, prompt, status, progress)
    VALUES (...) RETURNING id], under [task_id TEXT UNIQUE NOT NULL]. *)
Definition create_task (task : Task) : Sess Z :=
  task_db_id ← statement_all (λ now d a,
    if bool_decide (Exists (λ t, task_id t = task_id task) (tasks a)) then
      Raise UniqueViolationError
    else if bool_decide (token_exists (task_token_id task) d) then
      let id := tasks_id_seq a in
      Ok (id, d,
          set_tasks
            (tasks a ++
             [{| task_row_id := id; task_id := task_id task;
                 task_token_id := task_token_id task;
                 task_model := task_model task; prompt := prompt task;
                 status := status task; progress := progress task;
                 result_urls := None; error_message := None;
                 retry_count := 0; task_created_at := now;
                 completed_at := None |}])
            (id + 1) a)
    else Raise ForeignKeyViolationError);
  mret task_db_id.

(** [datetime.now()] *)
Definition datetime_now : Sess Z := λ s, (Ok (client_now s), s).

(** [UPDATE tasks SET status = $1, progress = $2, result_urls = $3,
    error_message = $4, completed_at = $5 WHERE task_id = $6] *)
Definition update_task (id : string) (new_status : string)
    (new_progress : float) (urls message : option string) : Sess unit :=
  now ← datetime_now;
  let completed :=
    if bool_decide (new_status ∈ ["completed"; "failed"]) then Some now
    else None in
  execute_all (λ _ d a,
    Ok (d,
        set_tasks
          ((λ t, if bool_decide (task_id t = id) then
                   {| task_row_id := task_row_id t; task_id := task_id t;
                      task_token_id := task_token_id t;
                      task_model := task_model t; prompt := prompt t;
                      status := new_status; progress := new_progress;
                      result_urls := urls; error_message := message;
                      retry_count := retry_count t;
                      task_created_at := task_created_at t;
                      completed_at := completed |}
                 else t) <$> tasks a)
          (tasks_id_seq a) a)).

Definition get_task (id : string) : Sess (option Task) :=
  row ← fetch_all (λ _ _ a, head (filter (λ t, task_id t = id) (tasks a)));
  mret row.

(** [token_id INTEGER] of [request_logs] may be [NULL]; when it is not, it
    must name a credential. *)
Definition log_token_ok (id : option Z) (d : Db) : bool :=
  match id with
  | Some id => bool_decide (token_exists id d)
  | None => true
  end.

(** [INSERT INTO request_logs (token_id, task_id, operation, request_body,
    response_body, status_code, duration) VALUES (...) RETURNING id] *)
Definition log_request (log : RequestLog) : Sess Z :=
  log_id ← statement_all (λ now d a,
    if log_token_ok (log_token_id log) d then
      let id := request_logs_id_seq a in
      Ok (id, d,
          set_request_logs
            (request_logs a ++
             [{| log_row_id := id; log_token_id := log_token_id log;
                 log_task_id := log_task_id log;
                 operation := operation log;
                 request_body := request_body log;
                 response_body := response_body log;
                 status_code := status_code log; duration := duration log;
                 log_created_at := now; log_updated_at := None |}])
            (id + 1) a)
    else Raise ForeignKeyViolationError);
  mret log_id.



(** [UPDATE request_logs SET task_id = $1, updated_at = CURRENT_TIMESTAMP
    WHERE id = $2] *)
Definition update_request_log_task_id (log_id : Z) (id : string) : Sess unit :=
  execute_all (λ now d a,
    Ok (d,
        set_request_logs
          ((λ l, if bool_decide (log_row_id l = log_id) then
                   {| log_row_id := log_row_id l;
                      log_token_id := log_token_id l;
                      log_task_id := Some id; operation := operation l;
                      request_body := request_body l;
                      response_body := response_body l;
                      status_code := status_code l; duration := duration l;
                      log_created_at := log_created_at l;
                      log_updated_at := Some now |}
                 else l) <$> request_logs a)
          (request_logs_id_seq a) a)).


(** [ORDER BY rl.created_at DESC] *)
Definition newer_first (x y : RequestLog * val * val) : Prop :=
  log_created_at y.1.1 ≤ log_created_at x.1.1.

Global Instance newer_first_dec x y : Decision (newer_first x y).
Proof. unfold newer_first. apply _. Defined.


(** [DELETE FROM request_logs] *)
Definition clear_all_logs : Sess unit :=
  execute_all (λ _ d a, Ok (d, set_request_logs [] (request_logs_id_seq a) a)).

(** A credential row is referenced from [token_stats], [tasks] or
    [request_logs]. *)
Definition referenced (id : Z) (d : Db) (a : Archive) : Prop :=
  Exists (λ r, token_id r = id) (token_stats d) ∨
  Exists (λ t, task_token_id t = id) (tasks a) ∨
  Exists (λ l, log_token_id l = Some id) (request_logs a).

(** [DELETE FROM token_stats WHERE token_id = $1] and then
    [DELETE FROM tokens WHERE id = $1]; the second is refused when a row it
    would delete is still referenced. *)
Definition delete_token (id : Z) : Sess unit :=
  execute_all (λ _ d a,
    Ok (set_token_stats
          (filter (λ r, token_id r ≠ id) (token_stats d))
          (token_stats_id_seq d) d, a));;
  execute_all (λ _ d a,
    if bool_decide (token_exists id d ∧ referenced id d a) then
      Raise ForeignKeyViolationError
    else
      Ok (set_tokens
            (filter (λ r, col r "id" ≠ VInt id) (tokens d))
            (tokens_id_seq d) d, a)).

(** ** Vocabulary for the configuration tables *)

(** A singleton table keeps the row it has. *)
Definition kept {A} (before after : option A) : Prop :=
  ∀ r, before = Some r → after = Some r.

Definition config_kept (cf cf' : Config) : Prop :=
  kept (admin_config cf) (admin_config cf') ∧
  kept (proxy_config cf) (proxy_config cf') ∧
  kept (watermark_free_config cf) (watermark_free_config cf') ∧
  kept (cache_config cf) (cache_config cf') ∧
  kept (generation_config cf) (generation_config cf') ∧
  kept (token_refresh_config cf) (token_refresh_config cf') ∧
  kept (call_logic_config cf) (call_logic_config cf') ∧
  kept (pow_proxy_config cf) (pow_proxy_config cf').

(** Every singleton table has its row. *)
Definition config_complete (cf : Config) : Prop :=
  is_Some (admin_config cf) ∧ is_Some (proxy_config cf) ∧
  is_Some (watermark_free_config cf) ∧ is_Some (cache_config cf) ∧
  is_Some (generation_config cf) ∧ is_Some (token_refresh_config cf) ∧
  is_Some (call_logic_config cf) ∧ is_Some (pow_proxy_config cf).

(** The rows that the bootstrap writes at time [now] when it has no
    overrides. *)
Definition hard_defaults (now : Z) : Config :=
  {| admin_config :=
       Some {| admin_username := "admin"; admin_password := "admin";
               api_key := "han1234"; error_ban_threshold := 3;
               task_retry_enabled := true; task_max_retries := 3;
               auto_disable_on_401 := true; admin_updated_at := now |};
     proxy_config :=
       Some {| proxy_enabled := false; proxy_url := None;
               proxy_updated_at := now |};
     watermark_free_config :=
       Some {| watermark_free_enabled := false;
               parse_method := "third_party"; custom_parse_url := None;
               custom_parse_token := None; fallback_on_failure := true;
               watermark_updated_at := now |};
     cache_config :=
       Some {| cache_enabled := false; cache_timeout := 600;
               cache_base_url := None; cache_updated_at := now |};
     generation_config :=
       Some {| image_timeout := 300; video_timeout := 3000;
               generation_updated_at := now |};
     token_refresh_config :=
       Some {| at_auto_refresh_enabled := false;
               token_refresh_updated_at := now |};
     call_logic_config :=
       Some {| call_mode := "default"; polling_mode_enabled := false;
               call_logic_updated_at := now |};
     pow_proxy_config :=
       Some {| pow_proxy_enabled := false; pow_proxy_url := None;
               pow_proxy_updated_at := now |} |}.

(** Table by table: the row that is there, else the one of [fill]. *)
Definition fill_missing (cf fill : Config) : Config :=
  {| admin_config := from_option Some (admin_config fill) (admin_config cf);
     proxy_config := from_option Some (proxy_config fill) (proxy_config cf);
     watermark_free_config :=
       from_option Some (watermark_free_config fill) (watermark_free_config cf);
     cache_config := from_option Some (cache_config fill) (cache_config cf);
     generation_config :=
       from_option Some (generation_config fill) (generation_config cf);
     token_refresh_config :=
       from_option Some (token_refresh_config fill) (token_refresh_config cf);
     call_logic_config :=
       from_option Some (call_logic_config fill) (call_logic_config cf);
     pow_proxy_config :=
       from_option Some (pow_proxy_config fill) (pow_proxy_config cf) |}.

(** The credential tables and the catalog are as they were, and no
    configuration row that was there has changed. *)
Definition rows_kept (d d' : Db) : Prop :=
  tokens d' = tokens d ∧ token_stats d' = token_stats d ∧
  catalog d' = catalog d ∧ tokens_id_seq d' = tokens_id_seq d ∧
  token_stats_id_seq d' = token_stats_id_seq d ∧
  config_kept (config d) (config d').

(** ** Vocabulary for the schema *)

(** [table] has [column] in the catalog. *)
Definition has_column (table column : string) (d : Db) : Prop :=
  Exists (λ t, t.1 = table ∧ column ∈ t.2) (catalog d).

(** If [table] exists it has every column of [columns]. *)
Definition columns_present (table : string) (columns : list (string * string))
    (d : Db) : Prop :=
  table ∈ (catalog d).*1 → Forall (λ column, has_column table column.1 d) columns.

(** The same tables in the same order, each with its columns and possibly
    more after them. *)
Definition catalog_extended (before after : list (string * list string)) : Prop :=
  Forall2 (λ t t', t'.1 = t.1 ∧ t.2 `prefix_of` t'.2) before after.

(** No row of the credential tables has changed, no configuration row that
    was there has changed, and the catalog has only gained columns. *)
Definition additive (d d' : Db) : Prop :=
  tokens d' = tokens d ∧ token_stats d' = token_stats d ∧
  tokens_id_seq d' = tokens_id_seq d ∧
  token_stats_id_seq d' = token_stats_id_seq d ∧
  config_kept (config d) (config d') ∧
  catalog_extended (catalog d) (catalog d').

(** [m] leaves a connection whose statements are all served in that state. *)
Definition keeps_healthy {A} (m : M A) : Prop :=
  ∀ c, faults c = [] → faults (m c).2 = [].

(** A connection whose remaining statements are all served. *)
Ltac healthy c H :=
  destruct c as [d fl n now today]; simpl in H; subst fl.

(** * Properties *)

(** ** Usage counters *)

Lemma stats_where_update_stats tid (set : TokenStats → TokenStats) d r :
  (∀ r, token_id (set r) = token_id r) →
  stats_where tid d = Some r →
  stats_where tid (update_stats tid set d) = Some (set r).
Proof.
  intros set_token_id. unfold stats_where, update_stats; simpl.
  induction (token_stats d) as [|x l IH]; simpl; [done|].
  rewrite !filter_cons. destruct (decide (token_id x = tid)) as [Hx|Hx].
  - rewrite bool_decide_eq_true_2 by done.
    rewrite decide_True by (by rewrite set_token_id).
    simpl. congruence.
  - rewrite bool_decide_eq_false_2 by done.
    rewrite decide_False by done. exact IH.
Qed.

(** C1. On a connection that serves its statements, for the stats row [r] of
    a credential, [increment_image_count] and [increment_video_count] add
    exactly 1 to the lifetime counter of their media type, leave [today_date]
    at today, and set the "today" counter to 1 when the stored [today_date]
    was not today, to its old value plus 1 when it was; the counters of the
    other media type and of errors are not touched. *)
Theorem increment_media_count_rollover (c : Conn) (tid : Z) (r : TokenStats) :
  faults c = [] →
  stats_where tid (db c) = Some r →
  (∃ c' r',
      increment_image_count tid c = (Ok tt, c') ∧
      stats_where tid (db c') = Some r' ∧
      image_count r' = image_count r + 1 ∧
      today_date r' = Some (clock_today c) ∧
      today_image_count r' =
        (if decide (today_date r = Some (clock_today c))
         then today_image_count r + 1 else 1) ∧
      video_count r' = video_count r ∧
      today_video_count r' = today_video_count r ∧
      error_count r' = error_count r ∧
      today_error_count r' = today_error_count r ∧
      consecutive_error_count r' = consecutive_error_count r) ∧
  (∃ c' r',
      increment_video_count tid c = (Ok tt, c') ∧
      stats_where tid (db c') = Some r' ∧
      video_count r' = video_count r + 1 ∧
      today_date r' = Some (clock_today c) ∧
      today_video_count r' =
        (if decide (today_date r = Some (clock_today c))
         then today_video_count r + 1 else 1) ∧
      image_count r' = image_count r ∧
      today_image_count r' = today_image_count r ∧
      error_count r' = error_count r ∧
      today_error_count r' = today_error_count r ∧
      consecutive_error_count r' = consecutive_error_count r).
Proof.
  intros Hf Hr. healthy c Hf. simpl in Hr. split.
  - unfold increment_image_count, mbind, M_bind, fetch, execute, statement,
      date_today, stale; simpl. rewrite Hr; simpl.
    case_bool_decide as Hd; simpl.
    + eexists _, _. split; [reflexivity|]. simpl.
      split; [by apply stats_where_update_stats|].
      simpl. rewrite decide_True by done. done.
    + eexists _, _. split; [reflexivity|]. simpl.
      split; [by apply stats_where_update_stats|].
      simpl. rewrite decide_False by done. done.
  - unfold increment_video_count, mbind, M_bind, fetch, execute, statement,
      date_today, stale; simpl. rewrite Hr; simpl.
    case_bool_decide as Hd; simpl.
    + eexists _, _. split; [reflexivity|]. simpl.
      split; [by apply stats_where_update_stats|].
      simpl. rewrite decide_True by done. done.
    + eexists _, _. split; [reflexivity|]. simpl.
      split; [by apply stats_where_update_stats|].
      simpl. rewrite decide_False by done. done.
Qed.

(** C2. On a connection that serves its statements, for the stats row [r] of
    a credential and either value of [increment_consecutive],
    [increment_error_count] adds exactly 1 to [error_count], applies the
    day-rollover rule to [today_error_count], adds 1 to
    [consecutive_error_count] exactly when [increment_consecutive] is true,
    sets [last_error_at] to the current time, and leaves the media counters
    alone. *)
Theorem increment_error_count_rollover (c : Conn) (tid : Z) (r : TokenStats)
    (increment_consecutive : bool) :
  faults c = [] →
  stats_where tid (db c) = Some r →
  ∃ c' r',
    increment_error_count tid increment_consecutive c = (Ok tt, c') ∧
    stats_where tid (db c') = Some r' ∧
    error_count r' = error_count r + 1 ∧
    today_date r' = Some (clock_today c) ∧
    today_error_count r' =
      (if decide (today_date r = Some (clock_today c))
       then today_error_count r + 1 else 1) ∧
    consecutive_error_count r' =
      (if increment_consecutive then consecutive_error_count r + 1
       else consecutive_error_count r) ∧
    last_error_at r' = Some (clock_now c) ∧
    image_count r' = image_count r ∧
    today_image_count r' = today_image_count r ∧
    video_count r' = video_count r ∧
    today_video_count r' = today_video_count r.
Proof.
  intros Hf Hr. healthy c Hf. simpl in Hr.
  unfold increment_error_count, mbind, M_bind, fetch, execute, statement,
    date_today, stale; simpl. rewrite Hr; simpl.
  case_bool_decide as Hd; destruct increment_consecutive; simpl;
    (eexists _, _; split; [reflexivity|]; simpl;
     split; [by apply stats_where_update_stats|]; simpl;
     first [rewrite decide_True by done | rewrite decide_False by done];
     done).
Qed.

(** ** Active credentials *)

Lemma active_where_usable now r : active_where now r = Some true ↔ usable now r.
Proof.
  unfold active_where, usable, sql_gt, sql_is_null.
  generalize (col r "is_active") (col r "cooled_until") (col r "expiry_time").
  intros a cu e.
  destruct a as [|[]| | |], cu, e; simpl;
    repeat case_bool_decide; simpl;
    intuition (try discriminate; try congruence; try lia).
Qed.

Global Instance nulls_first_total : Total nulls_first.
Proof. intros [x|] [y|]; simpl; auto. lia. Qed.

Global Instance nulls_first_trans : Transitive nulls_first.
Proof. intros [x|] [y|] [z|]; simpl; auto; try done. lia. Qed.

Global Instance last_used_asc_total : Total last_used_asc.
Proof. intros r1 r2. apply nulls_first_total. Qed.

Global Instance last_used_asc_trans : Transitive last_used_asc.
Proof. intros r1 r2 r3. apply nulls_first_trans. Qed.

Lemma get_active_tokens_run c :
  faults c = [] →
  get_active_tokens c =
    (Ok (merge_sort last_used_asc
           (sql_where (active_where (clock_now c)) (tokens (db c)))),
     sent c (db c)).
Proof. intros Hf. healthy c Hf. reflexivity. Qed.

(** C5. On a connection that serves its statement, [get_active_tokens]
    returns the stored credentials that are usable at the server's clock, each
    as often as it is stored and no other, in ascending order of the column
    [last_used_at] with the never used ones first: of two credentials that
    both carry a time the earlier one comes first, and a credential whose
    [last_used_at] is [NULL] is never preceded by one that carries a time.
    The tables are not changed. *)
Theorem get_active_tokens_usable_sorted (c : Conn) :
  faults c = [] →
  ∃ l c',
    get_active_tokens c = (Ok l, c') ∧
    db c' = db c ∧
    l ≡ₚ filter (usable (clock_now c)) (tokens (db c)) ∧
    (∀ r, r ∈ l ↔ r ∈ tokens (db c) ∧ usable (clock_now c) r) ∧
    (∀ i j r1 r2,
        l !! i = Some r1 → l !! j = Some r2 → (i < j)%nat →
        (∀ t1 t2,
           col r1 "last_used_at" = VTime t1 →
           col r2 "last_used_at" = VTime t2 → t1 ≤ t2) ∧
        (col r2 "last_used_at" = VNull →
         ∀ t1, col r1 "last_used_at" ≠ VTime t1)).
Proof.
  intros Hf. rewrite get_active_tokens_run by done.
  eexists _, _. split; [reflexivity|]. split; [done|].
  assert (Hfilter : sql_where (active_where (clock_now c)) (tokens (db c))
                    = filter (usable (clock_now c)) (tokens (db c))).
  { apply list_filter_iff. intros r. apply active_where_usable. }
  rewrite Hfilter.
  set (l := merge_sort _ _).
  assert (Hperm : l ≡ₚ filter (usable (clock_now c)) (tokens (db c)))
    by apply merge_sort_Permutation.
  assert (Hsorted : StronglySorted last_used_asc l)
    by apply (StronglySorted_merge_sort _).
  split; [done|]. split.
  - intros r. rewrite Hperm, list_elem_of_filter. tauto.
  - intros i j r1 r2 Hi Hj Hij.
    assert (Hle : last_used_asc r1 r2).
    { clear Hperm. revert i j Hi Hj Hij.
      induction Hsorted as [|x l' _ IH Hall]; intros i j Hi Hj Hij; [done|].
      destruct i as [|i], j as [|j]; simpl in *; try lia.
      - injection Hi as ->. rewrite Forall_forall in Hall.
        apply Hall. by eapply list_elem_of_lookup_2.
      - eapply (IH i j); eauto. lia. }
    unfold last_used_asc, last_used in Hle. split.
    + intros t1 t2 H1 H2. by rewrite H1, H2 in Hle.
    + intros H2 t1 H1. by rewrite H1, H2 in Hle.
Qed.

Lemma get_active_tokens_Ok c l c' :
  get_active_tokens c = (Ok l, c') →
  l = merge_sort last_used_asc
        (sql_where (active_where (clock_now c)) (tokens (db c))).
Proof.
  unfold get_active_tokens, mbind, M_bind, fetch, statement, mret, M_ret.
  destruct (faults c) as [|[] ?]; simpl; congruence.
Qed.

(** C9. Whatever [get_active_tokens] returns, a credential whose
    [expiry_time] is [NULL] is not in it, active and free of cooldown or
    not. *)
Theorem get_active_tokens_null_expiry (c c' : Conn) (l : list Row) (r : Row) :
  get_active_tokens c = (Ok l, c') →
  col r "expiry_time" = VNull →
  r ∉ l.
Proof.
  intros Hrun Hnull Hin. apply get_active_tokens_Ok in Hrun. subst l.
  rewrite merge_sort_Permutation in Hin.
  apply list_elem_of_filter in Hin as [Hcond _].
  apply active_where_usable in Hcond as (_ & _ & Hfut).
  rewrite Hnull in Hfut. exact Hfut.
Qed.

(** ** Adding a credential *)

Lemma statement_bind {A B} (f : Z → Db → Res (A * Db)) (k : A → M B) c :
  (statement f ≫= k) c =
    match faults c with
    | true :: _ => (Raise PostgresError, sent c (db c))
    | _ =>
        match f (clock_now c) (db c) with
        | Ok (a, d) => k a (sent c d)
        | Raise e => (Raise e, sent c (db c))
        end
    end.
Proof.
  unfold mbind, M_bind, statement.
  destruct (faults c) as [|[] ?]; try reflexivity;
    destruct (f (clock_now c) (db c)) as [[a d]|e]; reflexivity.
Qed.

Lemma execute_bind {B} (u : Z → Db → Res Db) (k : unit → M B) c :
  (execute u ≫= k) c =
    match faults c with
    | true :: _ => (Raise PostgresError, sent c (db c))
    | _ =>
        match u (clock_now c) (db c) with
        | Ok d => k tt (sent c d)
        | Raise e => (Raise e, sent c (db c))
        end
    end.
Proof.
  unfold execute. rewrite statement_bind.
  destruct (faults c) as [|[] ?]; try reflexivity;
    destruct (u (clock_now c) (db c)); reflexivity.
Qed.

Lemma add_token_unfold token c :
  add_token token c =
    match faults c with
    | true :: _ => (Raise PostgresError, sent c (db c))
    | _ =>
        match insert_tokens add_token_columns (add_token_values token)
                (clock_now c) (db c) with
        | Raise e => (Raise e, sent c (db c))
        | Ok (i, d1) =>
            match tail (faults c) with
            | true :: _ => (Raise PostgresError, sent (sent c d1) d1)
            | _ =>
                match insert_token_stats i d1 with
                | Ok d2 => (Ok i, sent (sent c d1) d2)
                | Raise e => (Raise e, sent (sent c d1) d1)
                end
            end
        end
    end.
Proof.
  destruct c as [d fl n now today].
  unfold add_token. rewrite statement_bind. cbn [faults db clock_now tail].
  destruct fl as [|[] fl]; try reflexivity;
    destruct (insert_tokens _ _ _ _) as [[i d1]|e]; try reflexivity;
    rewrite execute_bind; cbn [sent faults db clock_now tail];
    try (destruct fl as [|[] ?]); try reflexivity;
    destruct (insert_token_stats i d1); reflexivity.
Qed.

Lemma add_token_row token i now :
  let r : Row :=
    list_to_map (zip add_token_columns (add_token_values token))
      ∪ tokens_defaults i now in
  col r "id" = VInt i ∧ col r "username" = VText "" ∧
  col r "token" = col token "token" ∧ col r "email" = col token "email" ∧
  col r "name" = col token "name".
Proof.
  unfold add_token_values.
  repeat match goal with
         | |- context [col token ?k] => generalize (col token k); intro
         end.
  vm_compute. done.
Qed.

Lemma insert_tokens_add_token token now d :
  insert_tokens add_token_columns (add_token_values token) now d =
    let i := tokens_id_seq d in
    let r : Row :=
      list_to_map (zip add_token_columns (add_token_values token))
        ∪ tokens_defaults i now in
    if bool_decide (col token "token" = VNull ∨ col token "email" = VNull ∨
                    col token "name" = VNull)
    then Raise NotNullViolationError
    else if token_taken (col token "token") (tokens d)
    then Raise UniqueViolationError
    else Ok (i, set_tokens (tokens d ++ [r]) (i + 1) d).
Proof.
  unfold insert_tokens. cbv zeta.
  destruct (add_token_row token (tokens_id_seq d) now)
    as (Hid & Hu & Ht & He & Hn).
  set (r := _ ∪ _) in *. clearbody r. rewrite Ht.
  assert (Hiff : Exists (λ c, col r c = VNull) tokens_not_null ↔
                 col token "token" = VNull ∨ col token "email" = VNull ∨
                 col token "name" = VNull).
  { unfold tokens_not_null.
    rewrite !Exists_cons, Exists_nil, Ht, He, Hu, Hn. intuition discriminate. }
  by rewrite (bool_decide_ext _ _ Hiff).
Qed.

Lemma insert_token_stats_new rows seq d r i :
  col r "id" = VInt i →
  insert_token_stats i (set_tokens (rows ++ [r]) seq d) =
    Ok (set_token_stats
          (token_stats d ++ [zero_stats (token_stats_id_seq d) i])
          (token_stats_id_seq d + 1)
          (set_tokens (rows ++ [r]) seq d)).
Proof.
  intros Hid. unfold insert_token_stats.
  rewrite bool_decide_eq_true_2; [done|].
  cbn [tokens set_tokens]. apply Exists_app. right. by constructor.
Qed.

(** C4, as the code has it.  [add_token] sends the credential insert and the
    stats insert as two statements of their own.  When both are served and
    the credential is accepted, the generated id is returned and the
    credential row and a zero-valued stats row for that id have been
    appended.  Whenever an id is returned, both rows are there.  When the
    call fails at its first statement nothing is stored; when it fails at
    its second statement, the credential row of the first stays stored and
    no stats row is added for it. *)
Theorem add_token_two_statements (token : Row) (c : Conn) :
  (faults c = [] →
   col token "token" ≠ VNull → col token "email" ≠ VNull →
   col token "name" ≠ VNull →
   ¬ Exists (λ r, col r "token" = col token "token") (tokens (db c)) →
   ∃ c', add_token token c = (Ok (tokens_id_seq (db c)), c')) ∧
  (∀ i c',
     add_token token c = (Ok i, c') →
     i = tokens_id_seq (db c) ∧
     (∃ r, tokens (db c') = tokens (db c) ++ [r] ∧ col r "id" = VInt i) ∧
     token_stats (db c') =
       token_stats (db c) ++ [zero_stats (token_stats_id_seq (db c)) i]) ∧
  (∀ e c',
     add_token token c = (Raise e, c') →
     token_stats (db c') = token_stats (db c) ∧
     ((issued c' = S (issued c) ∧ db c' = db c) ∨
      (issued c' = S (S (issued c)) ∧ e = PostgresError ∧
       ∃ r, tokens (db c') = tokens (db c) ++ [r] ∧
            col r "id" = VInt (tokens_id_seq (db c))))).
Proof.
  rewrite add_token_unfold, insert_tokens_add_token. cbv zeta.
  destruct (add_token_row token (tokens_id_seq (db c)) (clock_now c))
    as (Hid & _).
  set (r := _ ∪ _) in *. clearbody r.
  pose proof (λ rows seq d, insert_token_stats_new rows seq d _ _ Hid) as Hfk.
  destruct c as [d fl n now today]; cbn [db faults issued clock_now] in *.
  split; [|split].
  - intros -> Hn1 Hn2 Hn3 Hfree.
    rewrite bool_decide_eq_false_2 by tauto.
    unfold token_taken. rewrite bool_decide_eq_false_2 by done.
    cbn [tail]. rewrite Hfk. eauto.
  - intros i c' Hrun.
    destruct fl as [|[] fl]; try discriminate;
      case_bool_decide; try discriminate;
      destruct (token_taken _ _); try discriminate;
      cbn [tail] in Hrun;
      try (destruct fl as [|[] ?]; try discriminate);
      rewrite Hfk in Hrun; injection Hrun as <- <-; cbn; eauto.
  - intros e c' Hrun.
    destruct fl as [|[] fl];
      try (injection Hrun as <- <-; cbn; by auto);
      case_bool_decide; try (injection Hrun as <- <-; cbn; by auto);
      destruct (token_taken _ _); try (injection Hrun as <- <-; cbn; by auto);
      cbn [tail] in Hrun;
      try (destruct fl as [|[] ?]); rewrite ?Hfk in Hrun; try discriminate;
      injection Hrun as <- <-; cbn; split; [done|]; right; eauto.
Qed.

(** C4, as the claim states it, fails: on an empty database, when the
    credential insert is served and the stats insert is not, [add_token]
    raises and the credential row is stored with no stats row. *)
Lemma add_token_not_all_or_nothing : ¬ add_token_all_or_nothing.
Proof.
  intros Hatomic.
  specialize (Hatomic alice (connect empty_db [false; true]) PostgresError
                (add_token alice (connect empty_db [false; true])).2).
  assert (Hrun : add_token alice (connect empty_db [false; true]) =
                 (Raise PostgresError,
                  (add_token alice (connect empty_db [false; true])).2))
    by (vm_compute; reflexivity).
  specialize (Hatomic Hrun). apply (f_equal length) in Hatomic.
  vm_compute in Hatomic. discriminate Hatomic.
Qed.

Lemma add_token_two_statements_witness :
  ∃ c', add_token alice (connect empty_db []) = (Ok 1, c').
Proof.
  apply (add_token_two_statements alice (connect empty_db [])).
  - reflexivity.
  - vm_compute. discriminate.
  - vm_compute. discriminate.
  - vm_compute. discriminate.
  - intros H. inversion H.
Defined.

(** C10. Whenever [add_token] returns an id, the row stored under that id
    has the empty string in [username]; and a username carried by the
    credential object has no effect on the call at all. *)
Theorem add_token_username_empty (token : Row) (c c' : Conn) (i : Z) :
  add_token token c = (Ok i, c') →
  (∃ r, tokens (db c') = tokens (db c) ++ [r] ∧
        col r "id" = VInt i ∧ col r "username" = VText "") ∧
  (∀ u, add_token (<["username" := u]> token) c = (Ok i, c')).
Proof.
  intros Hrun. split.
  - rewrite add_token_unfold, insert_tokens_add_token in Hrun. cbv zeta in Hrun.
    destruct (add_token_row token (tokens_id_seq (db c)) (clock_now c))
      as (Hid & Hu & _).
    set (r := _ ∪ _) in *. clearbody r.
    pose proof (λ rows seq d, insert_token_stats_new rows seq d _ _ Hid) as Hfk.
    destruct c as [d fl n now today]; cbn [db faults issued clock_now] in *.
    destruct fl as [|[] fl]; try discriminate;
      case_bool_decide; try discriminate;
      destruct (token_taken _ _); try discriminate;
      cbn [tail] in Hrun;
      try (destruct fl as [|[] ?]; try discriminate);
      rewrite Hfk in Hrun; injection Hrun as <- <-; cbn; eauto.
  - intros u. rewrite <- Hrun. unfold add_token.
    assert (Hvals : add_token_values (<["username" := u]> token)
                    = add_token_values token).
    { unfold add_token_values, col.
      by rewrite !lookup_insert_ne by done. }
    by rewrite Hvals.
Qed.

Lemma add_token_username_empty_witness :
  col alice "username" = VText "alice" ∧
  ∃ r, tokens (db (add_token alice (connect empty_db [])).2) = [] ++ [r] ∧
       col r "id" = VInt 1 ∧ col r "username" = VText "".
Proof.
  split; [by vm_compute|].
  apply (add_token_username_empty alice (connect empty_db []) _ 1).
  vm_compute. reflexivity.
Defined.

(** ** Sample runs *)

Lemma increment_media_count_rollover_witness :
  ∃ c' r',
    increment_image_count 1
      (connect (set_token_stats [stats_day19] 2 empty_db) []) = (Ok tt, c') ∧
    stats_where 1 (db c') = Some r' ∧
    image_count r' = 41 ∧ today_date r' = Some 20 ∧ today_image_count r' = 1.
Proof.
  destruct (increment_media_count_rollover
              (connect (set_token_stats [stats_day19] 2 empty_db) []) 1
              stats_day19 eq_refl eq_refl)
    as [(c' & r' & Hrun & Hr & Hn & Hd & Ht & _) _].
  exists c', r'. repeat split; assumption.
Defined.

Lemma increment_error_count_rollover_witness :
  ∃ c' r',
    increment_error_count 1 true
      (connect (set_token_stats [stats_day20] 2 empty_db) []) = (Ok tt, c') ∧
    stats_where 1 (db c') = Some r' ∧
    error_count r' = 6 ∧ today_error_count r' = 3 ∧
    consecutive_error_count r' = 2 ∧ last_error_at r' = Some 1000.
Proof.
  destruct (increment_error_count_rollover
              (connect (set_token_stats [stats_day20] 2 empty_db) []) 1
              stats_day20 true eq_refl eq_refl)
    as (c' & r' & Hrun & Hr & Hn & Hd & Ht & Hc & Hl & _).
  exists c', r'. repeat split; assumption.
Defined.

Lemma get_active_tokens_usable_sorted_witness :
  ∃ c', get_active_tokens (connect pool_db [])
        = (Ok [fresh_token; used_token], c').
Proof.
  destruct (get_active_tokens_usable_sorted (connect pool_db []) eq_refl)
    as (l & c' & Hrun & _ & Hperm & _ & Horder).
  exists c'. rewrite Hrun. do 2 f_equal.
  change (tokens (db (connect pool_db [])))
    with [used_token; fresh_token; cooling_token; unexpiring_token] in Hperm.
  change (clock_now (connect pool_db [])) with 1000 in Hperm.
  rewrite filter_cons_True in Hperm
    by (apply (bool_decide_unpack _); by vm_compute).
  rewrite filter_cons_True in Hperm
    by (apply (bool_decide_unpack _); by vm_compute).
  rewrite filter_cons_False in Hperm
    by (apply (bool_decide_unpack _); by vm_compute).
  rewrite filter_cons_False in Hperm
    by (apply (bool_decide_unpack _); by vm_compute).
  rewrite filter_nil in Hperm. symmetry in Hperm.
  apply Permutation_length_2_inv in Hperm as [->| ->]; [|reflexivity].
  destruct (Horder 0%nat 1%nat used_token fresh_token eq_refl eq_refl)
    as [_ Hnull]; [lia|].
  exfalso. apply (Hnull eq_refl 900). reflexivity.
Defined.

Lemma get_active_tokens_null_expiry_witness :
  col unexpiring_token "is_active" = VBool true ∧
  col unexpiring_token "cooled_until" = VNull ∧
  unexpiring_token ∉ (merge_sort last_used_asc
                        (sql_where (active_where 1000) (tokens pool_db))).
Proof.
  split; [by vm_compute|]. split; [by vm_compute|].
  apply (get_active_tokens_null_expiry (connect pool_db [])
           (sent (connect pool_db []) pool_db)).
  - apply get_active_tokens_run. reflexivity.
  - by vm_compute.
Defined.

(** ** Sparse update of a credential *)

Lemma is_not_None_provided column x fs :
  is_not_None column x ++ provided fs = provided ((column, x) :: fs).
Proof.
  unfold is_not_None, provided. rewrite filter_cons. cbn [snd].
  case_bool_decide; [by rewrite decide_False by tauto|by rewrite decide_True].
Qed.

Lemma assign_lookup_other updates (r : Row) column :
  column ∉ updates.*1 → assign updates r !! column = r !! column.
Proof.
  unfold assign. revert r.
  induction updates as [|[k v] l IH]; intros r Hnot; [done|].
  cbn [foldl fst snd]. rewrite fmap_cons, not_elem_of_cons in Hnot.
  destruct Hnot as [Hne Hnot]. rewrite IH by done.
  by rewrite lookup_insert_ne.
Qed.

Lemma assign_lookup_set updates (r : Row) column v :
  NoDup updates.*1 → (column, v) ∈ updates →
  assign updates r !! column = Some v.
Proof.
  unfold assign. revert r.
  induction updates as [|[k w] l IH]; intros r Hnd Hin; [by inversion Hin|].
  cbn [foldl fst snd]. rewrite fmap_cons in Hnd.
  apply NoDup_cons in Hnd as [Hk Hnd].
  apply elem_of_cons in Hin as [Heq|Hin].
  - injection Heq as -> ->.
    change (foldl _ (<[k:=w]> r) l) with (assign l (<[k:=w]> r)).
    rewrite assign_lookup_other by done. apply lookup_insert_eq.
  - by apply IH.
Qed.

Lemma provided_NoDup fs : NoDup fs.*1 → NoDup (provided fs).*1.
Proof.
  intros Hnd. eapply sublist_NoDup; [exact Hnd|].
  apply fmap_sublist, sublist_filter.
Qed.

Lemma execute_run (u : Z → Db → Res Db) c :
  execute u c =
    match faults c with
    | true :: _ => (Raise PostgresError, sent c (db c))
    | _ =>
        match u (clock_now c) (db c) with
        | Ok d => (Ok tt, sent c d)
        | Raise e => (Raise e, sent c (db c))
        end
    end.
Proof.
  unfold execute, statement.
  destruct (faults c) as [|[] ?]; try reflexivity;
    destruct (u (clock_now c) (db c)); reflexivity.
Qed.

Lemma update_token_unfold tid token st rt client_id proxy_url remark
    expiry_time plan_type plan_title subscription_end image_enabled
    video_enabled image_concurrency video_concurrency c :
  update_token tid token st rt client_id proxy_url remark expiry_time
    plan_type plan_title subscription_end image_enabled video_enabled
    image_concurrency video_concurrency c =
  let fs := provided (fields token st rt client_id proxy_url remark
                        expiry_time plan_type plan_title subscription_end
                        image_enabled video_enabled image_concurrency
                        video_concurrency) in
  if bool_decide (fs = []) then (Ok tt, c)
  else execute (λ _ d, update_tokens fs tid d) c.
Proof.
  unfold update_token, fields. cbv zeta.
  rewrite <- !is_not_None_provided.
  change (provided []) with (@nil (string * val)). rewrite app_nil_r.
  by case_bool_decide.
Qed.

Lemma update_rows_lookup fs tid (rows : list Row) k r :
  rows !! k = Some r →
  ∃ r',
    ((λ r, if bool_decide (col r "id" = VInt tid) then assign fs r else r)
       <$> rows) !! k = Some r' ∧
    (∀ column, column ∉ fs.*1 → r' !! column = r !! column) ∧
    (col r "id" ≠ VInt tid → r' = r) ∧
    (NoDup fs.*1 → col r "id" = VInt tid →
     ∀ column v, (column, v) ∈ fs → r' !! column = Some v).
Proof.
  intros Hk. rewrite list_lookup_fmap, Hk. cbn [fmap option_fmap option_map].
  eexists; split; [reflexivity|].
  case_bool_decide; repeat split; intros; try done.
  - by apply assign_lookup_other.
  - by apply assign_lookup_set.
Qed.

(** C7. [update_token] writes the columns whose argument was provided and
    no other.  With nothing provided it sends no statement and the
    connection and its tables are what they were.  Otherwise it sends one
    [UPDATE]: whatever its outcome, every row keeps its place, a row of
    another credential is untouched, every column that was not provided
    keeps its value, and the other tables are unchanged; when the [UPDATE]
    succeeds, every provided column of the credential's row holds the value
    that was provided.  On a connection that serves its statement the
    [UPDATE] succeeds whenever the [UNIQUE] column [token] is not among the
    provided ones. *)
Theorem update_token_sparse (c : Conn) (tid : Z)
    (token st rt client_id proxy_url remark expiry_time plan_type plan_title
     subscription_end image_enabled video_enabled image_concurrency
     video_concurrency : val) :
  let fs := provided (fields token st rt client_id proxy_url remark
                        expiry_time plan_type plan_title subscription_end
                        image_enabled video_enabled image_concurrency
                        video_concurrency) in
  ∃ res c',
    update_token tid token st rt client_id proxy_url remark expiry_time
      plan_type plan_title subscription_end image_enabled video_enabled
      image_concurrency video_concurrency c = (res, c') ∧
    (fs = [] → res = Ok tt ∧ c' = c) ∧
    (fs ≠ [] → issued c' = S (issued c)) ∧
    token_stats (db c') = token_stats (db c) ∧
    config (db c') = config (db c) ∧
    length (tokens (db c')) = length (tokens (db c)) ∧
    (∀ k r,
       tokens (db c) !! k = Some r →
       ∃ r',
         tokens (db c') !! k = Some r' ∧
         (∀ column, column ∉ fs.*1 → r' !! column = r !! column) ∧
         (col r "id" ≠ VInt tid → r' = r) ∧
         (res = Ok tt → col r "id" = VInt tid →
          ∀ column v, (column, v) ∈ fs → r' !! column = Some v)) ∧
    (faults c = [] → token = VNull → res = Ok tt).
Proof.
  cbv zeta. rewrite update_token_unfold. cbv zeta. set (fs := provided _).
  assert (Hnd : NoDup fs.*1).
  { apply provided_NoDup. unfold fields. cbn [fmap list_fmap fst].
    apply (bool_decide_unpack _). by vm_compute. }
  case_bool_decide as Hfs.
  { eexists _, _. split; [reflexivity|]. repeat split; try done.
    intros k r Hk. exists r. repeat split; try done.
    intros _ _ column v Hin. rewrite Hfs in Hin. by inversion Hin. }
  rewrite execute_run.
  set (rows' := (λ r, if bool_decide (col r "id" = VInt tid)
                      then assign fs r else r) <$> tokens (db c)).
  assert (Hunchanged : ∀ e,
    (fs = [] → @Raise unit e = Ok tt ∧ sent c (db c) = c) ∧
    (fs ≠ [] → issued (sent c (db c)) = S (issued c)) ∧
    token_stats (db (sent c (db c))) = token_stats (db c) ∧
    config (db (sent c (db c))) = config (db c) ∧
    length (tokens (db (sent c (db c)))) = length (tokens (db c)) ∧
    (∀ k r,
       tokens (db c) !! k = Some r →
       ∃ r',
         tokens (db (sent c (db c))) !! k = Some r' ∧
         (∀ column, column ∉ fs.*1 → r' !! column = r !! column) ∧
         (col r "id" ≠ VInt tid → r' = r) ∧
         (@Raise unit e = Ok tt → col r "id" = VInt tid →
          ∀ column v, (column, v) ∈ fs → r' !! column = Some v))).
  { intros e. repeat split; try done.
    intros k r Hk. exists r. repeat split; try done. }
  destruct (faults c) as [|[] fl] eqn:Hfl.
  - unfold update_tokens. fold rows'. case_bool_decide as Huniq.
    + eexists _, _. split; [reflexivity|].
      destruct (Hunchanged UniqueViolationError) as (H1 & H2 & H3 & H4 & H5 & H6).
      repeat split; try done.
      intros _ ->. destruct Huniq as [Hin _]. exfalso. revert Hin.
      subst fs. unfold fields, provided. rewrite filter_cons_False by (cbn; tauto).
      intros Hin.
      eapply elem_of_sublist in Hin; [|apply fmap_sublist, sublist_filter].
      revert Hin. cbn [fmap list_fmap fst].
      apply (bool_decide_unpack (¬ _)). by vm_compute.
    + eexists _, _. split; [reflexivity|].
      repeat split; try done.
      * cbn. unfold rows'. by rewrite length_fmap.
      * intros k r Hk. cbn [db sent tokens set_tokens].
        destruct (update_rows_lookup fs tid _ k r Hk) as (r' & ? & ? & ? & Hset).
        exists r'. repeat split; try done. intros _. by apply Hset.
  - eexists _, _. split; [reflexivity|].
    destruct (Hunchanged PostgresError) as (H1 & H2 & H3 & H4 & H5 & H6).
    repeat split; try done.
  - unfold update_tokens. fold rows'. case_bool_decide as Huniq.
    + eexists _, _. split; [reflexivity|].
      destruct (Hunchanged UniqueViolationError) as (H1 & H2 & H3 & H4 & H5 & H6).
      repeat split; try done.
    + eexists _, _. split; [reflexivity|].
      repeat split; try done.
      * cbn. unfold rows'. by rewrite length_fmap.
      * intros k r Hk. cbn [db sent tokens set_tokens].
        destruct (update_rows_lookup fs tid _ k r Hk) as (r' & ? & ? & ? & Hset).
        exists r'. repeat split; try done. intros _. by apply Hset.
Qed.

Lemma update_token_sparse_witness :
  ∃ res c',
    update_token 2 VNull VNull VNull VNull VNull (VText "x") VNull VNull VNull
      VNull VNull VNull VNull VNull (connect pool_db []) = (res, c') ∧
    res = Ok tt ∧ issued c' = 1%nat.
Proof.
  destruct (update_token_sparse (connect pool_db []) 2 VNull VNull VNull VNull
              VNull (VText "x") VNull VNull VNull VNull VNull VNull VNull VNull)
    as (res & c' & Hrun & _ & Hissued & _ & _ & _ & _ & Hok).
  exists res, c'. split; [exact Hrun|]. split.
  - by apply Hok.
  - apply Hissued. by vm_compute.
Defined.

(** ** Schema probes *)

Lemma column_exists_total table_name column_name c :
  ∃ b, _column_exists table_name column_name c = (Ok b, sent c (db c)) ∧
       (∀ fl, faults c = true :: fl → b = false).
Proof.
  unfold _column_exists, try_except, mbind, M_bind, fetch, statement, mret, M_ret.
  destruct (faults c) as [|[] fl]; eexists; (split; [reflexivity|]);
    intros fl' Hfl; try discriminate. done.
Qed.

(** C6 at the failing input.  When the statement of the probe fails,
    [_table_exists] raises instead of answering [False], and the exception
    leaves [check_and_migrate_db], whose first statement is the probe for
    [tokens]; [_column_exists] answers [False] on the same connection. *)
Theorem table_exists_propagates (c : Conn) (fl : list bool)
    (table_name column_name : string) (config_dict : option ConfigDict) :
  faults c = true :: fl →
  _table_exists table_name c = (Raise PostgresError, sent c (db c)) ∧
  check_and_migrate_db config_dict c = (Raise PostgresError, sent c (db c)) ∧
  _column_exists table_name column_name c = (Ok false, sent c (db c)).
Proof.
  intros Hfl. destruct c as [d f n now today]. cbn in Hfl. subst f.
  repeat split.
Qed.

Lemma table_exists_propagates_witness :
  _table_exists "tokens" (connect empty_db [true]) =
    (Raise PostgresError, sent (connect empty_db [true]) empty_db) ∧
  check_and_migrate_db None (connect empty_db [true]) =
    (Raise PostgresError, sent (connect empty_db [true]) empty_db) ∧
  _column_exists "tokens" "proxy_url" (connect empty_db [true]) =
    (Ok false, sent (connect empty_db [true]) empty_db).
Proof.
  apply (table_exists_propagates (connect empty_db [true]) []
           "tokens" "proxy_url" None).
  reflexivity.
Defined.

(** ** Call-mode normalization *)

(** The pair handed to the [INSERT] by the bootstrap is consistent whenever
    asyncpg accepts it. *)
Lemma normalize_call_mode_consistent config_dict s b :
  text_arg (normalize_call_mode config_dict).1 = Ok s →
  bool_arg (normalize_call_mode config_dict).2 = Ok b →
  (s = "polling" ↔ b = true).
Proof.
  unfold normalize_call_mode.
  destruct (dict_truthy config_dict); cbn; [|by intros [= <-] [= <-]].
  case_bool_decide as Hmode; cbn.
  - destruct (get _ "polling_mode_enabled" _) as [|p|]; cbn; try done.
    intros Hs [= <-]. by destruct p; injection Hs as <-.
  - rewrite !elem_of_cons in Hmode.
    destruct Hmode as [->|[->|Hnil]]; [| |by inversion Hnil];
      cbn; by intros [= <-] [= <-].
Qed.

(** A [call_mode] that is present and is not one of the two literals is
    replaced by the one derived from the legacy boolean. *)
Lemma normalize_call_mode_unrecognized config_dict section mode :
  config_dict !! "call_logic" = Some section →
  section !! "call_mode" = Some mode →
  mode ≠ TStr "default" → mode ≠ TStr "polling" →
  normalize_call_mode (Some config_dict) =
    (if toml_truthy (get section "polling_mode_enabled" (TBool false))
     then TStr "polling" else TStr "default",
     get section "polling_mode_enabled" (TBool false)).
Proof.
  intros Hsec Hmode Hd Hp. unfold normalize_call_mode, dict_truthy.
  rewrite bool_decide_eq_false_2
    by (intros ->; by rewrite lookup_empty in Hsec).
  cbn [negb].
  assert (Hs : get_section (Some config_dict) "call_logic" = section)
    by (unfold get_section; cbn; by rewrite Hsec).
  assert (Hg : get section "call_mode" (TStr "default") = mode)
    by (unfold get; by rewrite Hmode).
  rewrite Hs, Hg.
  rewrite bool_decide_eq_true_2; [done|].
  rewrite !not_elem_of_cons. repeat split; try done. apply not_elem_of_nil.
Qed.

(** [update_call_logic_config] always writes a consistent pair. *)
Lemma update_call_logic_config_consistent mode c :
  faults c = [] →
  ∃ c' r,
    update_call_logic_config mode c = (Ok tt, c') ∧
    call_logic_config (config (db c')) = Some r ∧
    call_mode r = (if String.eqb mode "polling" then "polling" else "default") ∧
    polling_mode_enabled r = String.eqb mode "polling".
Proof.
  intros Hf. healthy c Hf.
  unfold update_call_logic_config, fetch. cbv zeta.
  rewrite statement_bind. cbn [faults db clock_now].
  destruct (call_logic_config (config d)) as [r0|] eqn:Hrow; cbn [count].
  - rewrite bool_decide_eq_false_2 by done. rewrite execute_run.
    cbn [sent faults tail db clock_now]. rewrite Hrow.
    eexists _, _. split; [reflexivity|]. cbn. split; [reflexivity|].
    cbn. by destruct (String.eqb mode "polling").
  - rewrite bool_decide_eq_true_2 by done. rewrite execute_run.
    cbn [sent faults tail db clock_now]. rewrite Hrow.
    eexists _, _. split; [reflexivity|]. cbn. split; [reflexivity|].
    cbn. by destruct (String.eqb mode "polling").
Qed.

(** C3 at the failing input.  When the [call_logic] section of the overrides
    has no [call_mode], the bootstrap stores [call_mode = "default"] and
    [polling_mode_enabled = false] whatever the legacy boolean of the
    section says: the lookup falls back to ["default"], which is one of the
    two recognized literals, so the legacy boolean is never read. *)
Theorem bootstrap_ignores_legacy_polling (config_dict : ConfigDict)
    (section : ConfigSection) (c : Conn) :
  config_dict !! "call_logic" = Some section →
  section !! "call_mode" = None →
  faults c = [] →
  call_logic_config (config (db c)) = None →
  normalize_call_mode (Some config_dict) = (TStr "default", TBool false) ∧
  ∃ c',
    ensure_call_logic_config (Some config_dict) c = (Ok tt, c') ∧
    call_logic_config (config (db c')) =
      Some {| call_mode := "default"; polling_mode_enabled := false;
              call_logic_updated_at := clock_now c |}.
Proof.
  intros Hsec Hmode Hf Hrow.
  assert (Hnorm : normalize_call_mode (Some config_dict)
                  = (TStr "default", TBool false)).
  { unfold normalize_call_mode, dict_truthy.
    rewrite bool_decide_eq_false_2
      by (intros ->; by rewrite lookup_empty in Hsec).
    cbn [negb].
    assert (Hs : get_section (Some config_dict) "call_logic" = section)
      by (unfold get_section; cbn; by rewrite Hsec).
    assert (Hg : get section "call_mode" (TStr "default") = TStr "default")
      by (unfold get; by rewrite Hmode).
    rewrite Hs, Hg. done. }
  split; [exact Hnorm|].
  healthy c Hf. cbn in Hrow.
  unfold ensure_call_logic_config, fetch.
  rewrite statement_bind. cbn [faults db clock_now].
  rewrite Hrow. cbn [count]. rewrite bool_decide_eq_true_2 by done.
  rewrite Hnorm, execute_run. cbn [sent faults tail db clock_now].
  rewrite Hrow. cbn. eexists. split; reflexivity.
Qed.

Lemma bootstrap_ignores_legacy_polling_witness :
  get (get_section (Some legacy_polling) "call_logic")
    "polling_mode_enabled" (TBool false) = TBool true ∧
  ∃ c',
    ensure_call_logic_config (Some legacy_polling) (connect empty_db [])
      = (Ok tt, c') ∧
    call_logic_config (config (db c')) =
      Some {| call_mode := "default"; polling_mode_enabled := false;
              call_logic_updated_at := 1000 |}.
Proof.
  split; [by vm_compute|].
  apply (bootstrap_ignores_legacy_polling legacy_polling
           {[ "polling_mode_enabled" := TBool true ]}
           (connect empty_db [])); by vm_compute.
Defined.

(** The whole bootstrap on an empty database with the legacy overrides. *)
Lemma bootstrap_legacy_polling_run :
  call_logic_config
    (config (db (_ensure_config_rows (Some legacy_polling)
                   (connect empty_db [])).2)) =
    Some {| call_mode := "default"; polling_mode_enabled := false;
            call_logic_updated_at := 1000 |}.
Proof. by vm_compute. Qed.

(** ** Empty strings in optional configuration fields *)

(** [x if x else None] followed by the text encoder never yields the empty
    string; this is what every section of the bootstrap stores. *)
Lemma or_None_not_empty v s : opt_text_arg (or_None v) = Ok (Some s) → s ≠ "".
Proof.
  unfold or_None. destruct v as [t|b|n]; cbn.
  - destruct (String.eqb_spec t ""); cbn; [done|]. by intros [= <-].
  - by destruct b.
  - by destruct (n =? 0).
Qed.

Lemma ensure_proxy_config_no_empty config_dict c r :
  proxy_config (config (db c)) = None →
  proxy_config (config (db (ensure_proxy_config config_dict c).2)) = Some r →
  proxy_url r ≠ Some "".
Proof.
  intros Hrow. unfold ensure_proxy_config, fetch.
  rewrite statement_bind. destruct c as [d fl n now today]. cbn in Hrow.
  cbn [faults db clock_now]. rewrite Hrow. cbn [count].
  rewrite bool_decide_eq_true_2 by done.
  assert (Hargs : ∃ enabled url,
    (if dict_truthy config_dict
     then (get (get_section config_dict "proxy") "proxy_enabled" (TBool false),
           or_None (get (get_section config_dict "proxy") "proxy_url" (TStr "")))
     else (TBool false, None)) = (enabled, or_None url)).
  { destruct (dict_truthy config_dict); [by eexists _, _|].
    by exists (TBool false), (TStr ""). }
  destruct Hargs as (enabled & url & ->).
  destruct fl as [|[] fl]; cbn [fst snd sent db config]; try (by rewrite Hrow);
    rewrite execute_run; cbn [sent faults tail db clock_now];
    try (destruct fl as [|[] ?]); cbn [snd db sent config]; rewrite ?Hrow; try done;
    destruct (bool_arg enabled) as [b|]; cbn; rewrite ?Hrow; try done;
    destruct (opt_text_arg (or_None url)) as [[u|]|] eqn:Hurl; cbn;
    rewrite ?Hrow; try done; intros [= <-]; cbn; try done;
    intros [= ->]; by apply or_None_not_empty in Hurl.
Qed.

Lemma ensure_pow_proxy_config_no_empty config_dict c r :
  pow_proxy_config (config (db c)) = None →
  pow_proxy_config (config (db (ensure_pow_proxy_config config_dict c).2))
    = Some r →
  pow_proxy_url r ≠ Some "".
Proof.
  intros Hrow. unfold ensure_pow_proxy_config, fetch.
  rewrite statement_bind. destruct c as [d fl n now today]. cbn in Hrow.
  cbn [faults db clock_now]. rewrite Hrow. cbn [count].
  rewrite bool_decide_eq_true_2 by done.
  assert (Hargs : ∃ enabled url,
    (if dict_truthy config_dict
     then (get (get_section config_dict "pow_proxy") "pow_proxy_enabled"
             (TBool false),
           or_None (get (get_section config_dict "pow_proxy") "pow_proxy_url"
                      (TStr "")))
     else (TBool false, None)) = (enabled, or_None url)).
  { destruct (dict_truthy config_dict); [by eexists _, _|].
    by exists (TBool false), (TStr ""). }
  destruct Hargs as (enabled & url & ->).
  destruct fl as [|[] fl]; cbn [fst snd sent db config]; try (by rewrite Hrow);
    rewrite execute_run; cbn [sent faults tail db clock_now];
    try (destruct fl as [|[] ?]); cbn [snd db sent config]; rewrite ?Hrow; try done;
    destruct (bool_arg enabled) as [b|]; cbn; rewrite ?Hrow; try done;
    destruct (opt_text_arg (or_None url)) as [[u|]|] eqn:Hurl; cbn;
    rewrite ?Hrow; try done; intros [= <-]; cbn; try done;
    intros [= ->]; by apply or_None_not_empty in Hurl.
Qed.

(** [update_cache_config] is the one update that normalizes. *)
Lemma update_cache_config_no_empty enabled timeout base_url c c' r :
  update_cache_config enabled timeout base_url c = (Ok tt, c') →
  cache_config (config (db c')) = Some r →
  cache_base_url r ≠ Some "".
Proof.
  unfold update_cache_config, fetch. rewrite statement_bind.
  destruct c as [d fl n now today]. cbn [faults db clock_now].
  destruct fl as [|[] fl]; try discriminate;
    (destruct (cache_config (config d)) as [cur|] eqn:Hrow; cbv zeta beta iota;
     rewrite execute_run; cbn [sent faults tail db clock_now];
     try (destruct fl as [|[] ?]; try discriminate);
     rewrite Hrow; destruct (int4 _); cbn; try discriminate;
     intros [= <-]; cbn; try discriminate; intros [= <-]; cbn;
     repeat match goal with
            | |- context [match ?x with _ => _ end] => destruct x eqn:?
            end; try discriminate;
     intros [= ->]; discriminate).
Qed.

(** C8 at the failing inputs.  On a connection that serves its statements,
    with the rows in place, [update_proxy_config], [update_pow_proxy_config]
    and [update_watermark_free_config] store the empty string they are
    given. *)
Theorem update_config_stores_empty_string (c : Conn) (enabled : bool) :
  faults c = [] →
  is_Some (proxy_config (config (db c))) →
  is_Some (watermark_free_config (config (db c))) →
  (∃ c', update_proxy_config enabled (Some "") c = (Ok tt, c') ∧
         proxy_url <$> proxy_config (config (db c')) = Some (Some "")) ∧
  (∃ c', update_pow_proxy_config enabled (Some "") c = (Ok tt, c') ∧
         pow_proxy_url <$> pow_proxy_config (config (db c')) = Some (Some "")) ∧
  (∃ c', update_watermark_free_config enabled None (Some "") (Some "") None c
           = (Ok tt, c') ∧
         custom_parse_url <$> watermark_free_config (config (db c'))
           = Some (Some "") ∧
         custom_parse_token <$> watermark_free_config (config (db c'))
           = Some (Some "")).
Proof.
  intros Hf [p Hp] [w Hw]. healthy c Hf. cbn in Hp, Hw.
  split; [|split].
  - unfold update_proxy_config. rewrite execute_run. cbn [faults db clock_now].
    eexists. split; [reflexivity|]. cbn. by rewrite Hp.
  - unfold update_pow_proxy_config, fetch. rewrite statement_bind.
    cbn [faults db clock_now].
    destruct (pow_proxy_config (config d)) as [r0|] eqn:Hrow; cbn [count].
    + rewrite bool_decide_eq_false_2 by done. rewrite execute_run.
      cbn [sent faults tail db clock_now]. rewrite Hrow.
      eexists. split; reflexivity.
    + rewrite bool_decide_eq_true_2 by done. rewrite execute_run.
      cbn [sent faults tail db clock_now]. rewrite Hrow.
      eexists. split; reflexivity.
  - unfold update_watermark_free_config.
    rewrite bool_decide_eq_false_2 by (by intros (_ & ? & _)).
    rewrite execute_run. cbn [faults db clock_now].
    eexists. split; [reflexivity|]. cbn. by rewrite Hw.
Qed.

Lemma update_config_stores_empty_string_witness :
  (∃ c', update_proxy_config true (Some "") (connect proxy_db [])
           = (Ok tt, c') ∧
         proxy_url <$> proxy_config (config (db c')) = Some (Some "")) ∧
  (∃ c', update_pow_proxy_config true (Some "") (connect proxy_db [])
           = (Ok tt, c') ∧
         pow_proxy_url <$> pow_proxy_config (config (db c')) = Some (Some "")) ∧
  (∃ c', update_watermark_free_config true None (Some "") (Some "") None
           (connect proxy_db []) = (Ok tt, c') ∧
         custom_parse_url <$> watermark_free_config (config (db c'))
           = Some (Some "") ∧
         custom_parse_token <$> watermark_free_config (config (db c'))
           = Some (Some "")).
Proof.
  apply (update_config_stores_empty_string (connect proxy_db []) true).
  - reflexivity.
  - by eexists.
  - by eexists.
Defined.

(** * The rest of the class: properties *)

(** ** Running statements *)

Lemma fetch_bind {A B} (q : Z → Db → A) (k : A → M B) c :
  (fetch q ≫= k) c =
    match faults c with
    | true :: _ => (Raise PostgresError, sent c (db c))
    | _ => k (q (clock_now c) (db c)) (sent c (db c))
    end.
Proof.
  unfold fetch. rewrite statement_bind.
  by destruct (faults c) as [|[] ?].
Qed.

Lemma head_filter_None {A} (P : A → Prop) `{!∀ x, Decision (P x)} (l : list A) :
  head (filter P l) = None ↔ ¬ Exists P l.
Proof.
  induction l as [|x l IH]; [rewrite Exists_nil; tauto|].
  rewrite filter_cons, Exists_cons. destruct (decide (P x)); cbn; [|tauto].
  split; [done|]. tauto.
Qed.

Lemma head_filter_Some {A} (P : A → Prop) `{!∀ x, Decision (P x)} (l : list A) x :
  head (filter P l) = Some x → P x ∧ x ∈ l.
Proof.
  intros Hhead. apply head_Some_elem_of in Hhead.
  by apply list_elem_of_filter in Hhead.
Qed.

Lemma sql_eq_true a b : sql_eq a b = Some true ↔ a = b ∧ a ≠ VNull ∧ b ≠ VNull.
Proof.
  destruct a, b; cbn; try case_bool_decide; split;
    try done; try (intros (? & ? & ?); congruence); try (intros [= ?]; done).
Qed.

Lemma tokens_where_None column v d :
  v ≠ VNull →
  tokens_where column v d = None ↔ ¬ Exists (λ r, col r column = v) (tokens d).
Proof.
  intros Hv. unfold tokens_where, sql_where. rewrite head_filter_None.
  apply not_iff_compat. rewrite !Exists_exists.
  split; intros (r & Hin & Hr); exists r; (split; [done|]).
  - by apply sql_eq_true in Hr as (? & _).
  - apply sql_eq_true. repeat split; congruence.
Qed.

Lemma tokens_where_Some column v d r :
  tokens_where column v d = Some r → r ∈ tokens d ∧ col r column = v.
Proof.
  unfold tokens_where, sql_where. intros [Hr Hin]%head_filter_Some.
  by apply sql_eq_true in Hr as (? & _).
Qed.

(** ** Credential lookups *)

(** X1. On a connection that serves its statement, each of the three point
    lookups answers without raising and leaves the tables alone: [None]
    exactly when no credential carries the key, and otherwise a stored
    credential that carries it. *)
Theorem point_lookups (c : Conn) (id : Z) (token email : string) :
  faults c = [] →
  (∃ o, get_token id c = (Ok o, sent c (db c)) ∧
        (o = None ↔ ¬ Exists (λ r, col r "id" = VInt id) (tokens (db c))) ∧
        (∀ r, o = Some r → r ∈ tokens (db c) ∧ col r "id" = VInt id)) ∧
  (∃ o, get_token_by_value token c = (Ok o, sent c (db c)) ∧
        (o = None ↔
         ¬ Exists (λ r, col r "token" = VText token) (tokens (db c))) ∧
        (∀ r, o = Some r → r ∈ tokens (db c) ∧ col r "token" = VText token)) ∧
  (∃ o, get_token_by_email email c = (Ok o, sent c (db c)) ∧
        (o = None ↔
         ¬ Exists (λ r, col r "email" = VText email) (tokens (db c))) ∧
        (∀ r, o = Some r → r ∈ tokens (db c) ∧ col r "email" = VText email)).
Proof.
  intros Hf.
  unfold get_token, get_token_by_value, get_token_by_email.
  rewrite !fetch_bind, Hf.
  repeat split; eexists; (split; [reflexivity|]); split;
    try (by apply tokens_where_None);
    intros r Hr; by apply tokens_where_Some in Hr.
Qed.

Lemma point_lookups_witness :
  ∃ o, get_token_by_email "nobody@example.org" (connect pool_db [])
         = (Ok o, sent (connect pool_db []) pool_db) ∧ o = None.
Proof.
  destruct (point_lookups (connect pool_db []) 1 "x" "nobody@example.org"
              eq_refl) as (_ & _ & o & Hrun & Hnone & _).
  exists o. split; [exact Hrun|]. apply Hnone.
  apply (bool_decide_unpack _). by vm_compute.
Defined.

(** ** Adding and finding a credential *)

Lemma add_token_row_usability token i now :
  let r : Row :=
    list_to_map (zip add_token_columns (add_token_values token))
      ∪ tokens_defaults i now in
  col r "is_active" = col token "is_active" ∧
  col r "expiry_time" = col token "expiry_time" ∧
  col r "cooled_until" = VNull ∧ col r "last_used_at" = VNull ∧
  col r "use_count" = VInt 0 ∧ col r "created_at" = VTime now ∧
  col r "is_expired" = VBool false.
Proof.
  unfold add_token_values.
  repeat match goal with
         | |- context [col token ?k] => generalize (col token k); intro
         end.
  vm_compute. done.
Qed.

(** What a successful [add_token] has done. *)
Lemma add_token_Ok token c i c1 :
  add_token token c = (Ok i, c1) →
  ∃ r,
    i = tokens_id_seq (db c) ∧
    tokens (db c1) = tokens (db c) ++ [r] ∧
    token_stats (db c1) =
      token_stats (db c) ++ [zero_stats (token_stats_id_seq (db c)) i] ∧
    r = list_to_map (zip add_token_columns (add_token_values token))
          ∪ tokens_defaults i (clock_now c) ∧
    col token "token" ≠ VNull ∧
    ¬ Exists (λ r0, col r0 "token" = col token "token") (tokens (db c)) ∧
    faults c1 = tail (tail (faults c)) ∧
    clock_now c1 = clock_now c ∧ clock_today c1 = clock_today c.
Proof.
  rewrite add_token_unfold, insert_tokens_add_token. cbv zeta.
  destruct (add_token_row token (tokens_id_seq (db c)) (clock_now c))
    as (Hid & _).
  remember (list_to_map (zip add_token_columns (add_token_values token))
              ∪ tokens_defaults (tokens_id_seq (db c)) (clock_now c)) as r eqn:Hr.
  intros Hrun.
  pose proof (λ rows seq d, insert_token_stats_new rows seq d _ _ Hid) as Hfk.
  destruct c as [d fl n now today]; cbn [db faults issued clock_now] in *.
  destruct fl as [|[] fl]; try discriminate;
    case_bool_decide as Hnull; try discriminate;
    unfold token_taken in Hrun; case_bool_decide as Htaken; try discriminate;
    cbn [tail] in Hrun;
    try (destruct fl as [|[] ?]; try discriminate);
    rewrite Hfk in Hrun; injection Hrun as <- <-; cbn;
    exists r; repeat split; try done; tauto.
Qed.

Lemma head_filter_app_new {A} (P : A → Prop) `{!∀ x, Decision (P x)}
    (l : list A) x :
  ¬ Exists P l → P x → head (filter P (l ++ [x])) = Some x.
Proof.
  intros Hnone Hx. rewrite filter_app.
  apply (head_filter_None P) in Hnone.
  destruct (filter P l) as [|y l'] eqn:Hl; [|done].
  rewrite filter_cons, decide_True by done. done.
Qed.

(** X2. A credential that [add_token] has accepted is found again by its
    token string: the row carries the returned id, the token, email and
    name of the credential object, and the empty username. *)
Theorem add_token_then_get_token_by_value (token : Row) (c c1 : Conn) (i : Z)
    (s : string) :
  add_token token c = (Ok i, c1) →
  col token "token" = VText s →
  faults c1 = [] →
  ∃ r,
    get_token_by_value s c1 = (Ok (Some r), sent c1 (db c1)) ∧
    col r "id" = VInt i ∧ col r "token" = VText s ∧
    col r "email" = col token "email" ∧ col r "name" = col token "name" ∧
    col r "username" = VText "".
Proof.
  intros Hadd Hs Hf.
  apply add_token_Ok in Hadd
    as (r & -> & Hrows & _ & -> & _ & Hfree & _).
  destruct (add_token_row token (tokens_id_seq (db c)) (clock_now c))
    as (Hid & Hu & Ht & He & Hn).
  set (r := _ ∪ _) in *. clearbody r.
  exists r. unfold get_token_by_value. rewrite fetch_bind, Hf.
  unfold tokens_where, sql_where. rewrite Hrows.
  rewrite (head_filter_app_new _ _ r).
  - rewrite <- Hs, <- Ht. by repeat split.
  - intros Hex. apply Hfree. rewrite Hs.
    eapply Exists_impl; [exact Hex|]. cbn.
    by intros r0 (? & _)%sql_eq_true.
  - apply sql_eq_true. rewrite Ht, Hs. by repeat split.
Qed.

Lemma add_token_then_get_token_by_value_witness :
  ∃ r,
    get_token_by_value "sk-alice" (add_token alice (connect empty_db [])).2
      = (Ok (Some r),
         sent (add_token alice (connect empty_db [])).2
           (db (add_token alice (connect empty_db [])).2)) ∧
    col r "id" = VInt 1 ∧ col r "username" = VText "".
Proof.
  destruct (add_token_then_get_token_by_value alice (connect empty_db [])
              (add_token alice (connect empty_db [])).2 1 "sk-alice")
    as (r & Hrun & Hid & _ & _ & _ & Hu).
  - by vm_compute.
  - by vm_compute.
  - by vm_compute.
  - exists r. split; [exact Hrun|]. split; [exact Hid|exact Hu].
Defined.

(** X3. A credential added as active, with an expiry time ahead of the
    server's clock, is listed by [get_active_tokens] right away, as a
    never-used one. *)
Theorem add_token_then_get_active_tokens (token : Row) (c c1 : Conn) (i e : Z) :
  add_token token c = (Ok i, c1) →
  col token "is_active" = VBool true →
  col token "expiry_time" = VTime e →
  clock_now c < e →
  faults c1 = [] →
  ∃ l r,
    get_active_tokens c1 = (Ok l, sent c1 (db c1)) ∧
    r ∈ l ∧ col r "id" = VInt i ∧ col r "last_used_at" = VNull.
Proof.
  intros Hadd Hact Hexp Hlt Hf.
  apply add_token_Ok in Hadd
    as (r & -> & Hrows & _ & -> & _ & _ & _ & Hnow & _).
  destruct (add_token_row token (tokens_id_seq (db c)) (clock_now c))
    as (Hid & _).
  destruct (add_token_row_usability token (tokens_id_seq (db c)) (clock_now c))
    as (Ha & He & Hc & Hl & _).
  set (r := _ ∪ _) in *. clearbody r.
  rewrite get_active_tokens_run by done.
  eexists _, r. split; [reflexivity|]. split; [|done].
  rewrite merge_sort_Permutation. apply list_elem_of_filter. split.
  - apply active_where_usable. unfold usable.
    rewrite Ha, He, Hc, Hact, Hexp, Hnow. cbn. auto.
  - rewrite Hrows. apply elem_of_app. right. apply list_elem_of_here.
Qed.

Lemma add_token_then_get_active_tokens_witness :
  ∃ l r,
    get_active_tokens (add_token alice (connect empty_db [])).2
      = (Ok l, sent (add_token alice (connect empty_db [])).2
                 (db (add_token alice (connect empty_db [])).2)) ∧
    r ∈ l ∧ col r "id" = VInt 1 ∧ col r "last_used_at" = VNull.
Proof.
  apply (add_token_then_get_active_tokens alice (connect empty_db [])
           (add_token alice (connect empty_db [])).2 1 5000);
    by vm_compute.
Defined.

(** X4. When no stats row carries the id that the sequence is about to
    give out, the stats of a credential that [add_token] has accepted read
    as all zero, with no date and no error time. *)
Theorem add_token_then_get_token_stats (token : Row) (c c1 : Conn) (i : Z) :
  add_token token c = (Ok i, c1) →
  ¬ Exists (λ s, token_id s = tokens_id_seq (db c)) (token_stats (db c)) →
  faults c1 = [] →
  ∃ s,
    get_token_stats i c1 = (Ok (Some s), sent c1 (db c1)) ∧
    token_id s = i ∧
    image_count s = 0 ∧ video_count s = 0 ∧ error_count s = 0 ∧
    today_image_count s = 0 ∧ today_video_count s = 0 ∧
    today_error_count s = 0 ∧ consecutive_error_count s = 0 ∧
    today_date s = None ∧ last_error_at s = None.
Proof.
  intros Hadd Hfresh Hf.
  apply add_token_Ok in Hadd as (r & -> & _ & Hstats & _).
  eexists. unfold get_token_stats, fetch, statement. rewrite Hf.
  unfold stats_where. rewrite Hstats.
  rewrite (head_filter_app_new _ _ _ Hfresh) by done.
  by repeat split.
Qed.

Lemma add_token_then_get_token_stats_witness :
  ∃ s,
    get_token_stats 1 (add_token alice (connect empty_db [])).2
      = (Ok (Some s), sent (add_token alice (connect empty_db [])).2
                        (db (add_token alice (connect empty_db [])).2)) ∧
    image_count s = 0 ∧ today_date s = None.
Proof.
  destruct (add_token_then_get_token_stats alice (connect empty_db [])
              (add_token alice (connect empty_db [])).2 1)
    as (s & Hrun & _ & Hi & _ & _ & _ & _ & _ & _ & Hd & _).
  - by vm_compute.
  - intros H. inversion H.
  - by vm_compute.
  - exists s. split; [exact Hrun|]. split; [exact Hi|exact Hd].
Defined.

(** ** Listing every credential *)

Global Instance created_desc_total : Total created_desc.
Proof.
  intros r1 r2. unfold created_desc.
  destruct (created r1), (created r2); auto. lia.
Qed.

Global Instance created_desc_trans : Transitive created_desc.
Proof.
  intros r1 r2 r3. unfold created_desc.
  destruct (created r1), (created r2), (created r3); auto; try done. lia.
Qed.

(** X5. On a connection that serves its statement, [get_all_tokens] returns
    every stored credential, each as often as it is stored, the newest
    created first, and changes nothing. *)
Theorem get_all_tokens_newest_first (c : Conn) :
  faults c = [] →
  ∃ l,
    get_all_tokens c = (Ok l, sent c (db c)) ∧
    l ≡ₚ tokens (db c) ∧
    StronglySorted created_desc l ∧
    (∀ i j r1 r2 t1 t2,
       l !! i = Some r1 → l !! j = Some r2 → (i < j)%nat →
       col r1 "created_at" = VTime t1 → col r2 "created_at" = VTime t2 →
       t2 ≤ t1).
Proof.
  intros Hf. unfold get_all_tokens. rewrite fetch_bind, Hf.
  eexists. split; [reflexivity|].
  set (l := merge_sort _ _).
  assert (Hsorted : StronglySorted created_desc l)
    by apply (StronglySorted_merge_sort _).
  split; [apply merge_sort_Permutation|]. split; [done|].
  intros i j r1 r2 t1 t2 Hi Hj Hij H1 H2.
  assert (Hle : created_desc r1 r2).
  { revert i j Hi Hj Hij.
    induction Hsorted as [|x l' _ IH Hall]; intros i j Hi Hj Hij; [done|].
    destruct i as [|i], j as [|j]; simpl in *; try lia.
    - injection Hi as ->. rewrite Forall_forall in Hall.
      apply Hall. by eapply list_elem_of_lookup_2.
    - eapply (IH i j); eauto. lia. }
  unfold created_desc, created in Hle. by rewrite H1, H2 in Hle.
Qed.

Lemma get_all_tokens_newest_first_witness :
  ∃ l,
    get_all_tokens (connect pool_db []) = (Ok l, sent (connect pool_db []) pool_db) ∧
    length l = 4%nat.
Proof.
  destruct (get_all_tokens_newest_first (connect pool_db []) eq_refl)
    as (l & Hrun & Hperm & _).
  exists l. split; [exact Hrun|]. by rewrite Hperm.
Defined.

(** ** Narrow credential writes *)

Lemma update_tokens_other_columns updates id d :
  "token" ∉ updates.*1 →
  update_tokens updates id d =
    Ok (set_tokens
          ((λ r, if bool_decide (col r "id" = VInt id)
                 then assign updates r else r) <$> tokens d)
          (tokens_id_seq d) d).
Proof.
  intros Hnot. unfold update_tokens.
  by rewrite bool_decide_eq_false_2 by tauto.
Qed.

Lemma col_assign_set updates (r : Row) column v :
  NoDup updates.*1 → (column, v) ∈ updates → col (assign updates r) column = v.
Proof. intros. unfold col. by erewrite assign_lookup_set. Qed.

Lemma col_assign_other updates (r : Row) column :
  column ∉ updates.*1 → col (assign updates r) column = col r column.
Proof. intros. unfold col. by rewrite assign_lookup_other. Qed.

(** X6. On a connection that serves its statement, [update_token_usage]
    sets [last_used_at] of the credential to the server's clock and adds
    exactly 1 to an integer [use_count]; every other column of the row and
    every row of another credential keep their values. *)
Theorem update_token_usage_effect (c : Conn) (id : Z) :
  faults c = [] →
  ∃ c',
    update_token_usage id c = (Ok tt, c') ∧
    token_stats (db c') = token_stats (db c) ∧
    config (db c') = config (db c) ∧
    length (tokens (db c')) = length (tokens (db c)) ∧
    ∀ k r,
      tokens (db c) !! k = Some r →
      ∃ r',
        tokens (db c') !! k = Some r' ∧
        (col r "id" ≠ VInt id → r' = r) ∧
        (col r "id" = VInt id →
         col r' "last_used_at" = VTime (clock_now c) ∧
         (∀ n, col r "use_count" = VInt n → col r' "use_count" = VInt (n + 1)) ∧
         ∀ column, column ≠ "last_used_at" → column ≠ "use_count" →
                   r' !! column = r !! column).
Proof.
  intros Hf. unfold update_token_usage. rewrite execute_run, Hf.
  eexists. split; [reflexivity|]. cbn [db sent tokens set_tokens token_stats config].
  repeat split; [by rewrite length_fmap|].
  intros k r Hk. rewrite list_lookup_fmap, Hk. cbn.
  eexists. split; [reflexivity|]. case_bool_decide as Hid; split; try done.
  intros _. repeat split.
  - unfold col at 1. by rewrite lookup_insert_ne, lookup_insert_eq.
  - intros n Hn. unfold col at 1. rewrite lookup_insert_eq. cbn.
    by rewrite Hn.
  - intros column H1 H2. by rewrite !lookup_insert_ne.
Qed.

Lemma update_token_usage_effect_witness :
  ∃ c',
    update_token_usage 1 (connect pool_db []) = (Ok tt, c') ∧
    length (tokens (db c')) = 4%nat.
Proof.
  destruct (update_token_usage_effect (connect pool_db []) 1 eq_refl)
    as (c' & Hrun & _ & _ & Hlen & _).
  exists c'. split; [exact Hrun|]. exact Hlen.
Defined.

Lemma set_columns_run updates id c :
  faults c = [] → "token" ∉ updates.*1 →
  execute (λ _ d, update_tokens updates id d) c =
    (Ok tt,
     sent c (set_tokens
               ((λ r, if bool_decide (col r "id" = VInt id)
                      then assign updates r else r) <$> tokens (db c))
               (tokens_id_seq (db c)) (db c))).
Proof.
  intros Hf Hnot. rewrite execute_run, Hf.
  by rewrite update_tokens_other_columns.
Qed.

Lemma elem_of_updated_rows updates id (rows : list Row) r' :
  r' ∈ (λ r, if bool_decide (col r "id" = VInt id)
             then assign updates r else r) <$> rows →
  "id" ∉ updates.*1 →
  ∃ r, r ∈ rows ∧ col r' "id" = col r "id" ∧
       (col r "id" = VInt id → r' = assign updates r) ∧
       (col r "id" ≠ VInt id → r' = r).
Proof.
  intros (r & -> & Hin)%list_elem_of_fmap Hnot. exists r. split; [done|].
  case_bool_decide; repeat split; try done.
  by rewrite col_assign_other.
Qed.

Lemma not_listed_when_unusable c id :
  faults c = [] →
  (∀ r, r ∈ tokens (db c) → col r "id" = VInt id →
        ¬ usable (clock_now c) r) →
  ∃ l, get_active_tokens c = (Ok l, sent c (db c)) ∧
       ∀ r, r ∈ l → col r "id" ≠ VInt id.
Proof.
  intros Hf Hun. rewrite get_active_tokens_run by done.
  eexists. split; [reflexivity|].
  intros r Hin Hid. rewrite merge_sort_Permutation in Hin.
  apply list_elem_of_filter in Hin as [Hu Hin].
  apply active_where_usable in Hu. by eapply Hun.
Qed.

(** X7. [mark_token_expired] leaves the credential expired and inactive
    whatever it was before, and [clear_token_expired] after it takes back
    the expired flag only: the credential stays inactive and
    [get_active_tokens] does not list it. *)
Theorem mark_then_clear_token_expired (c : Conn) (id : Z) :
  faults c = [] →
  ∃ c1 c2 l,
    mark_token_expired id c = (Ok tt, c1) ∧
    clear_token_expired id c1 = (Ok tt, c2) ∧
    get_active_tokens c2 = (Ok l, sent c2 (db c2)) ∧
    (∀ r, r ∈ tokens (db c1) → col r "id" = VInt id →
          col r "is_expired" = VBool true ∧ col r "is_active" = VBool false) ∧
    (∀ r, r ∈ tokens (db c2) → col r "id" = VInt id →
          col r "is_expired" = VBool false ∧ col r "is_active" = VBool false) ∧
    (∀ r, r ∈ l → col r "id" ≠ VInt id).
Proof.
  intros Hf. unfold mark_token_expired, clear_token_expired.
  pose proof (set_columns_run
                [("is_expired", VBool true); ("is_active", VBool false)]
                id c Hf) as Hm.
  set (c1 := sent c _) in Hm.
  assert (Hf1 : faults c1 = []) by (by subst c1; cbn; rewrite Hf).
  pose proof (set_columns_run [("is_expired", VBool false)] id c1 Hf1) as Hc.
  set (c2 := sent c1 _) in Hc.
  assert (Hf2 : faults c2 = []) by (by subst c2 c1; cbn; rewrite Hf).
  assert (H1 : ∀ r, r ∈ tokens (db c1) → col r "id" = VInt id →
            col r "is_expired" = VBool true ∧ col r "is_active" = VBool false).
  { intros r' Hin Hid. subst c1. cbn [db sent tokens set_tokens] in Hin.
    apply elem_of_updated_rows in Hin as (r & _ & Hsame & Hset & _);
      [|by apply (bool_decide_unpack _)].
    rewrite Hset by congruence.
    split; apply col_assign_set;
      try (apply (bool_decide_unpack _); by vm_compute);
      rewrite !elem_of_cons; auto. }
  assert (H2 : ∀ r, r ∈ tokens (db c2) → col r "id" = VInt id →
            col r "is_expired" = VBool false ∧ col r "is_active" = VBool false).
  { intros r' Hin Hid. subst c2. cbn [db sent tokens set_tokens] in Hin.
    apply elem_of_updated_rows in Hin as (r & Hr & Hsame & Hset & _);
      [|by apply (bool_decide_unpack _)].
    rewrite Hset by congruence. split.
    - apply col_assign_set;
        [apply (bool_decide_unpack _); by vm_compute|].
      rewrite !elem_of_cons; auto.
    - rewrite col_assign_other by (by apply (bool_decide_unpack _)).
      apply H1; [done|congruence]. }
  destruct (not_listed_when_unusable c2 id Hf2) as (l & Hrun & Hl).
  { intros r Hin Hid (Hact & _). apply H2 in Hin as [_ Hia]; [|done].
    congruence. }
  exists c1, c2, l.
  split; [apply Hm; by apply (bool_decide_unpack _)|].
  split; [apply Hc; by apply (bool_decide_unpack _)|].
  done.
Qed.

Lemma mark_then_clear_token_expired_witness :
  ∃ c1 c2 l,
    mark_token_expired 2 (connect pool_db []) = (Ok tt, c1) ∧
    clear_token_expired 2 c1 = (Ok tt, c2) ∧
    get_active_tokens c2 = (Ok l, sent c2 (db c2)) ∧
    (∀ r, r ∈ l → col r "id" ≠ VInt 2).
Proof.
  destruct (mark_then_clear_token_expired (connect pool_db []) 2 eq_refl)
    as (c1 & c2 & l & H1 & H2 & H3 & _ & _ & H4).
  exists c1, c2, l.
  split; [exact H1|]. split; [exact H2|]. split; [exact H3|exact H4].
Defined.

(** X8. Taking a credential out of rotation: after [update_token_status]
    with [False], and after [update_token_cooldown] with a time that is not
    before the server's clock (the clock's own reading included),
    [get_active_tokens] does not list the credential. *)
Theorem out_of_rotation (c : Conn) (id : Z) :
  faults c = [] →
  (∃ c1 l,
     update_token_status id false c = (Ok tt, c1) ∧
     get_active_tokens c1 = (Ok l, sent c1 (db c1)) ∧
     ∀ r, r ∈ l → col r "id" ≠ VInt id) ∧
  (∀ t, clock_now c ≤ t →
     ∃ c1 l,
       update_token_cooldown id (VTime t) c = (Ok tt, c1) ∧
       get_active_tokens c1 = (Ok l, sent c1 (db c1)) ∧
       ∀ r, r ∈ l → col r "id" ≠ VInt id).
Proof.
  intros Hf. split.
  - unfold update_token_status.
    pose proof (set_columns_run [("is_active", VBool false)] id c Hf) as Hrun.
    set (c1 := sent c _) in Hrun.
    assert (Hf1 : faults c1 = []) by (by subst c1; cbn; rewrite Hf).
    destruct (not_listed_when_unusable c1 id Hf1) as (l & Hl & Hnot).
    { intros r' Hin Hid (Hact & _). subst c1.
      cbn [db sent tokens set_tokens] in Hin.
      apply elem_of_updated_rows in Hin as (r & _ & Hsame & Hset & _);
        [|by apply (bool_decide_unpack _)].
      rewrite Hset in Hact by congruence.
      rewrite (col_assign_set _ _ _ (VBool false)) in Hact; [done| |].
      - apply (bool_decide_unpack _). by vm_compute.
      - apply list_elem_of_here. }
    exists c1, l. split; [|done]. apply Hrun. by apply (bool_decide_unpack _).
  - intros t Ht. unfold update_token_cooldown.
    pose proof (set_columns_run [("cooled_until", VTime t)] id c Hf) as Hrun.
    set (c1 := sent c _) in Hrun.
    assert (Hf1 : faults c1 = []) by (by subst c1; cbn; rewrite Hf).
    destruct (not_listed_when_unusable c1 id Hf1) as (l & Hl & Hnot).
    { intros r' Hin Hid (_ & Hcool & _). subst c1.
      cbn [db sent tokens set_tokens clock_now] in Hin, Hcool.
      apply elem_of_updated_rows in Hin as (r & _ & Hsame & Hset & _);
        [|by apply (bool_decide_unpack _)].
      rewrite Hset in Hcool by congruence.
      rewrite (col_assign_set _ _ _ (VTime t)) in Hcool.
      - destruct Hcool as [|Hpast]; [done|]. cbn in Hpast. lia.
      - apply (bool_decide_unpack _). by vm_compute.
      - apply list_elem_of_here. }
    exists c1, l. split; [|done]. apply Hrun. by apply (bool_decide_unpack _).
Qed.

Lemma out_of_rotation_witness :
  ∃ c1 l,
    update_token_cooldown 2 (VTime 1000) (connect pool_db []) = (Ok tt, c1) ∧
    get_active_tokens c1 = (Ok l, sent c1 (db c1)) ∧
    ∀ r, r ∈ l → col r "id" ≠ VInt 2.
Proof.
  destruct (out_of_rotation (connect pool_db []) 2 eq_refl) as [_ Hcool].
  apply (Hcool 1000). by vm_compute.
Defined.

(** X9. [update_token_sora2] writes all five columns with the arguments it
    is given: an [invite_code] of [None] (its default) erases the stored
    invite code, unlike the sparse [update_token]; the other columns and the
    other credentials are untouched. *)
Theorem update_token_sora2_overwrites (c : Conn) (id : Z) (supported : bool)
    (invite_code : val) (redeemed total remaining : Z) :
  faults c = [] →
  ∃ c',
    update_token_sora2 id supported invite_code redeemed total remaining c
      = (Ok tt, c') ∧
    ∀ k r,
      tokens (db c) !! k = Some r →
      ∃ r',
        tokens (db c') !! k = Some r' ∧
        (col r "id" ≠ VInt id → r' = r) ∧
        (col r "id" = VInt id →
         col r' "sora2_supported" = VBool supported ∧
         col r' "sora2_invite_code" = invite_code ∧
         col r' "sora2_redeemed_count" = VInt redeemed ∧
         col r' "sora2_total_count" = VInt total ∧
         col r' "sora2_remaining_count" = VInt remaining ∧
         ∀ column,
           column ∉ ["sora2_supported"; "sora2_invite_code";
                     "sora2_redeemed_count"; "sora2_total_count";
                     "sora2_remaining_count"] →
           r' !! column = r !! column).
Proof.
  intros Hf. unfold update_token_sora2.
  rewrite set_columns_run; [|done|by apply (bool_decide_unpack _)].
  eexists. split; [reflexivity|].
  intros k r Hk. cbn [db sent tokens set_tokens].
  set (fs := [("sora2_supported", VBool supported); _; _; _; _]).
  destruct (update_rows_lookup fs id _ k r Hk) as (r' & Hr' & Hframe & Hother & Hset).
  exists r'. split; [done|]. split; [done|]. intros Hid.
  assert (Hnd : NoDup fs.*1) by (apply (bool_decide_unpack _); by vm_compute).
  assert (Hcol : ∀ column v, (column, v) ∈ fs → col r' column = v).
  { intros column v Hin. unfold col. by rewrite (Hset Hnd Hid column v Hin). }
  repeat split; try (apply Hcol; subst fs; rewrite !elem_of_cons; by auto 10).
  intros column Hnot. by apply Hframe.
Qed.

Lemma update_token_sora2_overwrites_witness :
  ∃ c',
    update_token_sora2 1 true VNull 0 0 0 (connect pool_db []) = (Ok tt, c').
Proof.
  destruct (update_token_sora2_overwrites (connect pool_db []) 1 true VNull
              0 0 0 eq_refl) as (c' & Hrun & _).
  exists c'. exact Hrun.
Defined.

(** ** Error streak *)

Lemma update_stats_no_row tid set d :
  stats_where tid d = None → update_stats tid set d = d.
Proof.
  unfold stats_where, update_stats. intros Hnone.
  apply (head_filter_None (λ r, token_id r = tid)) in Hnone.
  assert (Hrows : (λ r, if bool_decide (token_id r = tid) then set r else r)
                    <$> token_stats d = token_stats d).
  { induction (token_stats d) as [|x l IH]; [done|].
    rewrite Exists_cons in Hnone. cbn.
    rewrite bool_decide_eq_false_2 by tauto. f_equal. apply IH. tauto. }
  rewrite Hrows. by destruct d.
Qed.

(** X10. For a credential without a stats row, the three increment methods
    and [reset_error_count] report success and change nothing: their
    [UPDATE] matches no row. *)
Theorem increment_without_stats_row (c : Conn) (tid : Z) (b : bool) :
  faults c = [] →
  stats_where tid (db c) = None →
  (∃ c', increment_image_count tid c = (Ok tt, c') ∧ db c' = db c) ∧
  (∃ c', increment_video_count tid c = (Ok tt, c') ∧ db c' = db c) ∧
  (∃ c', increment_error_count tid b c = (Ok tt, c') ∧ db c' = db c) ∧
  (∃ c', reset_error_count tid c = (Ok tt, c') ∧ db c' = db c).
Proof.
  intros Hf Hnone. healthy c Hf. cbn in Hnone.
  unfold increment_image_count, increment_video_count, increment_error_count,
    reset_error_count.
  repeat split; eexists;
    rewrite ?fetch_bind; cbn [faults db clock_now]; rewrite ?Hnone;
    cbn -[update_stats execute]; try destruct b;
    repeat (unfold mbind, M_bind, date_today; cbn -[update_stats execute]);
    rewrite execute_run; cbn -[update_stats];
    rewrite update_stats_no_row by done; split; reflexivity.
Qed.

Lemma increment_without_stats_row_witness :
  ∃ c', increment_error_count 9 true (connect pool_db []) = (Ok tt, c') ∧
        db c' = pool_db.
Proof.
  destruct (increment_without_stats_row (connect pool_db []) 9 true
              eq_refl eq_refl) as (_ & _ & Herr & _).
  exact Herr.
Defined.

(** X11. [reset_error_count] sets [consecutive_error_count] of the stats row
    to 0 and keeps every other field; an [increment_error_count] that counts
    toward the streak then leaves the streak at exactly 1, with
    [error_count] one above what it was. *)
Theorem reset_error_count_then_increment (c : Conn) (tid : Z) (r : TokenStats) :
  faults c = [] →
  stats_where tid (db c) = Some r →
  ∃ c1 c2 r1 r2,
    reset_error_count tid c = (Ok tt, c1) ∧
    stats_where tid (db c1) = Some r1 ∧
    consecutive_error_count r1 = 0 ∧
    error_count r1 = error_count r ∧
    today_error_count r1 = today_error_count r ∧
    today_date r1 = today_date r ∧ last_error_at r1 = last_error_at r ∧
    image_count r1 = image_count r ∧ video_count r1 = video_count r ∧
    today_image_count r1 = today_image_count r ∧
    today_video_count r1 = today_video_count r ∧
    tokens (db c1) = tokens (db c) ∧
    increment_error_count tid true c1 = (Ok tt, c2) ∧
    stats_where tid (db c2) = Some r2 ∧
    consecutive_error_count r2 = 1 ∧
    error_count r2 = error_count r + 1.
Proof.
  intros Hf Hr. healthy c Hf. cbn in Hr.
  unfold reset_error_count. rewrite execute_run. cbn [faults db clock_now].
  destruct (stale (Some (today_date r)) today) eqn:Hstale;
  eexists _, _, _, _; (split; [reflexivity|]).
  all: cbn [sent db]; (split; [by apply stats_where_update_stats|]).
  all: do 10 (split; [done|]).
  all: unfold increment_error_count; rewrite fetch_bind.
  all: cbn -[update_stats stats_where execute stale].
  all: erewrite stats_where_update_stats by done.
  all: cbn -[update_stats stats_where execute stale].
  all: repeat (unfold mbind, M_bind, date_today;
               cbn -[update_stats stats_where execute stale]).
  all: rewrite Hstale, execute_run; cbn -[update_stats stats_where].
  all: split; [reflexivity|].
  all: split; [apply stats_where_update_stats; [done|];
               by apply stats_where_update_stats|]; by cbn.
Qed.

Lemma reset_error_count_then_increment_witness :
  ∃ c1 c2 r1 r2,
    reset_error_count 1
      (connect (set_token_stats [stats_day20] 2 empty_db) []) = (Ok tt, c1) ∧
    stats_where 1 (db c1) = Some r1 ∧ consecutive_error_count r1 = 0 ∧
    increment_error_count 1 true c1 = (Ok tt, c2) ∧
    stats_where 1 (db c2) = Some r2 ∧ consecutive_error_count r2 = 1.
Proof.
  destruct (reset_error_count_then_increment
              (connect (set_token_stats [stats_day20] 2 empty_db) []) 1
              stats_day20 eq_refl eq_refl)
    as (c1 & c2 & r1 & r2 & H1 & H2 & H3 & _ & _ & _ & _ & _ & _ & _ & _ & _
        & H4 & H5 & H6 & _).
  exists c1, c2, r1, r2.
  split; [exact H1|]. split; [exact H2|]. split; [exact H3|].
  split; [exact H4|]. split; [exact H5|exact H6].
Defined.

(** ** Bootstrap of the configuration tables *)

Lemma bind_run {A B} (m : M A) (k : A → M B) c a c1 :
  m c = (Ok a, c1) → (m ≫= k) c = k a c1.
Proof. intros Hm. unfold mbind, M_bind. by rewrite Hm. Qed.

Lemma bind_Ok_inv {A B} (m : M A) (k : A → M B) c b c2 :
  (m ≫= k) c = (Ok b, c2) →
  ∃ a c1, m c = (Ok a, c1) ∧ k a c1 = (Ok b, c2).
Proof.
  unfold mbind, M_bind. destruct (m c) as [[a|e] c1]; [eauto|done].
Qed.

Lemma bind_state {A B} (m : M A) (k : A → M B) c :
  (∃ e, m c = (Raise e, (m c).2) ∧ ((m ≫= k) c).2 = (m c).2) ∨
  (∃ a, m c = (Ok a, (m c).2) ∧ (m ≫= k) c = k a (m c).2).
Proof.
  unfold mbind, M_bind. destruct (m c) as [[a|e] c1]; cbn; eauto.
Qed.

Lemma execute_cases (u : Z → Db → Res Db) c :
  (∃ e, execute u c = (Raise e, sent c (db c))) ∨
  (∃ d', u (clock_now c) (db c) = Ok d' ∧ execute u c = (Ok tt, sent c d')).
Proof.
  rewrite execute_run.
  destruct (faults c) as [|[] ?]; eauto;
    destruct (u (clock_now c) (db c)); eauto.
Qed.

Lemma kept_refl {A} (o : option A) : kept o o.
Proof. by intros r. Qed.

Lemma kept_None {A} (o : option A) : kept None o.
Proof. by intros r. Qed.

Lemma config_kept_refl cf : config_kept cf cf.
Proof. repeat split; apply kept_refl. Qed.

Lemma config_kept_trans cf1 cf2 cf3 :
  config_kept cf1 cf2 → config_kept cf2 cf3 → config_kept cf1 cf3.
Proof.
  unfold config_kept, kept. intros H1 H2.
  destruct H1 as (?&?&?&?&?&?&?&?), H2 as (?&?&?&?&?&?&?&?).
  repeat split; eauto.
Qed.

Lemma rows_kept_refl d : rows_kept d d.
Proof. repeat split; apply kept_refl. Qed.

Lemma rows_kept_trans d1 d2 d3 :
  rows_kept d1 d2 → rows_kept d2 d3 → rows_kept d1 d3.
Proof.
  intros (?&?&?&?&?&?) (?&?&?&?&?&?).
  do 5 (split; [congruence|]). by eapply config_kept_trans.
Qed.

Lemma rows_kept_bind {A B} (m : M A) (k : A → M B) c :
  rows_kept (db c) (db (m c).2) →
  (∀ a c1, rows_kept (db c1) (db (k a c1).2)) →
  rows_kept (db c) (db ((m ≫= k) c).2).
Proof.
  intros Hm Hk. destruct (bind_state m k c) as [(e & _ & ->)|(a & _ & ->)];
    [done|]. eapply rows_kept_trans; [exact Hm|apply Hk].
Qed.

(** The shape of every section of the bootstrap: count the rows, and insert
    when there is none. *)
Lemma ensure_section_kept {A} (table : Db → option A) (u : Z → Db → Res Db) c :
  (∀ now d d', table d = None → u now d = Ok d' → rows_kept d d') →
  rows_kept (db c)
    (db ((n ← fetch (λ _ d, count (table d));
          if bool_decide (n = 0) then execute u else mret tt) c).2).
Proof.
  intros Hu. rewrite fetch_bind.
  destruct (faults c) as [|[] fl] eqn:Hfl; try apply rows_kept_refl;
    (destruct (table (db c)) as [r|] eqn:Hrow; cbn [count];
     [rewrite bool_decide_eq_false_2 by done; apply rows_kept_refl|
      rewrite bool_decide_eq_true_2 by done]);
    (destruct (execute_cases u (sent c (db c))) as [(e & ->)|(d' & Hd' & ->)];
     [apply rows_kept_refl|cbn [snd db sent] in *; by eapply Hu]).
Qed.

Ltac invert_insert H :=
  unfold mbind, Res_bind, insert_row in H;
  repeat case_match; simplify_eq.

Lemma ensure_admin_config_kept cd c :
  rows_kept (db c) (db (ensure_admin_config cd c).2).
Proof.
  unfold ensure_admin_config.
  destruct (if dict_truthy cd then _ else _) as [[[[[[a1 a2] a3] a4] a5] a6] a7].
  apply (ensure_section_kept (λ d, admin_config (config d))).
  intros now d d' Hrow H. invert_insert H.
  repeat split; cbn; try apply kept_refl. intros r Hr. congruence.
Qed.

Lemma ensure_proxy_config_kept cd c :
  rows_kept (db c) (db (ensure_proxy_config cd c).2).
Proof.
  unfold ensure_proxy_config.
  destruct (if dict_truthy cd then _ else _) as [a1 a2].
  apply (ensure_section_kept (λ d, proxy_config (config d))).
  intros now d d' Hrow H. invert_insert H.
  repeat split; cbn; try apply kept_refl. intros r Hr. congruence.
Qed.

Lemma ensure_watermark_free_config_kept cd c :
  rows_kept (db c) (db (ensure_watermark_free_config cd c).2).
Proof.
  unfold ensure_watermark_free_config.
  destruct (if dict_truthy cd then _ else _) as [[[[a1 a2] a3] a4] a5].
  apply (ensure_section_kept (λ d, watermark_free_config (config d))).
  intros now d d' Hrow H. invert_insert H.
  repeat split; cbn; try apply kept_refl. intros r Hr. congruence.
Qed.

Lemma ensure_cache_config_kept cd c :
  rows_kept (db c) (db (ensure_cache_config cd c).2).
Proof.
  unfold ensure_cache_config.
  destruct (if dict_truthy cd then _ else _) as [[a1 a2] a3].
  apply (ensure_section_kept (λ d, cache_config (config d))).
  intros now d d' Hrow H. invert_insert H.
  repeat split; cbn; try apply kept_refl. intros r Hr. congruence.
Qed.

Lemma ensure_generation_config_kept cd c :
  rows_kept (db c) (db (ensure_generation_config cd c).2).
Proof.
  unfold ensure_generation_config.
  destruct (if dict_truthy cd then _ else _) as [a1 a2].
  apply (ensure_section_kept (λ d, generation_config (config d))).
  intros now d d' Hrow H. invert_insert H.
  repeat split; cbn; try apply kept_refl. intros r Hr. congruence.
Qed.

Lemma ensure_token_refresh_config_kept cd c :
  rows_kept (db c) (db (ensure_token_refresh_config cd c).2).
Proof.
  unfold ensure_token_refresh_config. cbv zeta.
  generalize (if dict_truthy cd
              then get (get_section cd "token_refresh")
                     "at_auto_refresh_enabled" (TBool false)
              else TBool false). intros enabled.
  apply (ensure_section_kept (λ d, token_refresh_config (config d))).
  intros now d d' Hrow H. invert_insert H.
  repeat split; cbn; try apply kept_refl. intros r Hr. congruence.
Qed.

Lemma ensure_call_logic_config_kept cd c :
  rows_kept (db c) (db (ensure_call_logic_config cd c).2).
Proof.
  unfold ensure_call_logic_config.
  destruct (normalize_call_mode cd) as [a1 a2].
  apply (ensure_section_kept (λ d, call_logic_config (config d))).
  intros now d d' Hrow H. invert_insert H.
  repeat split; cbn; try apply kept_refl. intros r Hr. congruence.
Qed.

Lemma ensure_pow_proxy_config_kept cd c :
  rows_kept (db c) (db (ensure_pow_proxy_config cd c).2).
Proof.
  unfold ensure_pow_proxy_config.
  destruct (if dict_truthy cd then _ else _) as [a1 a2].
  apply (ensure_section_kept (λ d, pow_proxy_config (config d))).
  intros now d d' Hrow H. invert_insert H.
  repeat split; cbn; try apply kept_refl. intros r Hr. congruence.
Qed.

Lemma ensure_config_rows_kept cd c :
  rows_kept (db c) (db (_ensure_config_rows cd c).2).
Proof.
  unfold _ensure_config_rows.
  apply rows_kept_bind; [apply ensure_admin_config_kept|intros ? ?].
  apply rows_kept_bind; [apply ensure_proxy_config_kept|intros ? ?].
  apply rows_kept_bind; [apply ensure_watermark_free_config_kept|intros ? ?].
  apply rows_kept_bind; [apply ensure_cache_config_kept|intros ? ?].
  apply rows_kept_bind; [apply ensure_generation_config_kept|intros ? ?].
  apply rows_kept_bind; [apply ensure_token_refresh_config_kept|intros ? ?].
  apply rows_kept_bind; [apply ensure_call_logic_config_kept|intros ? ?].
  apply ensure_pow_proxy_config_kept.
Qed.

(** X12. Whatever the overrides and whatever statements fail, the bootstrap
    changes no configuration row that is already there, and touches neither
    the credential tables nor the catalog. *)
Theorem ensure_config_rows_keeps_rows (config_dict : option ConfigDict)
    (c : Conn) (first : bool) :
  rows_kept (db c) (db (_ensure_config_rows config_dict c).2) ∧
  rows_kept (db c) (db (init_config_from_toml config_dict first c).2).
Proof.
  split; [apply ensure_config_rows_kept|].
  unfold init_config_from_toml. destruct first; apply ensure_config_rows_kept.
Qed.

Lemma ensure_section_present {A} (table : Db → option A) (u : Z → Db → Res Db) c :
  faults c = [] → is_Some (table (db c)) →
  (n ← fetch (λ _ d, count (table d));
   if bool_decide (n = 0) then execute u else mret tt) c
  = (Ok tt, sent c (db c)).
Proof.
  intros Hf [r Hr]. rewrite fetch_bind, Hf, Hr. cbn [count].
  by rewrite bool_decide_eq_false_2.
Qed.

Lemma ensure_section_default {A} (table : Db → option A)
    (u : Z → Db → Res Db) (put : option A → Db → Db) (r : Z → A) c :
  faults c = [] →
  (∀ now d, table d = None → u now d = Ok (put (Some (r now)) d)) →
  (∀ d x, table d = Some x → put (Some x) d = d) →
  ∃ c',
    (n ← fetch (λ _ d, count (table d));
     if bool_decide (n = 0) then execute u else mret tt) c = (Ok tt, c') ∧
    faults c' = [] ∧ clock_now c' = clock_now c ∧
    db c' = put (from_option Some (Some (r (clock_now c))) (table (db c))) (db c).
Proof.
  intros Hf Hu Hput. destruct (table (db c)) as [x|] eqn:Hrow.
  - rewrite ensure_section_present by (by rewrite ?Hrow).
    eexists. split; [reflexivity|]. cbn. rewrite Hf. repeat split.
    by rewrite Hput.
  - rewrite fetch_bind, Hf, Hrow. cbn [count].
    rewrite bool_decide_eq_true_2 by done. rewrite execute_run.
    cbn [sent faults db clock_now]. rewrite Hf. cbn [tail].
    rewrite Hu by done. eexists. split; [reflexivity|].
    cbn. by rewrite Hf.
Qed.

Lemma ensure_section_Ok {A} (table : Db → option A) (u : Z → Db → Res Db) c c' :
  (n ← fetch (λ _ d, count (table d));
   if bool_decide (n = 0) then execute u else mret tt) c = (Ok tt, c') →
  (∀ now d d', u now d = Ok d' → is_Some (table d')) →
  is_Some (table (db c')).
Proof.
  rewrite fetch_bind. intros Hrun Hu.
  destruct (faults c) as [|[] fl] eqn:Hfl; try discriminate;
    (destruct (table (db c)) as [r|] eqn:Hrow; cbn [count] in Hrun;
     [rewrite bool_decide_eq_false_2 in Hrun by done;
      injection Hrun as <-; cbn; by rewrite Hrow|
      rewrite bool_decide_eq_true_2 in Hrun by done]);
    (destruct (execute_cases u (sent c (db c))) as [(e & He)|(d' & Hd' & He)];
     rewrite He in Hrun; [discriminate|]; injection Hrun as <-; cbn;
     by eapply Hu).
Qed.

Ltac section_Ok H :=
  eapply ensure_section_Ok in H; [exact H|];
  let Hu := fresh in
  intros ? ? ? Hu; invert_insert Hu; by cbn.

Lemma ensure_config_rows_Ok_complete cd c c' :
  _ensure_config_rows cd c = (Ok tt, c') → config_complete (config (db c')).
Proof.
  unfold _ensure_config_rows. intros Hrun.
  apply bind_Ok_inv in Hrun as ([] & c1 & H1 & Hrun).
  apply bind_Ok_inv in Hrun as ([] & c2 & H2 & Hrun).
  apply bind_Ok_inv in Hrun as ([] & c3 & H3 & Hrun).
  apply bind_Ok_inv in Hrun as ([] & c4 & H4 & Hrun).
  apply bind_Ok_inv in Hrun as ([] & c5 & H5 & Hrun).
  apply bind_Ok_inv in Hrun as ([] & c6 & H6 & Hrun).
  apply bind_Ok_inv in Hrun as ([] & c7 & H7 & H8).
  pose proof (ensure_proxy_config_kept cd c1) as K2. rewrite H2 in K2.
  pose proof (ensure_watermark_free_config_kept cd c2) as K3. rewrite H3 in K3.
  pose proof (ensure_cache_config_kept cd c3) as K4. rewrite H4 in K4.
  pose proof (ensure_generation_config_kept cd c4) as K5. rewrite H5 in K5.
  pose proof (ensure_token_refresh_config_kept cd c5) as K6. rewrite H6 in K6.
  pose proof (ensure_call_logic_config_kept cd c6) as K7. rewrite H7 in K7.
  pose proof (ensure_pow_proxy_config_kept cd c7) as K8. rewrite H8 in K8.
  cbn [snd] in *.
  assert (S1 : is_Some (admin_config (config (db c1)))).
  { unfold ensure_admin_config in H1.
    destruct (if dict_truthy cd then _ else _)
      as [[[[[[a1 a2] a3] a4] a5] a6] a7] in H1.
    section_Ok H1. }
  assert (S2 : is_Some (proxy_config (config (db c2)))).
  { unfold ensure_proxy_config in H2.
    destruct (if dict_truthy cd then _ else _) as [a1 a2] in H2.
    section_Ok H2. }
  assert (S3 : is_Some (watermark_free_config (config (db c3)))).
  { unfold ensure_watermark_free_config in H3.
    destruct (if dict_truthy cd then _ else _) as [[[[a1 a2] a3] a4] a5] in H3.
    section_Ok H3. }
  assert (S4 : is_Some (cache_config (config (db c4)))).
  { unfold ensure_cache_config in H4.
    destruct (if dict_truthy cd then _ else _) as [[a1 a2] a3] in H4.
    section_Ok H4. }
  assert (S5 : is_Some (generation_config (config (db c5)))).
  { unfold ensure_generation_config in H5.
    destruct (if dict_truthy cd then _ else _) as [a1 a2] in H5.
    section_Ok H5. }
  assert (S6 : is_Some (token_refresh_config (config (db c6)))).
  { unfold ensure_token_refresh_config in H6. cbv zeta in H6.
    section_Ok H6. }
  assert (S7 : is_Some (call_logic_config (config (db c7)))).
  { unfold ensure_call_logic_config in H7.
    destruct (normalize_call_mode cd) as [a1 a2] in H7.
    section_Ok H7. }
  assert (S8 : is_Some (pow_proxy_config (config (db c')))).
  { unfold ensure_pow_proxy_config in H8.
    destruct (if dict_truthy cd then _ else _) as [a1 a2] in H8.
    section_Ok H8. }
  assert (K : ∀ d d', rows_kept d d' → config_kept (config d) (config d'))
    by (by intros d d' (_ & _ & _ & _ & _ & ?)).
  apply K in K2, K3, K4, K5, K6, K7, K8.
  assert (Hk : ∀ A (o o' : option A), kept o o' → is_Some o → is_Some o')
    by (intros A o o' Hk [x Hx]; exists x; by apply Hk).
  destruct K2 as (?&?&?&?&?&?&?&?), K3 as (?&?&?&?&?&?&?&?),
    K4 as (?&?&?&?&?&?&?&?), K5 as (?&?&?&?&?&?&?&?),
    K6 as (?&?&?&?&?&?&?&?), K7 as (?&?&?&?&?&?&?&?),
    K8 as (?&?&?&?&?&?&?&?).
  repeat split; eauto 12.
Qed.

Lemma sent_healthy c : faults c = [] → faults (sent c (db c)) = [].
Proof. intros Hf. cbn. by rewrite Hf. Qed.

Lemma present_step {A B} (table : Db → option A) (u : Z → Db → Res Db)
    (k : unit → M B) c :
  faults c = [] → is_Some (table (db c)) →
  ((n ← fetch (λ _ d, count (table d));
    if bool_decide (n = 0) then execute u else mret tt) ≫= k) c
  = k tt (sent c (db c)).
Proof. intros Hf Hs. by erewrite bind_run by (by apply ensure_section_present). Qed.

Lemma ensure_config_rows_complete_noop cd c :
  faults c = [] → config_complete (config (db c)) →
  ∃ c', _ensure_config_rows cd c = (Ok tt, c') ∧ db c' = db c ∧
        faults c' = [].
Proof.
  intros Hf (S1 & S2 & S3 & S4 & S5 & S6 & S7 & S8).
  unfold _ensure_config_rows.
  unfold ensure_admin_config.
  destruct (if dict_truthy cd then _ else _)
    as [[[[[[a1 a2] a3] a4] a5] a6] a7].
  rewrite (present_step (λ d, admin_config (config d)))
    by (repeat apply sent_healthy; assumption).
  unfold ensure_proxy_config.
  destruct (if dict_truthy cd then _ else _) as [b1 b2].
  rewrite (present_step (λ d, proxy_config (config d)))
    by (repeat apply sent_healthy; assumption).
  unfold ensure_watermark_free_config.
  destruct (if dict_truthy cd then _ else _) as [[[[d1 d2] d3] d4] d5].
  rewrite (present_step (λ d, watermark_free_config (config d)))
    by (repeat apply sent_healthy; assumption).
  unfold ensure_cache_config.
  destruct (if dict_truthy cd then _ else _) as [[e1 e2] e3].
  rewrite (present_step (λ d, cache_config (config d)))
    by (repeat apply sent_healthy; assumption).
  unfold ensure_generation_config.
  destruct (if dict_truthy cd then _ else _) as [f1 f2].
  rewrite (present_step (λ d, generation_config (config d)))
    by (repeat apply sent_healthy; assumption).
  unfold ensure_token_refresh_config. cbv zeta.
  rewrite (present_step (λ d, token_refresh_config (config d)))
    by (repeat apply sent_healthy; assumption).
  unfold ensure_call_logic_config.
  destruct (normalize_call_mode cd) as [g1 g2].
  rewrite (present_step (λ d, call_logic_config (config d)))
    by (repeat apply sent_healthy; assumption).
  unfold ensure_pow_proxy_config.
  destruct (if dict_truthy cd then _ else _) as [h1 h2].
  rewrite (ensure_section_present (λ d, pow_proxy_config (config d)))
    by (repeat apply sent_healthy; assumption).
  eexists. split; [reflexivity|]. split; [reflexivity|].
  by repeat apply sent_healthy.
Qed.

(** X13. The bootstrap is idempotent.  After a run that succeeded, whatever
    its overrides, all eight singleton rows exist, and a later run on a
    connection that serves its statements, whatever its own overrides,
    succeeds and changes nothing. *)
Theorem ensure_config_rows_idempotent (cd1 cd2 : option ConfigDict)
    (c c1 : Conn) :
  _ensure_config_rows cd1 c = (Ok tt, c1) →
  faults c1 = [] →
  config_complete (config (db c1)) ∧
  ∃ c2, _ensure_config_rows cd2 c1 = (Ok tt, c2) ∧ db c2 = db c1.
Proof.
  intros Hrun Hf. apply ensure_config_rows_Ok_complete in Hrun.
  split; [done|].
  destruct (ensure_config_rows_complete_noop cd2 c1 Hf Hrun) as (c2 & ? & ? & _).
  eauto.
Qed.

Lemma ensure_config_rows_idempotent_witness :
  config_complete
    (config (db (_ensure_config_rows (Some legacy_polling)
                   (connect empty_db [])).2)) ∧
  ∃ c2,
    _ensure_config_rows None
      (_ensure_config_rows (Some legacy_polling) (connect empty_db [])).2
      = (Ok tt, c2) ∧
    db c2 = db (_ensure_config_rows (Some legacy_polling)
                  (connect empty_db [])).2.
Proof.
  apply (ensure_config_rows_idempotent (Some legacy_polling) None
           (connect empty_db [])); by vm_compute.
Defined.

Ltac default_section table put r :=
  cbn [dict_truthy normalize_call_mode]; cbv zeta;
  apply (ensure_section_default table _ put r);
  [ assumption
  | let Hrow := fresh in
    intros ? ? Hrow; cbn; unfold mbind, Res_bind, insert_row, int4; cbn;
    rewrite ?bool_decide_eq_true_2 by lia;
    by rewrite Hrow
  | let Hrow := fresh in
    let cf := fresh "cf" in
    intros [? ? ? ? cf ?] ? Hrow; cbn in Hrow |- *; rewrite <- Hrow;
    destruct cf; reflexivity ].

Lemma ensure_admin_config_default c :
  faults c = [] →
  ∃ c',
    ensure_admin_config None c = (Ok tt, c') ∧
    faults c' = [] ∧ clock_now c' = clock_now c ∧
    db c' =
      set_config
        (set_admin_config
           (from_option Some (admin_config (hard_defaults (clock_now c)))
              (admin_config (config (db c))))
           (config (db c)))
        (db c).
Proof.
  intros Hf. unfold ensure_admin_config.
  default_section
    (λ d, admin_config (config d))
    (λ t d, set_config (set_admin_config t (config d)) d)
    (λ now, {| admin_username := "admin"; admin_password := "admin";
                 api_key := "han1234"; error_ban_threshold := 3;
                 task_retry_enabled := true; task_max_retries := 3;
                 auto_disable_on_401 := true; admin_updated_at := now |}).
Qed.

Lemma ensure_proxy_config_default c :
  faults c = [] →
  ∃ c',
    ensure_proxy_config None c = (Ok tt, c') ∧
    faults c' = [] ∧ clock_now c' = clock_now c ∧
    db c' =
      set_config
        (set_proxy_config
           (from_option Some (proxy_config (hard_defaults (clock_now c)))
              (proxy_config (config (db c))))
           (config (db c)))
        (db c).
Proof.
  intros Hf. unfold ensure_proxy_config.
  default_section
    (λ d, proxy_config (config d))
    (λ t d, set_config (set_proxy_config t (config d)) d)
    (λ now, {| proxy_enabled := false; proxy_url := None;
                 proxy_updated_at := now |}).
Qed.

Lemma ensure_watermark_free_config_default c :
  faults c = [] →
  ∃ c',
    ensure_watermark_free_config None c = (Ok tt, c') ∧
    faults c' = [] ∧ clock_now c' = clock_now c ∧
    db c' =
      set_config
        (set_watermark_free_config
           (from_option Some (watermark_free_config (hard_defaults (clock_now c)))
              (watermark_free_config (config (db c))))
           (config (db c)))
        (db c).
Proof.
  intros Hf. unfold ensure_watermark_free_config.
  default_section
    (λ d, watermark_free_config (config d))
    (λ t d, set_config (set_watermark_free_config t (config d)) d)
    (λ now, {| watermark_free_enabled := false;
                 parse_method := "third_party"; custom_parse_url := None;
                 custom_parse_token := None; fallback_on_failure := true;
                 watermark_updated_at := now |}).
Qed.

Lemma ensure_cache_config_default c :
  faults c = [] →
  ∃ c',
    ensure_cache_config None c = (Ok tt, c') ∧
    faults c' = [] ∧ clock_now c' = clock_now c ∧
    db c' =
      set_config
        (set_cache_config
           (from_option Some (cache_config (hard_defaults (clock_now c)))
              (cache_config (config (db c))))
           (config (db c)))
        (db c).
Proof.
  intros Hf. unfold ensure_cache_config.
  default_section
    (λ d, cache_config (config d))
    (λ t d, set_config (set_cache_config t (config d)) d)
    (λ now, {| cache_enabled := false; cache_timeout := 600;
                 cache_base_url := None; cache_updated_at := now |}).
Qed.

Lemma ensure_generation_config_default c :
  faults c = [] →
  ∃ c',
    ensure_generation_config None c = (Ok tt, c') ∧
    faults c' = [] ∧ clock_now c' = clock_now c ∧
    db c' =
      set_config
        (set_generation_config
           (from_option Some (generation_config (hard_defaults (clock_now c)))
              (generation_config (config (db c))))
           (config (db c)))
        (db c).
Proof.
  intros Hf. unfold ensure_generation_config.
  default_section
    (λ d, generation_config (config d))
    (λ t d, set_config (set_generation_config t (config d)) d)
    (λ now, {| image_timeout := 300; video_timeout := 3000;
                 generation_updated_at := now |}).
Qed.

Lemma ensure_token_refresh_config_default c :
  faults c = [] →
  ∃ c',
    ensure_token_refresh_config None c = (Ok tt, c') ∧
    faults c' = [] ∧ clock_now c' = clock_now c ∧
    db c' =
      set_config
        (set_token_refresh_config
           (from_option Some (token_refresh_config (hard_defaults (clock_now c)))
              (token_refresh_config (config (db c))))
           (config (db c)))
        (db c).
Proof.
  intros Hf. unfold ensure_token_refresh_config.
  default_section
    (λ d, token_refresh_config (config d))
    (λ t d, set_config (set_token_refresh_config t (config d)) d)
    (λ now, {| at_auto_refresh_enabled := false;
                 token_refresh_updated_at := now |}).
Qed.

Lemma ensure_call_logic_config_default c :
  faults c = [] →
  ∃ c',
    ensure_call_logic_config None c = (Ok tt, c') ∧
    faults c' = [] ∧ clock_now c' = clock_now c ∧
    db c' =
      set_config
        (set_call_logic_config
           (from_option Some (call_logic_config (hard_defaults (clock_now c)))
              (call_logic_config (config (db c))))
           (config (db c)))
        (db c).
Proof.
  intros Hf. unfold ensure_call_logic_config.
  default_section
    (λ d, call_logic_config (config d))
    (λ t d, set_config (set_call_logic_config t (config d)) d)
    (λ now, {| call_mode := "default"; polling_mode_enabled := false;
                 call_logic_updated_at := now |}).
Qed.

Lemma ensure_pow_proxy_config_default c :
  faults c = [] →
  ∃ c',
    ensure_pow_proxy_config None c = (Ok tt, c') ∧
    faults c' = [] ∧ clock_now c' = clock_now c ∧
    db c' =
      set_config
        (set_pow_proxy_config
           (from_option Some (pow_proxy_config (hard_defaults (clock_now c)))
              (pow_proxy_config (config (db c))))
           (config (db c)))
        (db c).
Proof.
  intros Hf. unfold ensure_pow_proxy_config.
  default_section
    (λ d, pow_proxy_config (config d))
    (λ t d, set_config (set_pow_proxy_config t (config d)) d)
    (λ now, {| pow_proxy_enabled := false; pow_proxy_url := None;
                 pow_proxy_updated_at := now |}).
Qed.

(** X14. In upgrade mode ([is_first_startup = False]) the overrides are not
    looked at: on a connection that serves its statements the bootstrap
    succeeds, every configuration row that was there is kept, and every
    missing one is created with the hard defaults, stamped with the
    server's clock. *)
Theorem upgrade_mode_fills_hard_defaults (config_dict : option ConfigDict)
    (c : Conn) :
  faults c = [] →
  ∃ c',
    init_config_from_toml config_dict false c = (Ok tt, c') ∧
    config (db c') =
      fill_missing (config (db c)) (hard_defaults (clock_now c)) ∧
    tokens (db c') = tokens (db c) ∧
    token_stats (db c') = token_stats (db c).
Proof.
  intros Hf. unfold init_config_from_toml, _ensure_config_rows.
  destruct (ensure_admin_config_default c Hf) as (c1 & H1 & Hf1 & Hn1 & Hd1).
  destruct (ensure_proxy_config_default c1 Hf1) as (c2 & H2 & Hf2 & Hn2 & Hd2).
  destruct (ensure_watermark_free_config_default c2 Hf2)
    as (c3 & H3 & Hf3 & Hn3 & Hd3).
  destruct (ensure_cache_config_default c3 Hf3) as (c4 & H4 & Hf4 & Hn4 & Hd4).
  destruct (ensure_generation_config_default c4 Hf4)
    as (c5 & H5 & Hf5 & Hn5 & Hd5).
  destruct (ensure_token_refresh_config_default c5 Hf5)
    as (c6 & H6 & Hf6 & Hn6 & Hd6).
  destruct (ensure_call_logic_config_default c6 Hf6)
    as (c7 & H7 & Hf7 & Hn7 & Hd7).
  destruct (ensure_pow_proxy_config_default c7 Hf7)
    as (c8 & H8 & Hf8 & Hn8 & Hd8).
  exists c8. split.
  { rewrite (bind_run _ _ _ _ _ H1), (bind_run _ _ _ _ _ H2),
      (bind_run _ _ _ _ _ H3), (bind_run _ _ _ _ _ H4),
      (bind_run _ _ _ _ _ H5), (bind_run _ _ _ _ _ H6),
      (bind_run _ _ _ _ _ H7). exact H8. }
  rewrite Hd8, Hn7, Hd7, Hn6, Hd6, Hn5, Hd5, Hn4, Hd4, Hn3, Hd3, Hn2, Hd2,
    Hn1, Hd1.
  destruct (db c) as [tk ts st ss cf cat]. destruct cf. cbn.
  repeat split.
Qed.

Lemma upgrade_mode_fills_hard_defaults_witness :
  ∃ c',
    init_config_from_toml (Some legacy_polling) false (connect proxy_db [])
      = (Ok tt, c') ∧
    config (db c') = fill_missing (config proxy_db) (hard_defaults 1000).
Proof.
  destruct (upgrade_mode_fills_hard_defaults (Some legacy_polling)
              (connect proxy_db []) eq_refl) as (c' & Hrun & Hcf & _).
  exists c'. split; [exact Hrun|exact Hcf].
Defined.

(** ** Updating the configuration tables *)

Lemma set_config_same d : set_config (config d) d = d.
Proof. by destruct d. Qed.

Lemma set_proxy_config_same cf : set_proxy_config (proxy_config cf) cf = cf.
Proof. by destruct cf. Qed.

Lemma set_watermark_free_config_same cf :
  set_watermark_free_config (watermark_free_config cf) cf = cf.
Proof. by destruct cf. Qed.

Lemma set_cache_config_same cf : set_cache_config (cache_config cf) cf = cf.
Proof. by destruct cf. Qed.

Lemma set_admin_config_same cf : set_admin_config (admin_config cf) cf = cf.
Proof. by destruct cf. Qed.

Lemma set_generation_config_same cf :
  set_generation_config (generation_config cf) cf = cf.
Proof. by destruct cf. Qed.

Lemma set_token_refresh_config_same cf :
  set_token_refresh_config (token_refresh_config cf) cf = cf.
Proof. by destruct cf. Qed.

(** X15. An update of a configuration table that has no row is lost:
    [update_proxy_config], [update_watermark_free_config] and
    [update_token_refresh_config] report success and store nothing, and
    [update_admin_config], [update_cache_config] and
    [update_generation_config] store nothing either, whatever they report:
    their [UPDATE ... WHERE id = 1] matches no row and none of them
    inserts. *)
Theorem update_without_row_is_lost (c : Conn) (enabled : bool)
    (url method token : option string) (fallback : option bool)
    (cfg : AdminConfig) (cache_on : option bool) (timeout image video : option Z) :
  faults c = [] →
  (proxy_config (config (db c)) = None →
   update_proxy_config enabled url c = (Ok tt, sent c (db c))) ∧
  (watermark_free_config (config (db c)) = None →
   update_watermark_free_config enabled method url token fallback c
     = (Ok tt, sent c (db c))) ∧
  (token_refresh_config (config (db c)) = None →
   update_token_refresh_config enabled c = (Ok tt, sent c (db c))) ∧
  (admin_config (config (db c)) = None →
   db (update_admin_config cfg c).2 = db c) ∧
  (cache_config (config (db c)) = None →
   db (update_cache_config cache_on timeout url c).2 = db c) ∧
  (generation_config (config (db c)) = None →
   db (update_generation_config image video c).2 = db c).
Proof.
  intros Hf. healthy c Hf. cbn [db].
  repeat split; intros Hrow.
  - unfold update_proxy_config. rewrite execute_run. cbn [faults db clock_now].
    rewrite Hrow. cbn [update_row fmap option_fmap option_map].
    by rewrite <- Hrow, set_proxy_config_same, set_config_same.
  - unfold update_watermark_free_config.
    case_bool_decide; rewrite execute_run; cbn [faults db clock_now];
      rewrite Hrow; cbn [update_row fmap option_fmap option_map];
      by rewrite <- Hrow, set_watermark_free_config_same, set_config_same.
  - unfold update_token_refresh_config. rewrite execute_run.
    cbn [faults db clock_now].
    rewrite Hrow. cbn [update_row fmap option_fmap option_map].
    by rewrite <- Hrow, set_token_refresh_config_same, set_config_same.
  - unfold update_admin_config. rewrite execute_run. cbn [faults db clock_now].
    unfold mbind, Res_bind.
    destruct (int4 (error_ban_threshold cfg)); [|done].
    destruct (int4 (task_max_retries cfg)); [|done].
    rewrite Hrow. cbn [update_row fmap option_fmap option_map snd sent db].
    by rewrite <- Hrow, set_admin_config_same, set_config_same.
  - unfold update_cache_config. rewrite fetch_bind. cbn [faults db clock_now].
    rewrite Hrow. cbv beta iota zeta. rewrite execute_run.
    cbn [faults sent tail db clock_now].
    unfold mbind, Res_bind. destruct (int4 _); [|done].
    rewrite Hrow. cbn [update_row fmap option_fmap option_map snd sent db].
    by rewrite <- Hrow, set_cache_config_same, set_config_same.
  - unfold update_generation_config. rewrite fetch_bind.
    cbn [faults db clock_now].
    rewrite Hrow. cbv beta iota zeta. rewrite execute_run.
    cbn [faults sent tail db clock_now].
    unfold mbind, Res_bind. destruct (int4 _); [|done].
    destruct (int4 _); [|done].
    rewrite Hrow. cbn [update_row fmap option_fmap option_map snd sent db].
    by rewrite <- Hrow, set_generation_config_same, set_config_same.
Qed.

Lemma update_without_row_is_lost_witness :
  update_proxy_config true (Some "http://proxy:8080") (connect empty_db [])
    = (Ok tt, sent (connect empty_db []) empty_db).
Proof.
  apply (update_without_row_is_lost (connect empty_db []) true
           (Some "http://proxy:8080") None None None
           {| admin_username := "a"; admin_password := "b"; api_key := "k";
              error_ban_threshold := 3; task_retry_enabled := true;
              task_max_retries := 3; auto_disable_on_401 := true;
              admin_updated_at := 0 |} None None None None eq_refl).
  reflexivity.
Defined.

(** X16. [update_pow_proxy_config] and [update_call_logic_config] write
    their row whether it exists or not, and the matching getter reads back
    what was written: the two arguments for the POW proxy, and for the call
    logic the mode ["polling"] exactly when the argument was ["polling"],
    else ["default"], with the boolean to match. *)
Theorem upsert_then_get (c : Conn) (enabled : bool) (url : option string)
    (mode : string) :
  faults c = [] →
  (∃ c1 c2,
     update_pow_proxy_config enabled url c = (Ok tt, c1) ∧
     get_pow_proxy_config c1 = (Ok (enabled, url), c2)) ∧
  (∃ c1 c2,
     update_call_logic_config mode c = (Ok tt, c1) ∧
     get_call_logic_config c1 =
       (Ok (if String.eqb mode "polling" then "polling" else "default",
            String.eqb mode "polling"), c2)).
Proof.
  intros Hf. healthy c Hf. split.
  - unfold update_pow_proxy_config, get_pow_proxy_config.
    rewrite fetch_bind. cbn [faults db clock_now].
    destruct (pow_proxy_config (config d)) as [r0|] eqn:Hrow; cbn [count].
    + rewrite bool_decide_eq_false_2 by done. rewrite execute_run.
      cbn [sent faults tail db clock_now]. rewrite Hrow.
      eexists _, _. split; [reflexivity|].
      rewrite fetch_bind. cbn. reflexivity.
    + rewrite bool_decide_eq_true_2 by done. rewrite execute_run.
      cbn [sent faults tail db clock_now]. rewrite Hrow.
      eexists _, _. split; [reflexivity|].
      rewrite fetch_bind. cbn. reflexivity.
  - unfold update_call_logic_config, get_call_logic_config. cbv zeta.
    rewrite fetch_bind. cbn [faults db clock_now].
    destruct (call_logic_config (config d)) as [r0|] eqn:Hrow; cbn [count].
    + rewrite bool_decide_eq_false_2 by done. rewrite execute_run.
      cbn [sent faults tail db clock_now]. rewrite Hrow.
      destruct (String.eqb mode "polling");
        (eexists _, _; split; [reflexivity|]); rewrite fetch_bind; cbn;
        reflexivity.
    + rewrite bool_decide_eq_true_2 by done. rewrite execute_run.
      cbn [sent faults tail db clock_now]. rewrite Hrow.
      destruct (String.eqb mode "polling");
        (eexists _, _; split; [reflexivity|]); rewrite fetch_bind; cbn;
        reflexivity.
Qed.

Lemma upsert_then_get_witness :
  ∃ c1 c2,
    update_call_logic_config "Polling" (connect empty_db []) = (Ok tt, c1) ∧
    get_call_logic_config c1 = (Ok ("default", false), c2).
Proof.
  destruct (upsert_then_get (connect empty_db []) true None "Polling" eq_refl)
    as [_ (c1 & c2 & H1 & H2)].
  exists c1, c2. split; [exact H1|exact H2].
Defined.

(** X17. [update_cache_config] on an existing row is a sparse update: an
    argument left out keeps the stored value, the timestamp is refreshed,
    and an empty [base_url] clears the stored one (to [NULL]), while a
    stored value that is itself empty is cleared when no [base_url] is
    given. *)
Theorem update_cache_config_sparse (c : Conn) (cur : CacheConfig)
    (enabled : option bool) (timeout : option Z) (base_url : option string) :
  faults c = [] →
  cache_config (config (db c)) = Some cur →
  -2147483648 ≤ default (cache_timeout cur) timeout ≤ 2147483647 →
  ∃ c' r,
    update_cache_config enabled timeout base_url c = (Ok tt, c') ∧
    cache_config (config (db c')) = Some r ∧
    cache_enabled r = default (cache_enabled cur) enabled ∧
    cache_timeout r = default (cache_timeout cur) timeout ∧
    cache_updated_at r = clock_now c ∧
    (∀ u, base_url = Some u → u ≠ "" → cache_base_url r = Some u) ∧
    (base_url = Some "" → cache_base_url r = None) ∧
    (base_url = None →
     cache_base_url r =
       if bool_decide (cache_base_url cur = Some "") then None
       else cache_base_url cur).
Proof.
  intros Hf Hrow Hrange. healthy c Hf. cbn [db clock_now] in *.
  unfold update_cache_config. rewrite fetch_bind. cbn [faults db clock_now].
  rewrite Hrow. cbv beta iota zeta. rewrite execute_run.
  cbn [faults sent tail db clock_now]. unfold int4.
  rewrite bool_decide_eq_true_2 by done. cbn [mbind Res_bind].
  rewrite Hrow. cbn [update_row fmap option_fmap option_map].
  eexists _, _. split; [reflexivity|]. cbn.
  split; [reflexivity|]. do 3 (split; [reflexivity|]).
  split; [|split].
  - intros u -> Hu. apply String.eqb_neq in Hu. by rewrite Hu.
  - by intros ->.
  - intros ->. destruct (cache_base_url cur) as [u|]; [|done].
    destruct (String.eqb u "") eqn:Hu.
    + apply String.eqb_eq in Hu. subst u. by rewrite bool_decide_eq_true_2.
    + apply String.eqb_neq in Hu. rewrite bool_decide_eq_false_2; [done|].
      congruence.
Qed.

Lemma update_cache_config_sparse_witness :
  ∃ c' r,
    update_cache_config None (Some 900) (Some "")
      (connect (set_config
                  (set_cache_config
                     (Some {| cache_enabled := true; cache_timeout := 600;
                              cache_base_url := Some "http://cdn";
                              cache_updated_at := 5 |})
                     no_config) empty_db) []) = (Ok tt, c') ∧
    cache_config (config (db c')) = Some r ∧
    cache_enabled r = true ∧ cache_timeout r = 900 ∧ cache_base_url r = None.
Proof.
  destruct (update_cache_config_sparse
              (connect (set_config
                  (set_cache_config
                     (Some {| cache_enabled := true; cache_timeout := 600;
                              cache_base_url := Some "http://cdn";
                              cache_updated_at := 5 |})
                     no_config) empty_db) [])
              {| cache_enabled := true; cache_timeout := 600;
                 cache_base_url := Some "http://cdn"; cache_updated_at := 5 |}
              None (Some 900) (Some "") eq_refl eq_refl)
    as (c' & r & Hrun & Hr & He & Ht & _ & _ & Hu & _).
  { cbn. lia. }
  exists c', r. repeat split; try assumption. by apply Hu.
Defined.

(** X18. [update_watermark_free_config] is not a sparse update: with only
    [enabled] given the other columns are kept, but as soon as one of the
    optional arguments is given every column is overwritten, so an argument
    left out resets its column ([parse_method] to ["third_party"], the URL
    and the token to [NULL], [fallback_on_failure] to true) instead of
    keeping it. *)
Theorem update_watermark_free_config_overwrites (c : Conn)
    (cur : WatermarkFreeConfig) (enabled : bool)
    (method url token : option string) (fallback : option bool) :
  faults c = [] →
  watermark_free_config (config (db c)) = Some cur →
  ∃ c' r,
    update_watermark_free_config enabled method url token fallback c
      = (Ok tt, c') ∧
    watermark_free_config (config (db c')) = Some r ∧
    watermark_free_enabled r = enabled ∧
    (method = None ∧ url = None ∧ token = None ∧ fallback = None →
     parse_method r = parse_method cur ∧
     custom_parse_url r = custom_parse_url cur ∧
     custom_parse_token r = custom_parse_token cur ∧
     fallback_on_failure r = fallback_on_failure cur) ∧
    (¬ (method = None ∧ url = None ∧ token = None ∧ fallback = None) →
     parse_method r = str_or method "third_party" ∧
     custom_parse_url r = url ∧
     custom_parse_token r = token ∧
     fallback_on_failure r = default true fallback).
Proof.
  intros Hf Hrow. healthy c Hf. cbn [db clock_now] in *.
  unfold update_watermark_free_config.
  case_bool_decide as Hall; rewrite execute_run; cbn [faults db clock_now];
    rewrite Hrow; cbn [update_row fmap option_fmap option_map];
    (eexists _, _; split; [reflexivity|]); cbn;
    (split; [reflexivity|]); (split; [reflexivity|]); split; intros H;
    first [done | by destruct H].
Qed.

Lemma update_watermark_free_config_overwrites_witness :
  ∃ c' r,
    update_watermark_free_config true None None None (Some false)
      (connect (set_config
                  (set_watermark_free_config
                     (Some {| watermark_free_enabled := false;
                              parse_method := "custom";
                              custom_parse_url := Some "http://parse";
                              custom_parse_token := Some "secret";
                              fallback_on_failure := true;
                              watermark_updated_at := 5 |})
                     no_config) empty_db) []) = (Ok tt, c') ∧
    watermark_free_config (config (db c')) = Some r ∧
    parse_method r = "third_party" ∧
    custom_parse_url r = None ∧
    custom_parse_token r = None.
Proof.
  destruct (update_watermark_free_config_overwrites
              (connect (set_config
                  (set_watermark_free_config
                     (Some {| watermark_free_enabled := false;
                              parse_method := "custom";
                              custom_parse_url := Some "http://parse";
                              custom_parse_token := Some "secret";
                              fallback_on_failure := true;
                              watermark_updated_at := 5 |})
                     no_config) empty_db) [])
              {| watermark_free_enabled := false; parse_method := "custom";
                 custom_parse_url := Some "http://parse";
                 custom_parse_token := Some "secret";
                 fallback_on_failure := true; watermark_updated_at := 5 |}
              true None None None (Some false) eq_refl eq_refl)
    as (c' & r & Hrun & Hr & _ & _ & Hover).
  destruct Hover as (Hm & Hu & Ht & _); [by intros (_ & _ & _ & ?)|].
  exists c', r. split; [exact Hrun|]. split; [exact Hr|].
  split; [exact Hm|]. split; [exact Hu|exact Ht].
Defined.

(** ** Schema migration *)

Lemma catalog_extended_refl l : catalog_extended l l.
Proof. apply Forall_Forall2_diag, Forall_forall. by intros t _. Qed.

Lemma catalog_extended_trans l1 l2 l3 :
  catalog_extended l1 l2 → catalog_extended l2 l3 → catalog_extended l1 l3.
Proof.
  apply Forall2_trans. intros t1 t2 t3 [E1 P1] [E2 P2].
  split; [congruence|by etrans].
Qed.

Lemma catalog_extended_names l l' : catalog_extended l l' → l'.*1 = l.*1.
Proof. induction 1 as [|t t' l l' [E _] _ IH]; cbn; congruence. Qed.

Lemma catalog_extended_insert l i t column :
  l !! i = Some t →
  catalog_extended l (<[i := (t.1, t.2 ++ [column])]> l).
Proof.
  intros Hi. rewrite <- (list_insert_id l i t) at 1 by done.
  apply Forall2_insert; [apply catalog_extended_refl|].
  split; [done|]. by apply prefix_app_r.
Qed.

Lemma has_column_extended table column d d' :
  catalog_extended (catalog d) (catalog d') →
  has_column table column d → has_column table column d'.
Proof.
  unfold has_column. rewrite !Exists_exists.
  intros Hext (t & Ht & Hname & Hcol).
  apply list_elem_of_lookup_1 in Ht as [i Hi].
  destruct (Forall2_lookup_l _ _ _ _ _ Hext Hi) as (t' & Hi' & E & P).
  exists t'. split; [by eapply list_elem_of_lookup_2|].
  split; [congruence|]. by eapply elem_of_prefix.
Qed.

Lemma additive_refl d : additive d d.
Proof.
  do 4 (split; [done|]). split; [apply config_kept_refl|].
  apply catalog_extended_refl.
Qed.

Lemma additive_trans d1 d2 d3 : additive d1 d2 → additive d2 d3 → additive d1 d3.
Proof.
  intros (?&?&?&?&?&?) (?&?&?&?&?&?).
  do 4 (split; [congruence|]).
  split; [by eapply config_kept_trans|by eapply catalog_extended_trans].
Qed.

Lemma rows_kept_additive d d' : rows_kept d d' → additive d d'.
Proof.
  intros (?&?&Hc&?&?&?). do 5 (split; [done|]).
  rewrite Hc. apply catalog_extended_refl.
Qed.

Lemma additive_bind {A B} (m : M A) (k : A → M B) c :
  additive (db c) (db (m c).2) →
  (∀ a c1, additive (db c1) (db (k a c1).2)) →
  additive (db c) (db ((m ≫= k) c).2).
Proof.
  intros Hm Hk. destruct (bind_state m k c) as [(e & _ & ->)|(a & _ & ->)];
    [done|]. eapply additive_trans; [exact Hm|apply Hk].
Qed.

Lemma alter_table_add_column_Ok table column d d' :
  alter_table_add_column table column d = Ok d' →
  additive d d' ∧ has_column table column d'.
Proof.
  unfold alter_table_add_column.
  destruct (list_find _ _) as [[i t]|] eqn:Hfind; [|done].
  case_bool_decide as Hcol; [done|]. intros [= <-].
  apply list_find_Some in Hfind as (Hi & Hname & _).
  split.
  - do 4 (split; [done|]). split; [apply config_kept_refl|]. cbn [catalog].
    rewrite <- Hname. by apply catalog_extended_insert.
  - unfold has_column. cbn [catalog]. apply Exists_exists.
    exists (table, t.2 ++ [column]). split.
    + eapply list_elem_of_lookup_2, list_lookup_insert_eq.
      by eapply lookup_lt_Some.
    + split; [done|]. cbn. apply elem_of_app. right. apply list_elem_of_singleton.
      done.
Qed.

Lemma column_exists_run table column c :
  ∃ found,
    _column_exists table column c = (Ok found, sent c (db c)) ∧
    (faults c = [] → found = bool_decide (has_column table column (db c))).
Proof.
  unfold _column_exists, try_except. rewrite fetch_bind.
  destruct (faults c) as [|[] fl]; cbn; eauto.
  eexists. split; [done|]. done.
Qed.

Lemma try_alter_additive table column c :
  ∃ c',
    try_except (execute (λ _ d, alter_table_add_column table column d))
      (λ _, mret tt) c = (Ok tt, c') ∧
    additive (db c) (db c').
Proof.
  unfold try_except. rewrite execute_run.
  destruct (faults c) as [|[] fl];
    try (eexists; split; [reflexivity|apply additive_refl]);
    (destruct (alter_table_add_column _ _ _) as [d'|e] eqn:Halter;
     [apply alter_table_add_column_Ok in Halter as [Hadd _]|];
     eexists; (split; [reflexivity|]); [exact Hadd|apply additive_refl]).
Qed.

Lemma for_each_additive {A} (l : list A) (body : A → M unit) c :
  (∀ x c, additive (db c) (db (body x c).2)) →
  additive (db c) (db (for_each l body c).2).
Proof.
  intros Hbody. revert c. induction l as [|x l IH]; intros c; cbn [for_each].
  - apply additive_refl.
  - apply additive_bind; [apply Hbody|]. intros _ c1. apply IH.
Qed.

Lemma add_missing_columns_additive table columns c :
  additive (db c) (db (add_missing_columns table columns c).2).
Proof.
  unfold add_missing_columns, _table_exists.
  apply additive_bind.
  - rewrite fetch_bind. destruct (faults c) as [|[] fl]; apply additive_refl.
  - intros [] c1; [|apply additive_refl].
    apply for_each_additive. intros column c2.
    apply additive_bind.
    + destruct (column_exists_run table column.1 c2) as (b & -> & _).
      apply additive_refl.
    + intros [] c3; [apply additive_refl|].
      destruct (try_alter_additive table column.1 c3) as (c' & -> & H). exact H.
Qed.

(** X19. The migration is additive, whatever the overrides and whatever
    statements fail: it creates, drops and renames no table, every table
    keeps its columns in their order and can only gain columns after them,
    no row of the credential tables changes and no configuration row that
    was there changes. *)
Theorem check_and_migrate_db_additive (config_dict : option ConfigDict)
    (c : Conn) :
  additive (db c) (db (check_and_migrate_db config_dict c).2).
Proof.
  unfold check_and_migrate_db.
  do 6 (apply additive_bind; [apply add_missing_columns_additive|intros _ ?]).
  apply rows_kept_additive, ensure_config_rows_kept.
Qed.

Lemma table_exists_run table c :
  faults c = [] →
  _table_exists table c
    = (Ok (bool_decide (table ∈ (catalog (db c)).*1)), sent c (db c)).
Proof. intros Hf. unfold _table_exists. by rewrite fetch_bind, Hf. Qed.

Lemma alter_table_add_column_missing table column d :
  table ∈ (catalog d).*1 → ¬ has_column table column d →
  ∃ d', alter_table_add_column table column d = Ok d'.
Proof.
  intros Htable Hcol. unfold alter_table_add_column.
  apply list_elem_of_fmap in Htable as (t & -> & Ht).
  destruct (list_find_elem_of (λ t0, t0.1 = t.1) _ t Ht eq_refl) as [[i t'] Hfind].
  rewrite Hfind. apply list_find_Some in Hfind as (Hi & Hname & _).
  rewrite bool_decide_eq_false_2; [eauto|].
  intros Hin. apply Hcol, Exists_exists. exists t'.
  split; [by eapply list_elem_of_lookup_2|done].
Qed.

Lemma for_each_columns table (columns : list (string * string)) c :
  faults c = [] → table ∈ (catalog (db c)).*1 →
  ∃ c',
    for_each columns (λ column,
      found ← _column_exists table column.1;
      if found : bool then mret tt
      else try_except
             (execute (λ _ d, alter_table_add_column table column.1 d))
             (λ _, mret tt)) c = (Ok tt, c') ∧
    faults c' = [] ∧
    catalog_extended (catalog (db c)) (catalog (db c')) ∧
    Forall (λ column, has_column table column.1 (db c')) columns.
Proof.
  revert c. induction columns as [|x l IH]; intros c Hf Htable; cbn [for_each].
  - exists c. split; [done|]. split; [done|].
    split; [apply catalog_extended_refl|constructor].
  - destruct (column_exists_run table x.1 c) as (b & Hrun & Hb).
    specialize (Hb Hf). subst b.
    assert (∃ c1, (found ← _column_exists table x.1;
                   if found : bool then mret tt
                   else try_except
                          (execute (λ _ d, alter_table_add_column table x.1 d))
                          (λ _, mret tt)) c = (Ok tt, c1) ∧
                  faults c1 = [] ∧
                  catalog_extended (catalog (db c)) (catalog (db c1)) ∧
                  has_column table x.1 (db c1)) as (c1 & H1 & Hf1 & Hext1 & Hx).
    { rewrite (bind_run _ _ _ _ _ Hrun). case_bool_decide as Hcol.
      - eexists. split; [reflexivity|]. cbn. rewrite Hf.
        split; [done|]. split; [apply catalog_extended_refl|done].
      - destruct (alter_table_add_column_missing table x.1 (db c) Htable Hcol)
          as [d' Hd'].
        unfold try_except. rewrite execute_run. cbn [sent faults db clock_now].
        rewrite Hf. cbn [tail]. rewrite Hd'.
        apply alter_table_add_column_Ok in Hd' as [(_&_&_&_&_&Hext) Hhas].
        eexists. split; [reflexivity|]. cbn. by rewrite Hf. }
    destruct (IH c1 Hf1) as (c' & H2 & Hf2 & Hext2 & Hall).
    { by rewrite (catalog_extended_names _ _ Hext1). }
    exists c'. rewrite (bind_run _ _ _ _ _ H1). split; [exact H2|].
    split; [done|]. split; [by eapply catalog_extended_trans|].
    constructor; [by eapply has_column_extended|done].
Qed.

Lemma add_missing_columns_healthy table columns c :
  faults c = [] →
  ∃ c',
    add_missing_columns table columns c = (Ok tt, c') ∧
    faults c' = [] ∧
    catalog_extended (catalog (db c)) (catalog (db c')) ∧
    columns_present table columns (db c').
Proof.
  intros Hf. unfold add_missing_columns.
  rewrite (bind_run _ _ _ _ _ (table_exists_run table c Hf)).
  case_bool_decide as Htable.
  - destruct (for_each_columns table columns (sent c (db c)))
      as (c' & Hrun & Hf' & Hext & Hall); [by apply sent_healthy|done|].
    exists c'. split; [exact Hrun|]. split; [done|]. split; [done|].
    by intros _.
  - eexists. split; [reflexivity|]. cbn. rewrite Hf.
    split; [done|]. split; [apply catalog_extended_refl|]. by intros ?.
Qed.

Lemma for_each_columns_noop table (columns : list (string * string)) c :
  faults c = [] →
  Forall (λ column, has_column table column.1 (db c)) columns →
  ∃ c',
    for_each columns (λ column,
      found ← _column_exists table column.1;
      if found : bool then mret tt
      else try_except
             (execute (λ _ d, alter_table_add_column table column.1 d))
             (λ _, mret tt)) c = (Ok tt, c') ∧
    faults c' = [] ∧ db c' = db c.
Proof.
  revert c. induction columns as [|x l IH]; intros c Hf Hall; cbn [for_each].
  - by exists c.
  - apply Forall_cons in Hall as [Hx Hall].
    destruct (column_exists_run table x.1 c) as (b & Hrun & Hb).
    specialize (Hb Hf). subst b.
    rewrite bool_decide_eq_true_2 in Hrun by done.
    destruct (IH (sent c (db c))) as (c' & H2 & Hf2 & Hdb);
      [by apply sent_healthy|done|].
    exists c'. split; [|done].
    erewrite bind_run; [exact H2|]. by erewrite bind_run by exact Hrun.
Qed.

Lemma add_missing_columns_noop table columns c :
  faults c = [] → columns_present table columns (db c) →
  ∃ c', add_missing_columns table columns c = (Ok tt, c') ∧
        faults c' = [] ∧ db c' = db c.
Proof.
  intros Hf Hpresent. unfold add_missing_columns.
  rewrite (bind_run _ _ _ _ _ (table_exists_run table c Hf)).
  case_bool_decide as Htable.
  - destruct (for_each_columns_noop table columns (sent c (db c)))
      as (c' & Hrun & Hf' & Hdb); [by apply sent_healthy|by apply Hpresent|].
    by exists c'.
  - eexists. split; [reflexivity|]. cbn. by rewrite Hf.
Qed.

Lemma columns_present_extended table columns d d' :
  catalog_extended (catalog d) (catalog d') →
  columns_present table columns d → columns_present table columns d'.
Proof.
  intros Hext Hpresent Htable.
  rewrite (catalog_extended_names _ _ Hext) in Htable.
  eapply Forall_impl; [by apply Hpresent|].
  intros column. by apply has_column_extended.
Qed.

(** X20. On a connection whose statements are all served,
    [add_missing_columns] succeeds; afterwards the table, if it exists, has
    every listed column, while the tables and the columns that were there
    are kept; and a table that does not exist is skipped without a change. *)
Theorem add_missing_columns_complete (table : string)
    (columns : list (string * string)) (c : Conn) :
  faults c = [] →
  ∃ c',
    add_missing_columns table columns c = (Ok tt, c') ∧
    catalog_extended (catalog (db c)) (catalog (db c')) ∧
    (table ∈ (catalog (db c)).*1 →
     ∀ column, column ∈ columns.*1 → has_column table column (db c')) ∧
    (table ∉ (catalog (db c)).*1 → db c' = db c).
Proof.
  intros Hf.
  destruct (add_missing_columns_healthy table columns c Hf)
    as (c' & Hrun & _ & Hext & Hpresent).
  exists c'. split; [done|]. split; [done|]. split.
  - intros Htable column Hcolumn.
    rewrite <- (catalog_extended_names _ _ Hext) in Htable.
    apply list_elem_of_fmap in Hcolumn as (x & -> & Hx).
    specialize (Hpresent Htable). rewrite Forall_forall in Hpresent.
    by apply Hpresent.
  - intros Htable. revert Hrun. unfold add_missing_columns.
    rewrite (bind_run _ _ _ _ _ (table_exists_run table c Hf)).
    rewrite bool_decide_eq_false_2 by done. by intros [= <-].
Qed.

Lemma add_missing_columns_complete_witness :
  ∃ c',
    add_missing_columns "tokens" [("client_id", "TEXT"); ("proxy_url", "TEXT")]
      (connect {| tokens := []; tokens_id_seq := 1; token_stats := [];
                  token_stats_id_seq := 1; config := no_config;
                  catalog := [("tokens", ["id"; "token"; "proxy_url"])] |} [])
      = (Ok tt, c') ∧
    has_column "tokens" "client_id" (db c').
Proof.
  destruct (add_missing_columns_complete "tokens"
              [("client_id", "TEXT"); ("proxy_url", "TEXT")]
              (connect {| tokens := []; tokens_id_seq := 1; token_stats := [];
                          token_stats_id_seq := 1; config := no_config;
                          catalog := [("tokens", ["id"; "token"; "proxy_url"])] |}
                 []) eq_refl) as (c' & Hrun & _ & Hcols & _).
  exists c'. split; [exact Hrun|]. apply Hcols.
  - apply (bool_decide_unpack _). by vm_compute.
  - apply (bool_decide_unpack _). by vm_compute.
Defined.

Lemma keeps_healthy_statement {A} (f : Z → Db → Res (A * Db)) :
  keeps_healthy (statement f).
Proof.
  intros c Hf. unfold statement. rewrite Hf.
  destruct (f _ _) as [[a d]|e]; cbn; by rewrite Hf.
Qed.

Lemma keeps_healthy_mret {A} (a : A) : keeps_healthy (mret a : M A).
Proof. by intros c Hf. Qed.

Lemma keeps_healthy_bind {A B} (m : M A) (k : A → M B) :
  keeps_healthy m → (∀ a, keeps_healthy (k a)) → keeps_healthy (m ≫= k).
Proof.
  intros Hm Hk c Hf. specialize (Hm c Hf).
  destruct (bind_state m k c) as [(e & _ & ->)|(a & _ & ->)]; [done|].
  by apply Hk.
Qed.

Ltac section_keeps_healthy :=
  unfold fetch, execute; repeat case_match;
  (apply keeps_healthy_bind; [apply keeps_healthy_statement|];
   intros ?; case_bool_decide;
   [apply keeps_healthy_statement|apply keeps_healthy_mret]).

Lemma ensure_config_rows_keeps_healthy cd : keeps_healthy (_ensure_config_rows cd).
Proof.
  unfold _ensure_config_rows.
  apply keeps_healthy_bind;
    [unfold ensure_admin_config; section_keeps_healthy|intros _].
  apply keeps_healthy_bind;
    [unfold ensure_proxy_config; section_keeps_healthy|intros _].
  apply keeps_healthy_bind;
    [unfold ensure_watermark_free_config; section_keeps_healthy|intros _].
  apply keeps_healthy_bind;
    [unfold ensure_cache_config; section_keeps_healthy|intros _].
  apply keeps_healthy_bind;
    [unfold ensure_generation_config; section_keeps_healthy|intros _].
  apply keeps_healthy_bind;
    [unfold ensure_token_refresh_config; section_keeps_healthy|intros _].
  apply keeps_healthy_bind;
    [unfold ensure_call_logic_config; section_keeps_healthy|intros _].
  unfold ensure_pow_proxy_config; section_keeps_healthy.
Qed.

Lemma add_missing_columns_healthy_inv table columns c c' :
  faults c = [] → add_missing_columns table columns c = (Ok tt, c') →
  faults c' = [] ∧ catalog_extended (catalog (db c)) (catalog (db c')) ∧
  columns_present table columns (db c').
Proof.
  intros Hf Hrun.
  destruct (add_missing_columns_healthy table columns c Hf) as (c1 & H1 & ?).
  rewrite Hrun in H1. by injection H1 as <-.
Qed.

(** X21. The migration is idempotent: after a run in which every statement
    was served and that returned, a second run, whatever its overrides,
    returns as well and changes nothing. *)
Theorem check_and_migrate_db_idempotent (cd1 cd2 : option ConfigDict)
    (c c1 : Conn) :
  faults c = [] →
  check_and_migrate_db cd1 c = (Ok tt, c1) →
  ∃ c2, check_and_migrate_db cd2 c1 = (Ok tt, c2) ∧ db c2 = db c1.
Proof.
  intros Hf Hrun. unfold check_and_migrate_db in Hrun.
  apply bind_Ok_inv in Hrun as ([] & m1 & R1 & Hrun).
  apply bind_Ok_inv in Hrun as ([] & m2 & R2 & Hrun).
  apply bind_Ok_inv in Hrun as ([] & m3 & R3 & Hrun).
  apply bind_Ok_inv in Hrun as ([] & m4 & R4 & Hrun).
  apply bind_Ok_inv in Hrun as ([] & m5 & R5 & Hrun).
  apply bind_Ok_inv in Hrun as ([] & m6 & R6 & Hrun).
  apply (add_missing_columns_healthy_inv _ _ _ _ Hf) in R1 as (F1 & E1 & P1).
  apply (add_missing_columns_healthy_inv _ _ _ _ F1) in R2 as (F2 & E2 & P2).
  apply (add_missing_columns_healthy_inv _ _ _ _ F2) in R3 as (F3 & E3 & P3).
  apply (add_missing_columns_healthy_inv _ _ _ _ F3) in R4 as (F4 & E4 & P4).
  apply (add_missing_columns_healthy_inv _ _ _ _ F4) in R5 as (F5 & E5 & P5).
  apply (add_missing_columns_healthy_inv _ _ _ _ F5) in R6 as (F6 & E6 & P6).
  pose proof (ensure_config_rows_keeps_healthy cd1 m6 F6) as F.
  pose proof (ensure_config_rows_kept cd1 m6) as (_ & _ & Hcat & _).
  pose proof (ensure_config_rows_Ok_complete _ _ _ Hrun) as Hcomplete.
  rewrite Hrun in F, Hcat. cbn [snd] in F, Hcat.
  assert (E7 : catalog_extended (catalog (db m6)) (catalog (db c1)))
    by (rewrite Hcat; apply catalog_extended_refl).
  apply (columns_present_extended _ _ _ _ E7) in P6.
  pose proof (catalog_extended_trans _ _ _ E6 E7) as E6'.
  apply (columns_present_extended _ _ _ _ E6') in P5.
  pose proof (catalog_extended_trans _ _ _ E5 E6') as E5'.
  apply (columns_present_extended _ _ _ _ E5') in P4.
  pose proof (catalog_extended_trans _ _ _ E4 E5') as E4'.
  apply (columns_present_extended _ _ _ _ E4') in P3.
  pose proof (catalog_extended_trans _ _ _ E3 E4') as E3'.
  apply (columns_present_extended _ _ _ _ E3') in P2.
  pose proof (catalog_extended_trans _ _ _ E2 E3') as E2'.
  apply (columns_present_extended _ _ _ _ E2') in P1.
  clear - F Hcomplete P1 P2 P3 P4 P5 P6.
  unfold check_and_migrate_db.
  destruct (add_missing_columns_noop _ _ c1 F P1) as (n1 & R1 & G1 & D1).
  rewrite (bind_run _ _ _ _ _ R1). rewrite <- D1 in P2, P3, P4, P5, P6, Hcomplete.
  destruct (add_missing_columns_noop _ _ n1 G1 P2) as (n2 & R2 & G2 & D2).
  rewrite (bind_run _ _ _ _ _ R2). rewrite <- D2 in P3, P4, P5, P6, Hcomplete.
  destruct (add_missing_columns_noop _ _ n2 G2 P3) as (n3 & R3 & G3 & D3).
  rewrite (bind_run _ _ _ _ _ R3). rewrite <- D3 in P4, P5, P6, Hcomplete.
  destruct (add_missing_columns_noop _ _ n3 G3 P4) as (n4 & R4 & G4 & D4).
  rewrite (bind_run _ _ _ _ _ R4). rewrite <- D4 in P5, P6, Hcomplete.
  destruct (add_missing_columns_noop _ _ n4 G4 P5) as (n5 & R5 & G5 & D5).
  rewrite (bind_run _ _ _ _ _ R5). rewrite <- D5 in P6, Hcomplete.
  destruct (add_missing_columns_noop _ _ n5 G5 P6) as (n6 & R6 & G6 & D6).
  rewrite (bind_run _ _ _ _ _ R6).
  rewrite <- D6 in Hcomplete.
  destruct (ensure_config_rows_complete_noop cd2 n6 G6 Hcomplete)
    as (c2 & Hrun2 & Hdb & _).
  exists c2. split; [exact Hrun2|congruence].
Qed.

Lemma check_and_migrate_db_idempotent_witness :
  ∃ c2,
    check_and_migrate_db None
      (check_and_migrate_db None
         (connect {| tokens := []; tokens_id_seq := 1; token_stats := [];
                     token_stats_id_seq := 1; config := no_config;
                     catalog := [("tokens", ["id"; "token"; "proxy_url"]);
                                 ("tasks", ["id"; "task_id"])] |} [])).2
      = (Ok tt, c2) ∧
    db c2 =
      db (check_and_migrate_db None
            (connect {| tokens := []; tokens_id_seq := 1; token_stats := [];
                        token_stats_id_seq := 1; config := no_config;
                        catalog := [("tokens", ["id"; "token"; "proxy_url"]);
                                    ("tasks", ["id"; "task_id"])] |} [])).2.
Proof.
  apply (check_and_migrate_db_idempotent None None
           (connect {| tokens := []; tokens_id_seq := 1; token_stats := [];
                       token_stats_id_seq := 1; config := no_config;
                       catalog := [("tokens", ["id"; "token"; "proxy_url"]);
                                   ("tasks", ["id"; "task_id"])] |} [])).
  - reflexivity.
  - vm_compute. reflexivity.
Defined.

Ltac skip_migrations :=
  repeat match goal with
  | F : faults ?c = [], D : db ?c = ?d
    |- context [(add_missing_columns ?t ?cols ≫= ?k) ?c] =>
      let n := fresh "n" in
      let R := fresh "R" in
      let G := fresh "G" in
      let E := fresh "E" in
      destruct (add_missing_columns_noop t cols c F) as (n & R & G & E);
      [rewrite D; intros _; unfold has_column; cbn [catalog];
       apply (bool_decide_unpack _); by vm_compute
      |rewrite (bind_run _ _ _ _ _ R); rewrite D in E; clear F D R]
  end.

(** X22. A fresh install needs no migration: on a connection whose
    statements are all served and a database without tables, [init_db]
    creates the twelve tables with their full column sets and touches no
    row, and the column migration of [check_and_migrate_db] that follows
    finds nothing to add. *)
Theorem fresh_install_needs_no_migration (config_dict : option ConfigDict)
    (c : Conn) :
  faults c = [] → catalog (db c) = [] →
  ∃ c1,
    init_db c = (Ok tt, c1) ∧
    catalog (db c1) = baseline_schema ∧
    tokens (db c1) = tokens (db c) ∧
    token_stats (db c1) = token_stats (db c) ∧
    config (db c1) = config (db c) ∧
    catalog (db (check_and_migrate_db config_dict c1).2) = baseline_schema.
Proof.
  intros Hf Hcat. destruct c as [[tk tks st sts cf cat] fl n now today].
  cbn in Hf, Hcat. subst fl cat.
  eexists. split; [vm_compute; reflexivity|].
  do 4 (split; [reflexivity|]).
  cbn [db].
  match goal with
  | |- context [check_and_migrate_db _ ?c] => remember c as c1 eqn:Hc1
  end.
  assert (F : faults c1 = []) by (by rewrite Hc1).
  pose proof (f_equal db Hc1) as D. cbn [db] in D. clear Hc1.
  unfold check_and_migrate_db. skip_migrations.
  match goal with
  | E : db ?m = _ |- context [_ensure_config_rows _ ?m] =>
      destruct (ensure_config_rows_kept config_dict m) as (_ & _ & -> & _);
      by rewrite E
  end.
Qed.

Lemma fresh_install_needs_no_migration_witness :
  ∃ c1,
    init_db (connect empty_db []) = (Ok tt, c1) ∧
    catalog (db (check_and_migrate_db None c1).2) = baseline_schema.
Proof.
  destruct (fresh_install_needs_no_migration None (connect empty_db [])
              eq_refl eq_refl) as (c1 & Hrun & _ & _ & _ & _ & Hcat).
  exists c1. split; [exact Hrun|exact Hcat].
Defined.

(** ** The connection pool *)

(** X23. The retry schedule of [get_pool] when no pool is open.  If the
    first [k < 5] dials fail and the next one connects, the pool of dial
    [k + 1] is stored and returned after sleeping 2, 4, ... seconds, one
    delay of [2 * 2 ^ i] per failure; if the first five dials fail the
    call raises after sleeping 2, 4, 8 and 16 seconds, without a sleep
    after the fifth failure, makes no sixth dial and stores no pool. *)
Theorem get_pool_retry_schedule (self : Database) (k : nat) (rest : list bool) :
  _pool self = None →
  dials self = replicate k true ++ rest →
  ((k < 5)%nat → head rest ≠ Some true →
   get_pool self =
     (Returned (Some (S k + dialed self)%nat),
      {| db_url := db_url self; _pool := Some (S k + dialed self)%nat;
         dials := tail rest; dialed := (S k + dialed self)%nat;
         slept := slept self ++ ((λ i, 2 * 2 ^ Z.of_nat i) <$> seq 0 k) |})) ∧
  (k = 5%nat →
   get_pool self =
     (ConnectFailed,
      {| db_url := db_url self; _pool := None; dials := rest;
         dialed := (5 + dialed self)%nat;
         slept := slept self ++ [2; 4; 8; 16] |})).
Proof.
  intros Hpool Hdials. unfold get_pool. rewrite Hpool.
  destruct self as [url pool fate count naps]. cbn in Hpool, Hdials |- *.
  subst pool fate. split.
  - intros Hk Hrest.
    destruct k as [|[|[|[|[|k]]]]]; [..|lia];
      destruct rest as [|[] rest]; try done; cbn;
      rewrite <- ?app_assoc; try rewrite app_nil_r; reflexivity.
  - intros ->. cbn. rewrite <- !app_assoc. reflexivity.
Qed.

Lemma get_pool_retry_schedule_witness :
  get_pool {| db_url := Some "postgresql://db"; _pool := None;
              dials := [true; true; false; true]; dialed := 0; slept := [] |}
  = (Returned (Some 3%nat),
     {| db_url := Some "postgresql://db"; _pool := Some 3%nat;
        dials := [true]; dialed := 3; slept := [2; 4] |}).
Proof.
  apply (get_pool_retry_schedule
           {| db_url := Some "postgresql://db"; _pool := None;
              dials := [true; true; false; true]; dialed := 0; slept := [] |}
           2 [false; true] eq_refl eq_refl); [cbn; lia|done].
Defined.

Lemma connect_loop_cases (self : Database) :
  _pool self = None →
  (∃ self', connect_loop (seq 0 max_retries) self = (ConnectFailed, self') ∧
            _pool self' = None) ∨
  (∃ h self', connect_loop (seq 0 max_retries) self = (Returned (Some h), self') ∧
              _pool self' = Some h ∧ (dialed self < dialed self')%nat).
Proof.
  destruct self as [url pool fate count naps]. cbn. intros ->.
  destruct fate as [|[] [|[] [|[] [|[] [|[] fate]]]]]; cbn;
    first [left; eexists; split; [reflexivity|done]
          |right; eexists _, _; split; [reflexivity|]; cbn; split; [done|lia]].
Qed.

(** X24. [get_pool] never returns without a pool: it returns an open pool
    or raises.  The pool it returns is stored, so that the next call
    returns the same pool without dialing; after [close] the next call
    dials again. *)
Theorem get_pool_reuses_until_close (self self1 : Database) (p : option nat) :
  get_pool self = (Returned p, self1) →
  ∃ h,
    p = Some h ∧
    get_pool self1 = (Returned (Some h), self1) ∧
    (dialed self1 < dialed (get_pool (close self1)).2)%nat.
Proof.
  unfold get_pool at 1. intros Hrun.
  assert (∃ h, p = Some h ∧ _pool self1 = Some h) as (h & -> & Hh).
  { destruct (_pool self) as [h|] eqn:Hpool.
    - injection Hrun as <- <-. eauto.
    - destruct (connect_loop_cases self Hpool)
        as [(self' & H & _)|(h & self' & H & Hh & _)];
        rewrite H in Hrun; [done|]. injection Hrun as <- <-. eauto. }
  exists h. split; [done|]. split.
  - unfold get_pool. by rewrite Hh.
  - unfold get_pool. cbn [close _pool].
    destruct self1 as [url pool fate count naps]. cbn [db_url dials dialed slept].
    destruct fate as [|[] [|[] [|[] [|[] [|[] fate]]]]];
      cbn -[Nat.sub]; unfold max_retries;
      rewrite ?bool_decide_eq_true_2 by lia;
      rewrite ?bool_decide_eq_false_2 by lia; cbn; lia.
Qed.

Lemma get_pool_reuses_until_close_witness :
  ∃ h,
    Some 1%nat = Some h ∧
    get_pool {| db_url := None; _pool := Some 1%nat; dials := [];
                dialed := 1; slept := [] |}
    = (Returned (Some h),
       {| db_url := None; _pool := Some 1%nat; dials := [];
          dialed := 1; slept := [] |}) ∧
    (1 < dialed (get_pool (close {| db_url := None; _pool := Some 1%nat;
                                    dials := []; dialed := 1;
                                    slept := [] |})).2)%nat.
Proof.
  apply (get_pool_reuses_until_close
           {| db_url := None; _pool := None; dials := []; dialed := 0;
              slept := [] |}).
  reflexivity.
Defined.

(** ** Tasks and request logs *)

Lemma statement_all_run {A} (f : Z → Db → Archive → Res (A * Db * Archive)) s :
  faults (conn s) = [] →
  statement_all f s =
    match f (clock_now (conn s)) (db (conn s)) (archive s) with
    | Ok (x, d, a) =>
        (Ok x, {| conn := sent (conn s) d; archive := a;
                  client_now := client_now s |})
    | Raise e =>
        (Raise e, {| conn := sent (conn s) (db (conn s)); archive := archive s;
                     client_now := client_now s |})
    end.
Proof. intros Hf. unfold statement_all. by rewrite Hf. Qed.

Lemma sess_bind_run {A B} (m : Sess A) (k : A → Sess B) s a s1 :
  m s = (Ok a, s1) → (m ≫= k) s = k a s1.
Proof. intros Hm. unfold mbind, Sess_bind. by rewrite Hm. Qed.

Lemma sess_bind_raise {A B} (m : Sess A) (k : A → Sess B) s e s1 :
  m s = (Raise e, s1) → (m ≫= k) s = (Raise e, s1).
Proof. intros Hm. unfold mbind, Sess_bind. by rewrite Hm. Qed.

Lemma get_task_run id s :
  faults (conn s) = [] →
  get_task id s =
    (Ok (head (filter (λ t, task_id t = id) (tasks (archive s)))),
     {| conn := sent (conn s) (db (conn s)); archive := archive s;
        client_now := client_now s |}).
Proof.
  intros Hf. unfold get_task, fetch_all.
  erewrite sess_bind_run; [reflexivity|]. by rewrite statement_all_run.
Qed.

(** X25. A task that [create_task] has accepted is found again by
    [get_task] under its [task_id]: the row carries the returned id and the
    six inserted fields, while [result_urls], [error_message],
    [retry_count], [created_at] and [completed_at] are the column defaults
    whatever the task object held. *)
Theorem create_task_then_get_task (s : Session) (task : Task) :
  faults (conn s) = [] →
  ¬ Exists (λ t, task_id t = task_id task) (tasks (archive s)) →
  token_exists (task_token_id task) (db (conn s)) →
  ∃ s1 s2 row,
    create_task task s = (Ok (tasks_id_seq (archive s)), s1) ∧
    get_task (task_id task) s1 = (Ok (Some row), s2) ∧
    task_row_id row = tasks_id_seq (archive s) ∧
    task_id row = task_id task ∧
    task_token_id row = task_token_id task ∧
    task_model row = task_model task ∧
    prompt row = prompt task ∧
    status row = status task ∧
    progress row = progress task ∧
    result_urls row = None ∧
    error_message row = None ∧
    retry_count row = 0 ∧
    task_created_at row = clock_now (conn s) ∧
    completed_at row = None.
Proof.
  intros Hf Hnew Htoken.
  assert (Hcreate : ∃ s1 row,
            create_task task s = (Ok (tasks_id_seq (archive s)), s1) ∧
            faults (conn s1) = [] ∧
            tasks (archive s1) = tasks (archive s) ++ [row] ∧
            row = {| task_row_id := tasks_id_seq (archive s);
                     task_id := task_id task;
                     task_token_id := task_token_id task;
                     task_model := task_model task; prompt := prompt task;
                     status := status task; progress := progress task;
                     result_urls := None; error_message := None;
                     retry_count := 0;
                     task_created_at := clock_now (conn s);
                     completed_at := None |}).
  { unfold create_task. eexists _, _. split.
    - erewrite sess_bind_run; [reflexivity|].
      rewrite statement_all_run by done.
      rewrite bool_decide_eq_false_2 by done.
      rewrite bool_decide_eq_true_2 by done. reflexivity.
    - cbn. rewrite Hf. done. }
  destruct Hcreate as (s1 & row & Hrun & Hf1 & Htasks & Hrow).
  exists s1. eexists _, row. split; [exact Hrun|]. split.
  - rewrite get_task_run by done. rewrite Htasks.
    rewrite head_filter_app_new; [reflexivity|done|by subst row].
  - by subst row.
Qed.

Lemma create_task_then_get_task_witness :
  ∃ s1 s2 row,
    create_task
      {| task_row_id := 0; task_id := "task-1"; task_token_id := 1;
         task_model := "sora"; prompt := "a cat"; status := "processing";
         progress := Float 0 0; result_urls := Some "http://old";
         error_message := None; retry_count := 7; task_created_at := 0;
         completed_at := Some 3 |}
      {| conn := connect pool_db [];
         archive := {| tasks := []; tasks_id_seq := 1; request_logs := [];
                       request_logs_id_seq := 1 |};
         client_now := 1000 |} = (Ok 1, s1) ∧
    get_task "task-1" s1 = (Ok (Some row), s2) ∧
    result_urls row = None ∧ retry_count row = 0 ∧ completed_at row = None.
Proof.
  destruct (create_task_then_get_task
              {| conn := connect pool_db [];
                 archive := {| tasks := []; tasks_id_seq := 1;
                               request_logs := []; request_logs_id_seq := 1 |};
                 client_now := 1000 |}
              {| task_row_id := 0; task_id := "task-1"; task_token_id := 1;
                 task_model := "sora"; prompt := "a cat";
                 status := "processing"; progress := Float 0 0;
                 result_urls := Some "http://old"; error_message := None;
                 retry_count := 7; task_created_at := 0;
                 completed_at := Some 3 |} eq_refl)
    as (s1 & s2 & row & H1 & H2 & _ & _ & _ & _ & _ & _ & _ & H3 & _ & H4 & _ & H5).
  - by intros H%Exists_nil.
  - apply (bool_decide_unpack _). by vm_compute.
  - exists s1, s2, row. split; [exact H1|]. split; [exact H2|].
    split; [exact H3|]. split; [exact H4|exact H5].
Defined.

Lemma head_filter_fmap_key {A K} `{EqDecision K} (key : A → K) (f : A → A)
    (k : K) (l : list A) :
  (∀ x, key (f x) = key x) →
  head (filter (λ x, key x = k) (f <$> l))
  = f <$> head (filter (λ x, key x = k) l).
Proof.
  intros Hkey. induction l as [|x l IH]; [done|].
  rewrite fmap_cons, !filter_cons, Hkey.
  destruct (decide (key x = k)); [done|exact IH].
Qed.

Lemma fmap_unmatched {A} (P : A → Prop) `{!∀ x, Decision (P x)} (f : A → A)
    (l : list A) :
  ¬ Exists P l → (λ x, if bool_decide (P x) then f x else x) <$> l = l.
Proof.
  intros Hnone. induction l as [|x l IH]; [done|].
  rewrite Exists_cons in Hnone. rewrite fmap_cons, IH by tauto.
  by rewrite bool_decide_eq_false_2 by tauto.
Qed.

(** X26. [update_task] on a connection that serves its statement.  The task
    with the given [task_id] gets the new status and progress;
    [result_urls] and [error_message] are overwritten by the arguments,
    also by an omitted one; [completed_at] becomes the client's clock when
    the status is ["completed"] or ["failed"] and [NULL] for every other
    status, whatever it was before.  The other columns of the task and the
    other tasks are kept, and an unknown [task_id] changes nothing and
    raises nothing. *)
Theorem update_task_completion (s : Session) (id new_status : string)
    (new_progress : float) (urls message : option string) :
  faults (conn s) = [] →
  ∃ s1,
    update_task id new_status new_progress urls message s = (Ok tt, s1) ∧
    (∀ t, (get_task id s).1 = Ok (Some t) →
       ∃ t', (get_task id s1).1 = Ok (Some t') ∧
         status t' = new_status ∧ progress t' = new_progress ∧
         result_urls t' = urls ∧ error_message t' = message ∧
         completed_at t' =
           (if bool_decide (new_status = "completed" ∨ new_status = "failed")
            then Some (client_now s) else None) ∧
         task_row_id t' = task_row_id t ∧
         task_token_id t' = task_token_id t ∧
         task_model t' = task_model t ∧ prompt t' = prompt t ∧
         retry_count t' = retry_count t ∧
         task_created_at t' = task_created_at t) ∧
    ((get_task id s).1 = Ok None → archive s1 = archive s) ∧
    (∀ other, other ≠ id → (get_task other s1).1 = (get_task other s).1).
Proof.
  intros Hf. destruct s as [c a cn]. cbn [conn] in Hf.
  set (f := λ t : Task,
         if bool_decide (task_id t = id) then
           {| task_row_id := task_row_id t; task_id := task_id t;
              task_token_id := task_token_id t; task_model := task_model t;
              prompt := prompt t; status := new_status;
              progress := new_progress; result_urls := urls;
              error_message := message; retry_count := retry_count t;
              task_created_at := task_created_at t;
              completed_at :=
                if bool_decide (new_status ∈ ["completed"; "failed"])
                then Some cn else None |}
         else t).
  assert (Hkey : ∀ t, task_id (f t) = task_id t).
  { intros t. unfold f. by case_bool_decide. }
  exists {| conn := sent c (db c);
            archive := set_tasks (f <$> tasks a) (tasks_id_seq a) a;
            client_now := cn |}.
  split.
  { unfold update_task, datetime_now, execute_all, mbind, Sess_bind.
    cbn [client_now]. by rewrite statement_all_run by done. }
  rewrite !get_task_run by (cbn; by rewrite ?Hf). cbn [fst archive tasks set_tasks].
  split; [|split].
  - intros t [= Ht]. rewrite (head_filter_fmap_key task_id f id) by done.
    rewrite Ht. cbn [fmap option_fmap option_map].
    apply head_filter_Some in Ht as [Hid _].
    eexists. split; [reflexivity|]. unfold f.
    rewrite bool_decide_eq_true_2 by done. cbn.
    do 4 (split; [done|]). split; [|done].
    assert (new_status ∈ ["completed"; "failed"]
            ↔ new_status = "completed" ∨ new_status = "failed") as Hmem.
    { rewrite !elem_of_cons, elem_of_nil. tauto. }
    by rewrite (bool_decide_ext _ _ Hmem).
  - intros [= Hnone]. apply head_filter_None in Hnone.
    unfold f. rewrite (fmap_unmatched (λ t, task_id t = id)) by done.
    by destruct a.
  - intros other Hother. rewrite !get_task_run by (cbn; by rewrite ?Hf).
    cbn [fst archive tasks set_tasks]. f_equal.
    rewrite (head_filter_fmap_key task_id f other) by done.
    destruct (head _) as [t|] eqn:Ht; [|done].
    apply head_filter_Some in Ht as [Hid _]. cbn. unfold f.
    rewrite bool_decide_eq_false_2 by congruence. done.
Qed.

Lemma update_task_completion_witness :
  ∃ s1,
    update_task "task-1" "processing" (Float 5 (-1)) None None
      {| conn := connect pool_db [];
         archive :=
           {| tasks :=
                [{| task_row_id := 1; task_id := "task-1"; task_token_id := 1;
                    task_model := "sora"; prompt := "a cat";
                    status := "failed"; progress := Float 0 0;
                    result_urls := None; error_message := Some "boom";
                    retry_count := 0; task_created_at := 10;
                    completed_at := Some 20 |}];
              tasks_id_seq := 2; request_logs := [];
              request_logs_id_seq := 1 |};
         client_now := 1000 |} = (Ok tt, s1) ∧
    ∃ t', (get_task "task-1" s1).1 = Ok (Some t') ∧
          error_message t' = None ∧ completed_at t' = None.
Proof.
  destruct (update_task_completion
              {| conn := connect pool_db [];
                 archive :=
                   {| tasks :=
                        [{| task_row_id := 1; task_id := "task-1";
                            task_token_id := 1; task_model := "sora";
                            prompt := "a cat"; status := "failed";
                            progress := Float 0 0; result_urls := None;
                            error_message := Some "boom"; retry_count := 0;
                            task_created_at := 10;
                            completed_at := Some 20 |}];
                      tasks_id_seq := 2; request_logs := [];
                      request_logs_id_seq := 1 |};
                 client_now := 1000 |}
              "task-1" "processing" (Float 5 (-1)) None None eq_refl)
    as (s1 & Hrun & Hfound & _).
  exists s1. split; [exact Hrun|].
  destruct (Hfound _ eq_refl) as (t' & Ht' & _ & _ & _ & Hmsg & Hdone & _).
  exists t'. split; [exact Ht'|]. split; [exact Hmsg|exact Hdone].
Defined.



Global Instance newer_first_total : Total newer_first.
Proof. intros x y. unfold newer_first. lia. Qed.

Global Instance newer_first_trans : Transitive newer_first.
Proof. intros x y z. unfold newer_first. lia. Qed.







Lemma not_Exists_filter_neg {A} (P : A → Prop) `{!∀ x, Decision (P x)}
    (l : list A) :
  ¬ Exists P (filter (λ x, ¬ P x) l).
Proof.
  rewrite Exists_exists. intros (x & Hx & HP).
  apply list_elem_of_filter in Hx as [Hnot _]. by apply Hnot.
Qed.

(** X29. [delete_token] issues two statements and no transaction.  On a
    connection that serves both, a credential that no task and no request
    log refers to is deleted together with its statistics rows, the other
    rows being kept.  A credential that a task or a request log still
    refers to cannot be deleted: the second statement raises a
    [ForeignKeyViolationError], by which time the statistics rows of the
    credential are already gone, so that the credential is left without
    statistics. *)
Theorem delete_token_foreign_keys (s : Session) (id : Z) :
  faults (conn s) = [] →
  (¬ Exists (λ t, task_token_id t = id) (tasks (archive s)) →
   ¬ Exists (λ l, log_token_id l = Some id) (request_logs (archive s)) →
   ∃ s',
     delete_token id s = (Ok tt, s') ∧
     tokens (db (conn s'))
       = filter (λ r, col r "id" ≠ VInt id) (tokens (db (conn s))) ∧
     token_stats (db (conn s'))
       = filter (λ r, token_id r ≠ id) (token_stats (db (conn s))) ∧
     archive s' = archive s) ∧
  (token_exists id (db (conn s)) →
   Exists (λ t, task_token_id t = id) (tasks (archive s)) ∨
   Exists (λ l, log_token_id l = Some id) (request_logs (archive s)) →
   ∃ s',
     delete_token id s = (Raise ForeignKeyViolationError, s') ∧
     tokens (db (conn s')) = tokens (db (conn s)) ∧
     token_stats (db (conn s'))
       = filter (λ r, token_id r ≠ id) (token_stats (db (conn s))) ∧
     archive s' = archive s).
Proof.
  intros Hf. destruct s as [c a cn]. cbn [conn archive] in *.
  healthy c Hf. cbn [db].
  unfold delete_token, execute_all.
  split.
  - intros Htasks Hlogs. eexists. split.
    + erewrite sess_bind_run by (by rewrite statement_all_run).
      rewrite statement_all_run by done.
      cbn [conn archive db sent clock_now].
      rewrite bool_decide_eq_false_2; [reflexivity|].
      intros (_ & [Hstats|[?|?]]); [|done..].
      cbn [token_stats set_token_stats] in Hstats.
      by apply (not_Exists_filter_neg (λ r, token_id r = id)) in Hstats.
    + done.
  - intros Htoken Href. eexists. split.
    + erewrite sess_bind_run by (by rewrite statement_all_run).
      rewrite statement_all_run by done.
      cbn [conn archive db sent clock_now].
      rewrite bool_decide_eq_true_2; [reflexivity|].
      split; [exact Htoken|]. right. exact Href.
    + done.
Qed.

Lemma delete_token_foreign_keys_witness :
  ∃ s',
    delete_token 1
      {| conn := connect (set_token_stats [stats_day19] 2 pool_db) [];
         archive :=
           {| tasks :=
                [{| task_row_id := 1; task_id := "task-1"; task_token_id := 1;
                    task_model := "sora"; prompt := "a cat";
                    status := "completed"; progress := Float 1 2;
                    result_urls := None; error_message := None;
                    retry_count := 0; task_created_at := 10;
                    completed_at := Some 20 |}];
              tasks_id_seq := 2; request_logs := [];
              request_logs_id_seq := 1 |};
         client_now := 1000 |} = (Raise ForeignKeyViolationError, s') ∧
    tokens (db (conn s')) = tokens pool_db.
Proof.
  destruct (delete_token_foreign_keys
              {| conn := connect (set_token_stats [stats_day19] 2 pool_db) [];
                 archive :=
                   {| tasks :=
                        [{| task_row_id := 1; task_id := "task-1";
                            task_token_id := 1; task_model := "sora";
                            prompt := "a cat"; status := "completed";
                            progress := Float 1 2; result_urls := None;
                            error_message := None; retry_count := 0;
                            task_created_at := 10;
                            completed_at := Some 20 |}];
                      tasks_id_seq := 2; request_logs := [];
                      request_logs_id_seq := 1 |};
                 client_now := 1000 |} 1 eq_refl) as [_ Href].
  destruct Href as (s' & Hrun & Htokens & _).
  - apply (bool_decide_unpack _). by vm_compute.
  - left. apply Exists_cons_hd. reflexivity.
  - exists s'. split; [exact Hrun|exact Htokens].
Defined.

(** X30. Inserts that the constraints refuse, on a connection that serves
    the statement.  [create_task] raises a [UniqueViolationError] for a
    [task_id] that is already stored and a [ForeignKeyViolationError] for a
    [token_id] that names no credential; [log_request] raises a
    [ForeignKeyViolationError] for such a [token_id] but accepts a log
    without [token_id], which gets the next id and the server's time.  A
    refused insert stores no row. *)
Theorem inserts_refused (s : Session) (task : Task) (log : RequestLog) :
  faults (conn s) = [] →
  (Exists (λ t, task_id t = task_id task) (tasks (archive s)) →
   ∃ s', create_task task s = (Raise UniqueViolationError, s') ∧
         tasks (archive s') = tasks (archive s) ∧
         request_logs (archive s') = request_logs (archive s) ∧
         tokens (db (conn s')) = tokens (db (conn s))) ∧
  (¬ Exists (λ t, task_id t = task_id task) (tasks (archive s)) →
   ¬ token_exists (task_token_id task) (db (conn s)) →
   ∃ s', create_task task s = (Raise ForeignKeyViolationError, s') ∧
         tasks (archive s') = tasks (archive s) ∧
         request_logs (archive s') = request_logs (archive s) ∧
         tokens (db (conn s')) = tokens (db (conn s))) ∧
  (∀ id, log_token_id log = Some id → ¬ token_exists id (db (conn s)) →
   ∃ s', log_request log s = (Raise ForeignKeyViolationError, s') ∧
         tasks (archive s') = tasks (archive s) ∧
         request_logs (archive s') = request_logs (archive s) ∧
         tokens (db (conn s')) = tokens (db (conn s))) ∧
  (log_token_id log = None →
   ∃ s' row,
     log_request log s = (Ok (request_logs_id_seq (archive s)), s') ∧
     request_logs (archive s') = request_logs (archive s) ++ [row] ∧
     log_row_id row = request_logs_id_seq (archive s) ∧
     log_created_at row = clock_now (conn s) ∧
     log_updated_at row = None ∧
     request_logs_id_seq (archive s') = request_logs_id_seq (archive s) + 1).
Proof.
  intros Hf. unfold create_task, log_request. repeat split.
  - intros Hdup. eexists. split.
    + erewrite sess_bind_raise; [reflexivity|].
      rewrite statement_all_run by done.
      by rewrite bool_decide_eq_true_2 by done.
    + done.
  - intros Hnew Htoken. eexists. split.
    + erewrite sess_bind_raise; [reflexivity|].
      rewrite statement_all_run by done.
      rewrite bool_decide_eq_false_2 by done.
      by rewrite bool_decide_eq_false_2 by done.
    + done.
  - intros id Hid Htoken. eexists. split.
    + erewrite sess_bind_raise; [reflexivity|].
      rewrite statement_all_run by done. rewrite Hid. cbn [log_token_ok].
      by rewrite bool_decide_eq_false_2 by done.
    + done.
  - intros Hid. eexists _, _. split.
    + erewrite sess_bind_run; [reflexivity|].
      rewrite statement_all_run by done. rewrite Hid. cbn [log_token_ok].
      reflexivity.
    + done.
Qed.

Lemma inserts_refused_witness :
  ∃ s',
    create_task
      {| task_row_id := 0; task_id := "task-1"; task_token_id := 9;
         task_model := "sora"; prompt := "a cat"; status := "processing";
         progress := Float 0 0; result_urls := None; error_message := None;
         retry_count := 0; task_created_at := 0; completed_at := None |}
      {| conn := connect pool_db [];
         archive := {| tasks := []; tasks_id_seq := 1; request_logs := [];
                       request_logs_id_seq := 1 |};
         client_now := 1000 |} = (Raise ForeignKeyViolationError, s').
Proof.
  destruct (inserts_refused
              {| conn := connect pool_db [];
                 archive := {| tasks := []; tasks_id_seq := 1;
                               request_logs := []; request_logs_id_seq := 1 |};
                 client_now := 1000 |}
              {| task_row_id := 0; task_id := "task-1"; task_token_id := 9;
                 task_model := "sora"; prompt := "a cat";
                 status := "processing"; progress := Float 0 0;
                 result_urls := None; error_message := None;
                 retry_count := 0; task_created_at := 0;
                 completed_at := None |}
              {| log_row_id := 0; log_token_id := None; log_task_id := None;
                 operation := "generate"; request_body := None;
                 response_body := None; status_code := 200;
                 duration := Float 0 0; log_created_at := 0;
                 log_updated_at := None |} eq_refl) as (_ & Hfk & _).
  destruct Hfk as (s' & Hrun & _).
  - by intros H%Exists_nil.
  - apply (bool_decide_unpack _). by vm_compute.
  - exists s'. exact Hrun.
Defined.
